(** * Signal correspondence tracer: the proof-orchestration core

    A shallow embedding of the Python sources

      - [src/aligner/trace_signal.py]
      - [src/experiment/find_correspondences.py]
      - [src/experiment/demo_fifo/python/trace_fifo_signals.py]

    Python [str] values are modelled as [string]; a character stands for
    the code point of the same number (0..255).  Python [int] values that
    come out of [\d+] captures are natural numbers.  Calls to the yosys
    backend are recorded in an explicit log of invocations, and the
    backend's answer is an arbitrary function of the log and the call. *)

From Stdlib Require Import String Ascii List Arith Bool Lia.
From Stdlib Require Import Decimal DecimalString DecimalNat Permutation Sorted.
Import ListNotations.

Local Open Scope string_scope.
Local Open Scope list_scope.
Local Open Scope nat_scope.

(** String concatenation, Python's [+] on [str]. *)
Infix "+++" := String.append (right associativity, at level 60).

(** ** Python string primitives *)

Module PyStr.

Definition code (c : ascii) : nat := nat_of_ascii c.

Definition LF : ascii := "010"%char.
Definition DQUOTE : ascii := "034"%char.
Definition BACKSLASH : ascii := "092"%char.

(** [str.isspace] on one character, which is also the class [\s]. *)
Definition isspace (c : ascii) : bool :=
  let n := code c in
  ((9 <=? n) && (n <=? 13)) || ((28 <=? n) && (n <=? 32))
  || (n =? 133) || (n =? 160).

(** The class [\d] below code point 256: the ASCII digits. *)
Definition isdigit (c : ascii) : bool :=
  let n := code c in (48 <=? n) && (n <=? 57).

(** The class [\w] below code point 256: [str.isalnum] or underscore. *)
Definition isword (c : ascii) : bool :=
  let n := code c in
  isdigit c
  || ((65 <=? n) && (n <=? 90)) || ((97 <=? n) && (n <=? 122))
  || (n =? 95)
  || (n =? 170) || (n =? 178) || (n =? 179) || (n =? 181)
  || (n =? 185) || (n =? 186) || ((188 <=? n) && (n <=? 190))
  || ((192 <=? n) && (n <=? 214)) || ((216 <=? n) && (n <=? 246))
  || ((248 <=? n) && (n <=? 255)).

(** [s.startswith(p)] *)
Definition startswith (p s : string) : bool := String.prefix p s.

(** [p in s] *)
Fixpoint contains (p s : string) : bool :=
  if String.prefix p s then true
  else match s with
       | EmptyString => false
       | String _ s' => contains p s'
       end.

(** [s.split(c)] for a one-character separator. *)
Fixpoint split (c : ascii) (s : string) : list string :=
  match s with
  | EmptyString => [EmptyString]
  | String a s' =>
      if Ascii.eqb a c then EmptyString :: split c s'
      else match split c s' with
           | h :: t => String a h :: t
           | [] => [String a EmptyString]
           end
  end.

Fixpoint lstrip (s : string) : string :=
  match s with
  | String a s' => if isspace a then lstrip s' else s
  | EmptyString => EmptyString
  end.

Fixpoint rstrip (s : string) : string :=
  match s with
  | EmptyString => EmptyString
  | String a s' =>
      match rstrip s' with
      | EmptyString => if isspace a then EmptyString else String a EmptyString
      | r => String a r
      end
  end.

(** [s.strip()] *)
Definition strip (s : string) : string := rstrip (lstrip s).

Fixpoint spaces (n : nat) : string :=
  match n with
  | O => EmptyString
  | S n' => String " " (spaces n')
  end.

(** The format spec [{s:<n}]: left-justify in a field of [n] characters. *)
Definition ljust (n : nat) (s : string) : string :=
  s +++ spaces (n - String.length s).

(** [s.replace(c, '')] for a one-character [c]. *)
Fixpoint remove_char (c : ascii) (s : string) : string :=
  match s with
  | EmptyString => EmptyString
  | String a s' =>
      if Ascii.eqb a c then remove_char c s' else String a (remove_char c s')
  end.

(** [s.split(c)[-1]] *)
Definition last_field (c : ascii) (s : string) : string :=
  List.last (split c s) EmptyString.

(** [sep.join(parts)] *)
Definition join (sep : string) (parts : list string) : string :=
  String.concat sep parts.

(** [str(n)] for a non-negative [int]. *)
Definition str_of_int (n : nat) : string :=
  NilEmpty.string_of_uint (Nat.to_uint n).

(** [int(s)] on a string captured by [\d+], where it cannot raise. *)
Definition int_of (s : string) : nat :=
  match NilEmpty.uint_of_string s with
  | Some d => Nat.of_uint d
  | None => 0
  end.

Fixpoint all_digits (s : string) : bool :=
  match s with
  | EmptyString => true
  | String a s' => isdigit a && all_digits s'
  end.

(** [int(s)] on a string over digits and commas' fields: [None] stands
    for the [ValueError] raised on the empty string. *)
Definition py_int (s : string) : option nat :=
  match s with
  | EmptyString => None
  | _ => if all_digits s then Some (int_of s) else None
  end.

(** Truthiness of an optional string: [None] and [''] are false. *)
Definition truthy (o : option string) : bool :=
  match o with
  | Some (String _ _) => true
  | _ => false
  end.

(** [o or d] *)
Definition or_else (o : option string) (d : string) : string :=
  match o with
  | Some (String a s) => String a s
  | _ => d
  end.

End PyStr.

(** ** A backtracking matcher for the regular expressions of the sources

    The matcher follows the priorities of Python's [re]: alternatives
    left to right, greedy repetition giving characters back one at a
    time.  Repetition is only needed over character classes. *)

Module Re.

Inductive regex : Type :=
| Lit (s : string)                 (* literal text *)
| One (p : ascii -> bool)          (* one character of a class *)
| Plus (p : ascii -> bool)         (* [c+], greedy *)
| Star (p : ascii -> bool)         (* [c*], greedy *)
| Cat (r1 r2 : regex)              (* r1 r2 *)
| Alt (r1 r2 : regex)              (* r1|r2 *)
| Opt (r : regex)                  (* (?:r)?, greedy *)
| Grp (i : nat) (r : regex)        (* capturing group number i *)
| NotAhead (r : regex).            (* (?!r) *)

(** Captured groups, by number, latest first; [group] gives [None] for a
    group that did not take part in the match. *)
Definition captures : Type := list (nat * string).

Definition group (i : nat) (caps : captures) : option string :=
  match List.find (fun e => fst e =? i) caps with
  | Some e => Some (snd e)
  | None => None
  end.

Definition result : Type := (string * captures)%type.

(** The text consumed between input [s] and its suffix [rest]. *)
Definition consumed (s rest : string) : string :=
  String.substring 0 (String.length s - String.length rest) s.

Fixpoint star (p : ascii -> bool) (s : string) (k : string -> option result)
  : option result :=
  match s with
  | String c s' =>
      if p c then
        match star p s' k with
        | Some r => Some r
        | None => k s
        end
      else k s
  | EmptyString => k s
  end.

Definition plus (p : ascii -> bool) (s : string) (k : string -> option result)
  : option result :=
  match s with
  | String c s' => if p c then star p s' k else None
  | EmptyString => None
  end.

Fixpoint lit (t s : string) : option string :=
  match t with
  | EmptyString => Some s
  | String a t' =>
      match s with
      | String b s' => if Ascii.eqb a b then lit t' s' else None
      | EmptyString => None
      end
  end.

Fixpoint run (r : regex) (s : string) (caps : captures)
  (k : string -> captures -> option result) : option result :=
  match r with
  | Lit t => match lit t s with Some s' => k s' caps | None => None end
  | One p =>
      match s with
      | String c s' => if p c then k s' caps else None
      | EmptyString => None
      end
  | Plus p => plus p s (fun s' => k s' caps)
  | Star p => star p s (fun s' => k s' caps)
  | Cat r1 r2 => run r1 s caps (fun s' caps' => run r2 s' caps' k)
  | Alt r1 r2 =>
      match run r1 s caps k with
      | Some x => Some x
      | None => run r2 s caps k
      end
  | Opt r1 =>
      match run r1 s caps k with
      | Some x => Some x
      | None => k s caps
      end
  | Grp i r1 =>
      run r1 s caps (fun s' caps' => k s' ((i, consumed s s') :: caps'))
  | NotAhead r1 =>
      match run r1 s caps (fun s' caps' => Some (s', caps')) with
      | Some _ => None
      | None => k s caps
      end
  end.

(** [re.match(r, s)]: the unmatched rest of [s] and the groups. *)
Definition re_match (r : regex) (s : string) : option result :=
  run r s [] (fun s' caps => Some (s', caps)).

(** [re.search(r, s)] *)
Fixpoint re_search (r : regex) (s : string) : option result :=
  match re_match r s with
  | Some x => Some x
  | None =>
      match s with
      | String _ s' => re_search r s'
      | EmptyString => None
      end
  end.

(** [re.findall(r, s)]: the groups of the successive non-overlapping
    matches.  [skip] counts the characters still covered by the
    previous match. *)
Fixpoint findall_from (r : regex) (s : string) (skip : nat)
  : list captures :=
  match skip with
  | S n =>
      match s with
      | String _ s' => findall_from r s' n
      | EmptyString => []
      end
  | O =>
      match re_match r s with
      | Some (rest, caps) =>
          caps ::
          match s with
          | String _ s' =>
              findall_from r s' (String.length s - String.length rest - 1)
          | EmptyString => []
          end
      | None =>
          match s with
          | String _ s' => findall_from r s' 0
          | EmptyString => []
          end
      end
  end.

Definition findall (r : regex) (s : string) : list captures :=
  findall_from r s 0.

(** Every character of [s] is in the class [p]. *)
Fixpoint all_chars (p : ascii -> bool) (s : string) : bool :=
  match s with
  | EmptyString => true
  | String c s' => p c && all_chars p s'
  end.

(** [s] does not begin with a character of the class [p]. *)
Definition head_fails (p : ascii -> bool) (s : string) : bool :=
  match s with
  | EmptyString => true
  | String c _ => negb (p c)
  end.

(** A sequence of regular expressions, one after the other. *)
Fixpoint seq (rs : list regex) : regex :=
  match rs with
  | [] => Lit EmptyString
  | [r] => r
  | r :: rs' => Cat r (seq rs')
  end.

Definition notchr (c : ascii) (a : ascii) : bool := negb (Ascii.eqb a c).

End Re.

(** ** The yosys backend as seen by the scripts

    [subprocess.run] either raises or completes with the captured output
    streams.  Every call is appended to a log; the answer may depend on
    everything that was run before. *)

Module Subprocess.

Inductive exn : Type :=
| TimeoutExpired
| OtherError (msg : string).

Record completed : Type := { stdout : string; stderr : string }.

Record invocation : Type := { script : string; timeout : nat }.

Definition log : Type := list invocation.

Definition backend : Type := log -> invocation -> exn + completed.

(** A computation that may call the backend and may raise. *)
Definition M (A : Type) : Type := log -> (exn + A) * log.

Definition ret {A} (a : A) : M A := fun h => (inr a, h).

Definition bind {A B} (m : M A) (f : A -> M B) : M B :=
  fun h =>
    match m h with
    | (inl e, h') => (inl e, h')
    | (inr a, h') => f a h'
    end.

(** [subprocess.run(['yosys', ...], timeout=t)] on script text [scr]. *)
Definition run (yosys : backend) (scr : string) (t : nat) : M completed :=
  fun h =>
    let call := {| script := scr; timeout := t |} in
    (yosys h call, h ++ [call]).

End Subprocess.

(** ** [src/aligner/trace_signal.py] *)

Module TraceSignal.

Import PyStr Re.

Definition nl : string := String LF EmptyString.
Definition dq : string := String DQUOTE EmptyString.

(** One entry of a wire table: the tuple
    [(wire_name, width, src, hdlname)]. *)
Record wire : Type := mkWire {
  wire_name : string;
  width : nat;
  src : option string;
  hdlname : option string
}.

(** [r'\s*module\s+(\w+)'] *)
Definition re_module : regex :=
  seq [Star isspace; Lit "module"; Plus isspace; Grp 1 (Plus isword)].

(** [get_other_modules], on the lines of the file. *)
Definition get_other_modules (file_lines : list string)
  (target_module : string) : list string :=
  fold_left
    (fun modules line =>
       match re_match re_module line with
       | Some (_, caps) =>
           match group 1 caps with
           | Some m =>
               if negb (String.eqb m target_module) then modules ++ [m]
               else modules
           | None => modules
           end
       | None => modules
       end)
    file_lines [].

Definition unlines (ls : list string) : string :=
  String.concat EmptyString (map (fun l => l +++ nl) ls).

Definition delete_commands (others : list string) : string :=
  join nl (map (fun m => "delete " +++ m) others).

(** [generate_miter_script]; [gold_abs] and [gate_abs] are the absolute
    paths of the two files, [gold_lines] and [gate_lines] their lines. *)
Definition generate_miter_script (gold_abs gate_abs : string)
  (gold_lines gate_lines : list string) (module_name : string) : string :=
  let gold_others := get_other_modules gold_lines module_name in
  let gate_others := get_other_modules gate_lines module_name in
  let gold_delete := delete_commands gold_others in
  let gate_delete := delete_commands gate_others in
  unlines
    [ "read_verilog -formal " +++ gold_abs;
      gold_delete;
      "prep -flatten -top " +++ module_name;
      "rename -top gold";
      "clk2fflogic";
      "design -stash gold";
      "";
      "read_verilog -formal " +++ gate_abs;
      gate_delete;
      "prep -flatten -top " +++ module_name;
      "rename -top gate";
      "clk2fflogic";
      "";
      "design -copy-from gold -as gold gold";
      "miter -equiv -flatten -make_outputs gold gate miter";
      "hierarchy -top miter" ].

(** *** [parse_dump] *)

(** [r'attribute\s+\\src\s+Q([^Q]+)Q'], Q the double quote character *)
Definition re_src : regex :=
  seq [Lit "attribute"; Plus isspace; Lit "\src"; Plus isspace; Lit dq;
       Grp 1 (Plus (notchr DQUOTE)); Lit dq].

(** [r'attribute\s+\\hdlname\s+Q([^Q]+)Q'] *)
Definition re_hdlname : regex :=
  seq [Lit "attribute"; Plus isspace; Lit "\hdlname"; Plus isspace; Lit dq;
       Grp 1 (Plus (notchr DQUOTE)); Lit dq].

(** [r'wire\s+(?:width\s+(\d+)\s+)?(?:(?:input|output)\s+\d+\s+)?(.+)'] *)
Definition re_wire : regex :=
  seq [Lit "wire"; Plus isspace;
       Opt (seq [Lit "width"; Plus isspace; Grp 1 (Plus isdigit);
                 Plus isspace]);
       Opt (seq [Alt (Lit "input") (Lit "output"); Plus isspace;
                 Plus isdigit; Plus isspace]);
       Grp 2 (Plus (notchr LF))].

(** The attributes waiting for the next wire declaration. *)
Record pending : Type := mkPending {
  current_src : option string;
  current_hdlname : option string
}.

Definition no_pending : pending :=
  {| current_src := None; current_hdlname := None |}.

Record tables : Type := mkTables {
  gate_wires : list wire;
  gold_wires : list wire
}.

Definition no_tables : tables := {| gate_wires := []; gold_wires := [] |}.

(** [s[5:]] *)
Definition drop5 (s : string) : string :=
  String.substring 5 (String.length s - 5) s.

Definition hdl_startswith (p : string) (o : option string) : bool :=
  truthy o && match o with Some h => startswith p h | None => false end.

(** The classification of one wire declaration (the body of
    [if wire_match:] before the reset). *)
Definition record_wire (gate_abs gold_abs : string) (p : pending)
  (t : tables) (name : string) (w : nat) : tables :=
  let cs := current_src p in
  let ch := current_hdlname p in
  if hdl_startswith "gold " ch then
    {| gate_wires := gate_wires t;
       gold_wires :=
         gold_wires t ++ [mkWire name w cs (option_map drop5 ch)] |}
  else if hdl_startswith "gate " ch then
    {| gate_wires :=
         gate_wires t ++ [mkWire name w cs (option_map drop5 ch)];
       gold_wires := gold_wires t |}
  else if truthy cs then
    if contains gold_abs (or_else cs EmptyString) then
      {| gate_wires := gate_wires t;
         gold_wires := gold_wires t ++ [mkWire name w cs None] |}
    else if contains gate_abs (or_else cs EmptyString) then
      {| gate_wires := gate_wires t ++ [mkWire name w cs None];
         gold_wires := gold_wires t |}
    else t
  else t.

(** One iteration of the loop over the lines of the dump. *)
Definition parse_line (gate_abs gold_abs : string)
  (st : pending * tables) (raw : string) : pending * tables :=
  let '(p, t) := st in
  let line := strip raw in
  match re_match re_src line with
  | Some (_, caps) =>
      ({| current_src := group 1 caps;
          current_hdlname := current_hdlname p |}, t)
  | None =>
      match re_match re_hdlname line with
      | Some (_, caps) =>
          ({| current_src := current_src p;
              current_hdlname := group 1 caps |}, t)
      | None =>
          match re_match re_wire line with
          | Some (_, caps) =>
              let w :=
                match group 1 caps with
                | Some (String a d) => int_of (String a d)
                | _ => 1
                end in
              let name := strip (or_else (group 2 caps) EmptyString) in
              (no_pending, record_wire gate_abs gold_abs p t name w)
          | None =>
              if negb (startswith "attribute" line) then (no_pending, t)
              else (p, t)
          end
      end
  end.

Definition parse_lines (gate_abs gold_abs : string)
  (lines : list string) (st : pending * tables) : pending * tables :=
  fold_left (parse_line gate_abs gold_abs) lines st.

(** [parse_dump] returns [(gate_wires, gold_wires)]. *)
Definition parse_dump (dump_text gate_abs gold_abs : string) : tables :=
  snd (parse_lines gate_abs gold_abs (split LF dump_text)
         (no_pending, no_tables)).

(** *** [find_gate_target] *)

(** The pattern ["<path>:<line>.<start_col>-<line>.<end_col>"]. *)
Definition target_src (gate_abs : string) (line start_col end_col : nat)
  : string :=
  gate_abs +++ ":" +++ str_of_int line +++ "." +++ str_of_int start_col
  +++ "-" +++ str_of_int line +++ "." +++ str_of_int end_col.

(** The test [src and target_src in src]. *)
Definition src_matches (key : string) (w : wire) : bool :=
  truthy (src w) && contains key (or_else (src w) EmptyString).

Definition find_gate_target (gate_wires : list wire) (gate_abs : string)
  (line start_col end_col : nat) : list wire :=
  let key := target_src gate_abs line start_col end_col in
  fold_left
    (fun matches w => if src_matches key w then matches ++ [w] else matches)
    gate_wires [].

(** *** [filter_gold_candidates] *)

(** [orig_name in ('clock', 'reset')], under [if orig_name:]. *)
Definition is_clock_or_reset (w : wire) : bool :=
  truthy (hdlname w) &&
  match hdlname w with
  | Some n => String.eqb n "clock" || String.eqb n "reset"
  | None => false
  end.

(** [orig_name.startswith('io_')], under [if orig_name:]. *)
Definition is_io_port (w : wire) : bool :=
  truthy (hdlname w) &&
  match hdlname w with
  | Some n => startswith "io_" n
  | None => false
  end.

(** Wires introduced by the flattening and state-conversion passes:
    ['clk2fflogic' in wire_name] and ['rtlil.cc' in wire_name]. *)
Definition is_pass_internal (w : wire) : bool :=
  contains "clk2fflogic" (wire_name w) || contains "rtlil.cc" (wire_name w).

(** Miter infrastructure: the four [startswith] tests. *)
Definition is_miter_infrastructure (w : wire) : bool :=
  startswith "\in_" (wire_name w) || startswith "\trigger" (wire_name w)
  || startswith "\gold_" (wire_name w) || startswith "\gate_" (wire_name w).

(** ['$procmux$' in wire_name] *)
Definition is_procmux (w : wire) : bool :=
  contains "$procmux$" (wire_name w).

(** ['$0\\' in wire_name] *)
Definition is_next_state (w : wire) : bool :=
  contains "$0\" (wire_name w).

(** One iteration of the loop of [filter_gold_candidates]; every
    [continue] leaves [candidates] as it is.  The local [name], which the
    loop body computes and never reads, is left out. *)
Definition filter_step (candidates : list wire) (w : wire) : list wire :=
  if truthy (hdlname w)
     && match hdlname w with
        | Some n => String.eqb n "clock" || String.eqb n "reset"
        | None => false
        end
  then candidates
  else if truthy (hdlname w)
          && match hdlname w with
             | Some n => startswith "io_" n
             | None => false
             end
  then candidates
  else if contains "clk2fflogic" (wire_name w) then candidates
  else if startswith "\in_" (wire_name w)
          || startswith "\trigger" (wire_name w) then candidates
  else if startswith "\gold_" (wire_name w)
          || startswith "\gate_" (wire_name w) then candidates
  else if contains "$procmux$" (wire_name w) then candidates
  else if contains "rtlil.cc" (wire_name w) then candidates
  else if contains "$0\" (wire_name w) then candidates
  else candidates ++ [w].

Definition filter_gold_candidates (gold_wires : list wire) : list wire :=
  fold_left filter_step gold_wires [].

(** The comprehension of [main] that keeps the candidates of the
    target's width. *)
Definition width_matched (target_width : nat) (candidates : list wire)
  : list wire :=
  filter (fun c => width c =? target_width) candidates.

(** The Candidate Filter: [filter_gold_candidates] followed by the width
    comprehension, as [main] runs them. *)
Definition candidate_filter (gold_wires : list wire) (target_width : nat)
  : list wire :=
  width_matched target_width (filter_gold_candidates gold_wires).

(** *** [run_proofs] *)

(** The [sat] command appended for one candidate. *)
Definition sat_command (bounded : bool) (gate_target_wire : string)
  (c : wire) : string :=
  if bounded then
    "sat -prove " +++ wire_name c +++ " " +++ gate_target_wire
    +++ " -set-init-zero -seq 2" +++ nl
  else
    "sat -tempinduct -prove trigger 0 -prove " +++ wire_name c +++ " "
    +++ gate_target_wire +++ " -set-init-zero -seq 2 miter" +++ nl.

(** The loop [for ... in candidates: script += ...]. *)
Definition add_sat_commands (bounded : bool) (gate_target_wire : string)
  (candidates : list wire) (script : string) : string :=
  fold_left (fun scr c => scr +++ sat_command bounded gate_target_wire c)
    candidates script.

(** One iteration of the loop over the output lines: the state is
    [(results, result_idx)]. *)
Definition interpret_line (candidates : list wire)
  (st : list (wire * bool) * nat) (line : string)
  : list (wire * bool) * nat :=
  let '(results, result_idx) := st in
  if contains "SUCCESS!" line then
    if result_idx <? List.length candidates then
      match nth_error candidates result_idx with
      | Some c => (results ++ [(c, true)], result_idx + 1)
      | None => st
      end
    else st
  else if contains "FAIL!" line then
    if result_idx <? List.length candidates then
      match nth_error candidates result_idx with
      | Some c => (results ++ [(c, false)], result_idx + 1)
      | None => st
      end
    else st
  else st.

(** The Result Interpreter: the part of [run_proofs] after the backend
    has returned [output]. *)
Definition interpret_output (candidates : list wire) (output : string)
  : list (wire * bool) :=
  fst (fold_left (interpret_line candidates) (split LF output) ([], 0)).

Definition run_proofs (yosys : Subprocess.backend)
  (gold_abs gate_abs : string) (gold_lines gate_lines : list string)
  (module_name gate_target_wire : string) (candidates : list wire)
  (bounded : bool) : Subprocess.M (list (wire * bool)) :=
  let script :=
    add_sat_commands bounded gate_target_wire candidates
      (generate_miter_script gold_abs gate_abs gold_lines gate_lines
         module_name) in
  Subprocess.bind (Subprocess.run yosys script 600)
    (fun result =>
       let output := Subprocess.stdout result +++ Subprocess.stderr result in
       Subprocess.ret (interpret_output candidates output)).

(** *** The steps of [main] after the dump has been parsed *)

(** What a step of [main] hands on: a value, or [sys.exit(code)]. *)
Inductive control (A : Type) : Type :=
| Continue (a : A)
| SysExit (code : nat).
Arguments Continue {A} a.
Arguments SysExit {A} code.

(** [src.split(':')[-1] if ':' in src else src] *)
Definition src_short (s : string) : string :=
  if contains ":" s then last_field ":" s else s.

(** The lines printed for one gate wire under
    ["Available gate signals:"]. *)
Definition catalogue_entry (w : wire) : list string :=
  if truthy (src w) && truthy (hdlname w) then
    [ "    " +++ ljust 25 (or_else (hdlname w) EmptyString)
      +++ " width=" +++ str_of_int (width w)
      +++ "  src=" +++ src_short (or_else (src w) EmptyString) ]
  else if truthy (src w) then
    [ "    " +++ ljust 25 (remove_char BACKSLASH (wire_name w))
      +++ " width=" +++ str_of_int (width w)
      +++ "  src=" +++ src_short (or_else (src w) EmptyString) ]
  else [].

(** Step 3 of [main]: the printed lines, and the target or the exit. *)
Definition main_step3 (loc : string) (gate_wires : list wire)
  (gate_abs : string) (line_num start_col end_col : nat)
  : list string * control wire :=
  let banner := "[Step 3] Finding gate signal at " +++ loc +++ "..." in
  let matches :=
    find_gate_target gate_wires gate_abs line_num start_col end_col in
  match matches with
  | [] =>
      ( [ banner;
          nl +++ "  Error: No signal found at location " +++ loc;
          "  Available gate signals:" ]
        ++ flat_map catalogue_entry gate_wires,
        SysExit 1 )
  | target :: _ =>
      ( [ banner;
          "  Found: " +++ wire_name target;
          "  Width: " +++ str_of_int (width target) ]
        ++ (if truthy (hdlname target)
            then ["  HDL name: " +++ or_else (hdlname target) EmptyString]
            else []),
        Continue target )
  end.

(** Step 4 of [main]: the candidates, or the exit when there is none. *)
Definition main_step4 (gold_wires : list wire) (gate_target_width : nat)
  : list string * control (list wire) :=
  let candidates := candidate_filter gold_wires gate_target_width in
  let printed :=
    [ nl +++ "[Step 4] Collecting gold candidates (width="
      +++ str_of_int gate_target_width +++ ")...";
      "  Found " +++ str_of_int (List.length candidates)
      +++ " candidates with matching width:" ]
    ++ map (fun c =>
              "    " +++ or_else (hdlname c)
                          (remove_char BACKSLASH (wire_name c)))
         candidates in
  match candidates with
  | [] =>
      (printed ++ [nl +++ "  No candidates with matching width found."],
       SysExit 1)
  | _ :: _ => (printed, Continue candidates)
  end.

(** *** Notions used to state the properties *)

(** [l1] is [l2] with some elements left out, the order kept. *)
Inductive subsequence {A : Type} : list A -> list A -> Prop :=
| sub_nil : subsequence [] []
| sub_skip x l1 l2 : subsequence l1 l2 -> subsequence l1 (x :: l2)
| sub_keep x l1 l2 : subsequence l1 l2 -> subsequence (x :: l1) (x :: l2).

(** The heuristic exclusions of the Candidate Filter, by category. *)
Definition excluded (w : wire) : bool :=
  is_clock_or_reset w || is_io_port w || is_pass_internal w
  || is_procmux w || is_miter_infrastructure w || is_next_state w.

(** The marker a line of backend output carries, if any: [true] for
    ['SUCCESS!'], [false] for ['FAIL!'] without ['SUCCESS!']. *)
Definition marker (line : string) : option bool :=
  if contains "SUCCESS!" line then Some true
  else if contains "FAIL!" line then Some false
  else None.

(** The markers of a list of output lines, in order. *)
Definition line_markers (lines : list string) : list bool :=
  flat_map (fun line => match marker line with Some b => [b] | None => [] end)
    lines.

(** The markers of an output stream, in emission order. *)
Definition markers (output : string) : list bool :=
  line_markers (split LF output).

(** An attribute line, as the parser tests it:
    [line.startswith('attribute')] after [strip]. *)
Definition is_attribute_line (raw : string) : bool :=
  startswith "attribute" (strip raw).

(** The name shown for a gate wire in the diagnostic catalogue. *)
Definition catalogue_name (w : wire) : string :=
  if truthy (hdlname w) then or_else (hdlname w) EmptyString
  else remove_char BACKSLASH (wire_name w).

(** The catalogue line of a wire that has provenance: name, width and
    shortened provenance. *)
Definition catalogue_line (w : wire) : string :=
  "    " +++ ljust 25 (catalogue_name w)
  +++ " width=" +++ str_of_int (width w)
  +++ "  src=" +++ src_short (or_else (src w) EmptyString).

(** *** Module introspection, locations and source text *)

(** [match.group(i)] of a group that took part in the match. *)
Definition group_text (i : nat) (caps : captures) : string :=
  or_else (group i caps) EmptyString.

(** [detect_module_name], on the lines of the file. *)
Fixpoint detect_module_name (file_lines : list string) : option string :=
  match file_lines with
  | [] => None
  | line :: rest =>
      match re_match re_module line with
      | Some (_, caps) => Some (group_text 1 caps)
      | None => detect_module_name rest
      end
  end.

(** The position [$] matches at: the end of the string, or just before
    a newline that ends it. *)
Definition at_end (s : string) : bool :=
  match s with
  | EmptyString => true
  | String c EmptyString => Ascii.eqb c LF
  | _ => false
  end.

(** [$] as the last item of a pattern: the match is accepted only at
    such a position. *)
Definition accept_at_end (s : string) (caps : captures) : option result :=
  if at_end s then Some (s, caps) else None.

(** [r'(\d+)\.(\d+)-(\d+)$'], up to the [$]. *)
Definition re_loc : regex :=
  seq [Grp 1 (Plus isdigit); Lit "."; Grp 2 (Plus isdigit); Lit "-";
       Grp 3 (Plus isdigit)].

(** [parse_loc] *)
Definition parse_loc (loc_str : string) : option (nat * nat * nat) :=
  match run re_loc loc_str [] accept_at_end with
  | Some (_, caps) =>
      Some (int_of (group_text 1 caps), int_of (group_text 2 caps),
            int_of (group_text 3 caps))
  | None => None
  end.

(** [line[start_col - 1:end_col]]; for [start_col = 0] the slice starts
    at index [-1], the last character. *)
Definition slice_columns (start_col end_col : nat) (line : string) : string :=
  let n := String.length line in
  let start :=
    match start_col with
    | O => n - 1
    | S k => Nat.min k n
    end in
  let stop := Nat.min end_col n in
  String.substring start (stop - start) line.

(** [get_expression_text], on the lines of the file. *)
Definition get_expression_text (file_lines : list string)
  (line_num start_col end_col : nat) : option string :=
  match line_num with
  | O => None
  | S k =>
      match nth_error file_lines k with
      | Some line => Some (rstrip (slice_columns start_col end_col line))
      | None => None
      end
  end.

(** [r'@\[([^\]]+)\]'] *)
Definition re_at : regex :=
  seq [Lit "@["; Grp 1 (Plus (notchr "]")); Lit "]"].

(** The plain comment form: [//\s*] and then the group
    [.+\.scala:\d+] with a trailing [.*], before [$]. *)
Definition re_plain : regex :=
  seq [Lit "//"; Star isspace;
       Grp 1 (seq [Plus (notchr LF); Lit ".scala:"; Plus isdigit;
                   Star (notchr LF)])].

(** [re.search] for a pattern that ends in [$]. *)
Fixpoint re_search_end (r : regex) (s : string) : option result :=
  match run r s [] accept_at_end with
  | Some x => Some x
  | None =>
      match s with
      | String _ s' => re_search_end r s'
      | EmptyString => None
      end
  end.

(** [_extract_location] *)
Definition _extract_location (line : string) : option string :=
  match re_search re_at line with
  | Some (_, caps) => Some (group_text 1 caps)
  | None =>
      match re_search_end re_plain line with
      | Some (_, caps) => Some (strip (group_text 1 caps))
      | None => None
      end
  end.

(** The module a line declares, as both introspection loops test it. *)
Definition declared_module (line : string) : option string :=
  match re_match re_module line with
  | Some (_, caps) => Some (group_text 1 caps)
  | None => None
  end.

(** The modules a file declares, in order. *)
Definition declared_modules (file_lines : list string) : list string :=
  flat_map
    (fun line => match declared_module line with Some m => [m] | None => [] end)
    file_lines.

(** How a tagged wire reads in the dump: its provenance attribute, if
    any, its origin tag and its declaration. *)
Definition wire_block (side : string) (w : wire) : list string :=
  match src w with
  | Some s => ["attribute \src " +++ dq +++ s +++ dq]
  | None => []
  end
  ++ [ "attribute \hdlname " +++ dq +++ side +++ " "
       +++ or_else (hdlname w) EmptyString +++ dq;
       "wire width " +++ str_of_int (width w) +++ " " +++ wire_name w ].

(** A character a quoted attribute value can hold on one line. *)
Definition quotable (c : ascii) : bool :=
  negb (Ascii.eqb c DQUOTE) && negb (Ascii.eqb c LF).

(** A wire whose block reads back as itself: a non-empty provenance and
    an origin name without double quote or newline, and a name that
    begins with a backslash and has no whitespace. *)
Definition printable_wire (w : wire) : bool :=
  match src w with
  | Some s => truthy (Some s) && all_chars quotable s
  | None => true
  end
  && match hdlname w with
     | Some n => all_chars quotable n
     | None => false
     end
  && startswith "\" (wire_name w)
  && all_chars (fun c => negb (isspace c)) (wire_name w).

(** A wire is on its side by an origin tag, or else by a provenance that
    names the file at [path]. *)
Definition tagged_or_from (path : string) (w : wire) : Prop :=
  (exists n, hdlname w = Some n)
  \/ (hdlname w = None
      /\ exists s, src w = Some s /\ contains path s = true).

(** The name of a side in an origin tag. *)
Definition side_name (gold : bool) : string :=
  if gold then "gold" else "gate".

(** The dump text of a list of tagged wires, each with its side. *)
Definition dump_of (ws : list (bool * wire)) : string :=
  unlines (flat_map (fun e => wire_block (side_name (fst e)) (snd e)) ws).

End TraceSignal.

(** ** [src/experiment/find_correspondences.py] *)

Module FindCorrespondences.

Import PyStr Re.

Definition nl : string := TraceSignal.nl.

(** The generated script of [test_equivalence]. *)
Definition equiv_script (gold_file gate_file : string)
  (gold_lines gate_lines : list string)
  (module_name gold_sig gate_sig : string) (use_induct : bool) : string :=
  let equiv_cmd := if use_induct then "equiv_induct" else "equiv_simple" in
  let gold_other_modules :=
    TraceSignal.get_other_modules gold_lines module_name in
  let gate_other_modules :=
    TraceSignal.get_other_modules gate_lines module_name in
  let gold_delete_cmds := TraceSignal.delete_commands gold_other_modules in
  let gate_delete_cmds := TraceSignal.delete_commands gate_other_modules in
  nl +++
  TraceSignal.unlines
    [ "read_verilog -sv " +++ gold_file;
      "rename " +++ module_name +++ " gold";
      gold_delete_cmds;
      "";
      "read_verilog -sv " +++ gate_file;
      "rename " +++ module_name +++ " gate";
      gate_delete_cmds;
      "";
      "proc";
      "opt_clean";
      "equiv_make gold gate equiv_mod";
      "cd equiv_mod";
      "";
      "# Count cells before adding our pair";
      "select -count t:$equiv";
      "";
      "# Add our specific pair";
      "equiv_add \" +++ gold_sig +++ "_gold \" +++ gate_sig +++ "_gate";
      "";
      "# Count cells after adding our pair";
      "select -count t:$equiv";
      "";
      "# Try to prove";
      equiv_cmd;
      "";
      "# Check status";
      "equiv_status" ].

(** [r'(\d+) objects'] *)
Definition re_objects : regex := seq [Grp 1 (Plus isdigit); Lit " objects"].

(** [r'Unproven \$equiv \$auto\$equiv_add'] *)
Definition re_unproven : regex := Lit "Unproven $equiv $auto$equiv_add".

(** [r'Of those cells (\d+) are proven'] *)
Definition re_proven : regex :=
  seq [Lit "Of those cells "; Grp 1 (Plus isdigit); Lit " are proven"].

Definition group_int (i : nat) (caps : captures) : nat :=
  int_of (or_else (group i caps) EmptyString).

(** The verdict [test_equivalence] reads off the backend's [stdout]. *)
Definition verdict (output : string) : bool :=
  if contains "Error in gold signal" output
     || contains "Error in gate signal" output
  then false
  else
    match findall re_objects output with
    | c0 :: c1 :: _ =>
        let before := group_int 1 c0 in
        let after := group_int 1 c1 in
        if after <=? before then false
        else if 0 <? List.length (findall re_unproven output) then false
        else
          match re_search re_proven output with
          | Some (_, caps) => 0 <? group_int 1 caps
          | None => false
          end
    | _ => false
    end.

(** A backend call that gave no proof: it raised (a timeout or any other
    error), or it completed with an output that [verdict] does not
    accept, the error texts of [equiv_add] included. *)
Definition rejected (r : Subprocess.exn + Subprocess.completed) : bool :=
  match r with
  | inl _ => true
  | inr result => negb (verdict (Subprocess.stdout result))
  end.

Section Backend.

Variable yosys : Subprocess.backend.
Variables gold_file gate_file : string.
Variables gold_lines gate_lines : list string.
Variable module_name : string.

(** The backend call of [test_equivalence] for a pair: the script and
    [timeout=120]. *)
Definition pair_call (gold_sig gate_sig : string) (use_induct : bool)
  : Subprocess.invocation :=
  {| Subprocess.script :=
       equiv_script gold_file gate_file gold_lines gate_lines module_name
         gold_sig gate_sig use_induct;
     Subprocess.timeout := 120 |}.

Definition test_equivalence (gold_sig gate_sig : string)
  (use_induct : bool) : Subprocess.M bool :=
  if String.eqb gold_sig gate_sig then Subprocess.ret true
  else
    let script :=
      equiv_script gold_file gate_file gold_lines gate_lines module_name
        gold_sig gate_sig use_induct in
    fun h =>
      match Subprocess.run yosys script 120 h with
      | (inl Subprocess.TimeoutExpired, h') => (inr false, h')
      | (inl e, h') => (inl e, h')
      | (inr result, h') => (inr (verdict (Subprocess.stdout result)), h')
      end.

(** What the testing loop of [main] writes to the terminal. *)
Inductive event : Type :=
| Testing (tested total : nat) (gold_sig gate_sig : string) (width : nat)
| Matched (gold_sig gate_sig : string)
| TimedOut (gold_sig gate_sig : string).

Record progress : Type := mkProgress {
  correspondences : list (string * string * nat);
  tested : nat;
  printed : list event
}.

Definition start : progress :=
  {| correspondences := []; tested := 0; printed := [] |}.

(** One iteration of [for gold_sig, gate_sig, width in
    matching_width_pairs], with its [try]/[except]. *)
Definition test_pair (use_induct : bool) (total : nat)
  (st : progress * Subprocess.log) (pair : string * string * nat)
  : progress * Subprocess.log :=
  let '(p, h) := st in
  let '(gold_sig, gate_sig, width) := pair in
  let n := tested p + 1 in
  let shown := printed p ++ [Testing n total gold_sig gate_sig width] in
  match test_equivalence gold_sig gate_sig use_induct h with
  | (inr true, h') =>
      ({| correspondences :=
            correspondences p ++ [(gold_sig, gate_sig, width)];
          tested := n;
          printed := shown ++ [Matched gold_sig gate_sig] |}, h')
  | (inr false, h') =>
      ({| correspondences := correspondences p;
          tested := n; printed := shown |}, h')
  | (inl Subprocess.TimeoutExpired, h') =>
      ({| correspondences := correspondences p;
          tested := n;
          printed := shown ++ [TimedOut gold_sig gate_sig] |}, h')
  | (inl (Subprocess.OtherError _), h') =>
      ({| correspondences := correspondences p;
          tested := n; printed := shown |}, h')
  end.

(** The testing loop of [main], from a given point on. *)
Definition test_pairs (use_induct : bool) (total : nat)
  (pairs : list (string * string * nat))
  (st : progress * Subprocess.log) : progress * Subprocess.log :=
  fold_left (test_pair use_induct total) pairs st.

(** The whole loop as [main] runs it. *)
Definition discover (use_induct : bool)
  (matching_width_pairs : list (string * string * nat))
  (h : Subprocess.log) : progress * Subprocess.log :=
  test_pairs use_induct (List.length matching_width_pairs)
    matching_width_pairs (start, h).

(** *** Notions used to state the properties *)

(** Whether a pair counts as proven when its turn comes at log [h]: the
    two names are equal, or the backend's answer to the pair's own call
    is a completed run with an accepted output. *)
Definition pair_proven (gold_sig gate_sig : string) (use_induct : bool)
  (h : Subprocess.log) : bool :=
  String.eqb gold_sig gate_sig
  || match yosys h (pair_call gold_sig gate_sig use_induct) with
     | inr result => verdict (Subprocess.stdout result)
     | inl _ => false
     end.

(** The log after a pair's turn: its call is added unless the two names
    are equal. *)
Definition pair_log (gold_sig gate_sig : string) (use_induct : bool)
  (h : Subprocess.log) : Subprocess.log :=
  if String.eqb gold_sig gate_sig then h
  else h ++ [pair_call gold_sig gate_sig use_induct].

(** The pairs of a list that count as proven, each at its own turn, in
    the order of the list, from log [h] on. *)
Fixpoint recorded (use_induct : bool) (pairs : list (string * string * nat))
  (h : Subprocess.log) : list (string * string * nat) :=
  match pairs with
  | [] => []
  | (gold_sig, gate_sig, width) :: rest =>
      (if pair_proven gold_sig gate_sig use_induct h
       then [(gold_sig, gate_sig, width)] else [])
      ++ recorded use_induct rest (pair_log gold_sig gate_sig use_induct h)
  end.

End Backend.

(** *** Signal tables and the pairs to test *)

(** [r'wire\s+width\s+(\d+)\s+\\(\S+)'] *)
Definition re_signal : regex :=
  seq [Lit "wire"; Plus isspace; Lit "width"; Plus isspace;
       Grp 1 (Plus isdigit); Plus isspace; Lit "\";
       Grp 2 (Plus (fun c => negb (isspace c)))].

(** [signals[name] = width] on a dict kept in insertion order. *)
Fixpoint dict_set (name : string) (width : nat) (d : list (string * nat))
  : list (string * nat) :=
  match d with
  | [] => [(name, width)]
  | (k, v) :: d' =>
      if String.eqb k name then (k, width) :: d'
      else (k, v) :: dict_set name width d'
  end.

(** The part of [get_signals_with_widths] after the backend has returned
    [stdout]. *)
Definition signals_of_dump (stdout : string) : list (string * nat) :=
  fold_left
    (fun signals raw =>
       let line := strip raw in
       match re_match re_signal line with
       | Some (_, caps) =>
           dict_set (TraceSignal.group_text 2 caps)
             (int_of (TraceSignal.group_text 1 caps)) signals
       | None => signals
       end)
    (split LF stdout) [].

(** [is_internal] of [main] *)
Definition is_internal (sig : string) : bool :=
  negb (startswith "io_" sig)
  && negb (String.eqb sig "clock" || String.eqb sig "reset").

(** [{s: w for s, w in signals.items() if is_internal(s)}] *)
Definition internal_signals (signals : list (string * nat))
  : list (string * nat) :=
  filter (fun e => is_internal (fst e)) signals.

(** [name in d] *)
Definition has_key (name : string) (d : list (string * nat)) : bool :=
  existsb (fun e => String.eqb (fst e) name) d.

(** The nested loops that collect the pairs of equal width. *)
Definition matching_width_pairs (gold_internal gate_internal : list (string * nat))
  : list (string * string * nat) :=
  fold_left
    (fun pairs g =>
       fold_left
         (fun pairs t =>
            if snd g =? snd t then pairs ++ [(fst g, fst t, snd g)]
            else pairs)
         gate_internal pairs)
    gold_internal [].

(** [len(set(gold_internal.keys()) & set(gate_internal.keys())) > 0] *)
Definition has_same_named (gold_internal gate_internal : list (string * nat))
  : bool :=
  existsb (fun g => has_key (fst g) gate_internal) gold_internal.

(** One iteration of the loop that builds [filtered_pairs]. *)
Definition filter_pair (gold_internal gate_internal : list (string * nat))
  (filtered_pairs : list (string * string * nat))
  (pair : string * string * nat) : list (string * string * nat) :=
  let '(gold_sig, gate_sig, width) := pair in
  if String.eqb gold_sig gate_sig then
    filtered_pairs ++ [(gold_sig, gate_sig, width)]
  else if negb (has_key gold_sig gate_internal)
          && negb (has_key gate_sig gold_internal) then
    filtered_pairs ++ [(gold_sig, gate_sig, width)]
  else filtered_pairs.

(** The pairs [main] tests, from the two signal tables. *)
Definition pairs_to_test (gold_signals gate_signals : list (string * nat))
  : list (string * string * nat) :=
  let gold_internal := internal_signals gold_signals in
  let gate_internal := internal_signals gate_signals in
  let pairs := matching_width_pairs gold_internal gate_internal in
  if has_same_named gold_internal gate_internal then
    fold_left (filter_pair gold_internal gate_internal) pairs []
  else pairs.

(** A pair of two different names. *)
Definition cross_named (pair : string * string * nat) : bool :=
  negb (String.eqb (fst (fst pair)) (snd (fst pair))).

(** *** Notions used to state the properties *)

(** A wire declaration as the dump prints it: [wire width W \name], or
    [wire \name] for a wire of one bit. *)
Definition declaration (d : string * option nat) : string :=
  match snd d with
  | Some w => "  wire width " +++ str_of_int w +++ " \" +++ fst d
  | None => "  wire \" +++ fst d
  end.

(** The declarations that carry a width. *)
Definition wide (ds : list (string * option nat)) : list (string * nat) :=
  flat_map
    (fun d => match snd d with Some w => [(fst d, w)] | None => [] end) ds.

(** A wire name: not empty and without whitespace. *)
Definition wire_name (name : string) : bool :=
  match name with
  | EmptyString => false
  | _ => all_chars (fun c => negb (isspace c)) name
  end.

End FindCorrespondences.

(** ** [src/experiment/demo_fifo/python/trace_fifo_signals.py] *)

Module TraceFifoSignals.

Import PyStr Re.

Definition comma_or_brace (c : ascii) : bool :=
  Ascii.eqb c "," || Ascii.eqb c "}".

Definition digit_or_comma (c : ascii) : bool :=
  isdigit c || Ascii.eqb c ",".

(** [r':(\d+):(\d+)(?![,}])'] *)
Definition re_simple : regex :=
  seq [Lit ":"; Grp 1 (Plus isdigit); Lit ":"; Grp 2 (Plus isdigit);
       NotAhead (One comma_or_brace)].

(** [r':(\d+):\{([0-9,]+)\}'] *)
Definition re_brace : regex :=
  seq [Lit ":"; Grp 1 (Plus isdigit); Lit ":{";
       Grp 2 (Plus digit_or_comma); Lit "}"].

Definition group_str (i : nat) (caps : captures) : string :=
  or_else (group i caps) EmptyString.

(** The pairs appended for one match of the grouped form; [None] when
    [int(col)] raises. *)
Fixpoint brace_pairs (line : nat) (cols : list string)
  : option (list (nat * nat)) :=
  match cols with
  | [] => Some []
  | col :: cols' =>
      match py_int col with
      | Some c =>
          match brace_pairs line cols' with
          | Some rest => Some ((line, c) :: rest)
          | None => None
          end
      | None => None
      end
  end.

Fixpoint all_brace_pairs (ms : list captures) : option (list (nat * nat)) :=
  match ms with
  | [] => Some []
  | caps :: ms' =>
      match brace_pairs (int_of (group_str 1 caps))
              (split "," (group_str 2 caps)) with
      | Some here =>
          match all_brace_pairs ms' with
          | Some rest => Some (here ++ rest)
          | None => None
          end
      | None => None
      end
  end.

(** [parse_chisel_locations]; [None] stands for the [ValueError] of
    [int('')] on an empty column field. *)
Definition parse_chisel_locations (loc_string : string)
  : option (list (nat * nat)) :=
  let simple_matches := findall re_simple loc_string in
  let locs :=
    map (fun caps => (int_of (group_str 1 caps), int_of (group_str 2 caps)))
      simple_matches in
  let brace_matches := findall re_brace loc_string in
  match all_brace_pairs brace_matches with
  | Some more => Some (locs ++ more)
  | None => None
  end.

(** *** The re-rendering of [main] *)

(** [loc_by_line]: a dict from line to its columns, in insertion order. *)
Fixpoint dict_append (line col : nat) (d : list (nat * list nat))
  : list (nat * list nat) :=
  match d with
  | [] => [(line, [col])]
  | (l, cols) :: d' =>
      if l =? line then (l, cols ++ [col]) :: d'
      else (l, cols) :: dict_append line col d'
  end.

Definition loc_by_line (locs : list (nat * nat)) : list (nat * list nat) :=
  fold_left (fun d lc => dict_append (fst lc) (snd lc) d) locs [].

(** [sorted], as a stable insertion sort on a key. *)
Fixpoint insert_by {A} (key : A -> nat) (x : A) (l : list A) : list A :=
  match l with
  | [] => [x]
  | y :: l' =>
      if key x <? key y then x :: y :: l' else y :: insert_by key x l'
  end.

Definition sorted_by {A} (key : A -> nat) (l : list A) : list A :=
  fold_left (fun acc x => insert_by key x acc) l [].


(** The groups that reach the table cell: [loc_parts[:3]]. *)
Definition shown_groups (locs : list (nat * nat)) : list (nat * list nat) :=
  firstn 3 (sorted_by fst (loc_by_line locs)).


(** *** Notions used to state the properties *)














(** The (line, column) pairs a list of shown groups stands for. *)
Definition group_pairs (groups : list (nat * list nat))
  : list (nat * nat) :=
  flat_map (fun g => map (pair (fst g)) (snd g)) groups.




(** *** Reading the three source texts *)

(** [extract_chisel_code]; [file] is [None] when the file cannot be
    read, and otherwise its lines. *)
Definition extract_chisel_code (file : option (list string)) (line_num : nat)
  : string :=
  match file with
  | None => EmptyString
  | Some lines =>
      if (1 <=? line_num) && (line_num <=? List.length lines) then
        let code := strip (List.nth (line_num - 1) lines EmptyString) in
        if 33 <? String.length code
        then String.substring 0 30 code +++ "..."
        else code
      else EmptyString
  end.

(** [format_cell] *)
Definition format_cell (text : string) (width : nat) : list string :=
  map (fun line => String.substring 0 width (ljust width line))
    (split LF text).

(** [loc_match.group(1) if loc_match else ""] for the bracketed form. *)
Definition chisel_loc_of (line : string) : string :=
  match re_search TraceSignal.re_at line with
  | Some (_, caps) => TraceSignal.group_text 1 caps
  | None => EmptyString
  end.

(** The test both loops of [find_in_unoptimized] apply to a line. *)
Definition mentions (name line : string) : bool :=
  contains name line && (contains "wire" line || contains "assign" line).

(** One loop of [find_in_unoptimized], from line number [i] on. *)
Fixpoint find_line (name : string) (lines : list string) (i : nat)
  : option (string * nat * string) :=
  match lines with
  | [] => None
  | line :: rest =>
      if mentions name line then Some (name, i, chisel_loc_of line)
      else find_line name rest (i + 1)
  end.

(** [sig_name[1:]] *)
Definition drop1 (s : string) : string :=
  String.substring 1 (String.length s - 1) s.

(** [find_in_unoptimized]; [file] as for [extract_chisel_code]. *)
Definition find_in_unoptimized (sig_name : string)
  (file : option (list string)) : option (string * nat * string) :=
  match file with
  | None => None
  | Some lines =>
      match find_line sig_name lines 1 with
      | Some found => Some found
      | None =>
          if startswith "_" sig_name
          then find_line (drop1 sig_name) lines 1
          else None
      end
  end.

(** The optional bit range of a declaration. *)
Definition re_range : regex :=
  Opt (seq [Lit "["; Plus isdigit; Lit ":"; Plus isdigit; Lit "]"]).

(** [r'wire\s+(?:\[\d+:\d+\])?\s+(\w+)\s*=\s*([^;]+);'] *)
Definition re_wire_assign : regex :=
  seq [Lit "wire"; Plus isspace; re_range; Plus isspace;
       Grp 1 (Plus isword); Star isspace; Lit "="; Star isspace;
       Grp 2 (Plus (notchr ";")); Lit ";"].

(** [r'wire\s+(?:\[\d+:\d+\])?\s+(\w+)\s*;'] *)
Definition re_wire_decl : regex :=
  seq [Lit "wire"; Plus isspace; re_range; Plus isspace;
       Grp 1 (Plus isword); Star isspace; Lit ";"].

(** [r'assign\s+(\w+)\s*=\s*([^;]+);'] *)
Definition re_assign : regex :=
  seq [Lit "assign"; Plus isspace; Grp 1 (Plus isword); Star isspace;
       Lit "="; Star isspace; Grp 2 (Plus (notchr ";")); Lit ";"].

(** The lines the extraction loop passes over. *)
Definition skipped (line : string) : bool :=
  contains "module" line || contains "input" line
  || contains "output" line || contains "endmodule" line.

(** The body of the extraction loop for line number [i]: the tuple
    [(expression, i, sig_name, chisel_loc)] it appends, if any. *)
Definition signal_of_line (i : nat) (line : string)
  : option (string * nat * string * string) :=
  if skipped line then None
  else
    match re_search re_wire_assign line with
    | Some (_, caps) =>
        Some (strip (TraceSignal.group_text 2 caps), i,
              TraceSignal.group_text 1 caps, chisel_loc_of line)
    | None =>
        match re_search re_wire_decl line with
        | Some (_, caps) =>
            Some ("(module interconnect)", i,
                  TraceSignal.group_text 1 caps, chisel_loc_of line)
        | None =>
            match re_search re_assign line with
            | Some (_, caps) =>
                let sig_name := TraceSignal.group_text 1 caps in
                let expression := strip (TraceSignal.group_text 2 caps) in
                Some ("assign " +++ sig_name +++ " =" +++ TraceSignal.nl
                      +++ String.substring 0 20 expression +++ "...",
                      i, sig_name, chisel_loc_of line)
            | None => None
            end
        end
    end.

(** The extraction loop, from line number [i] on. *)
Fixpoint signals_from (i : nat) (lines : list string)
  : list (string * nat * string * string) :=
  match lines with
  | [] => []
  | line :: rest =>
      match signal_of_line i line with
      | Some sig => sig :: signals_from (i + 1) rest
      | None => signals_from (i + 1) rest
      end
  end.

(** [extract_all_signals_from_optimized]; [file] as above. *)
Definition extract_all_signals_from_optimized (file : option (list string))
  : list (string * nat * string * string) :=
  match file with
  | None => []
  | Some lines => signals_from 1 lines
  end.

(** *** [print_table_row] *)

(** [a == b] on two lists of strings. *)
Definition lines_eqb (a b : list string) : bool :=
  if list_eq_dec string_dec a b then true else false.

(** [cell_lines.index(lines)]: the first position that holds a list
    equal to [lines]; [None] for the [ValueError]. *)
Fixpoint index_of (lines : list string) (cell_lines : list (list string))
  : option nat :=
  match cell_lines with
  | [] => None
  | other :: rest =>
      if lines_eqb other lines then Some 0
      else match index_of lines rest with
           | Some k => Some (S k)
           | None => None
           end
  end.

(** The list with position [j] replaced: what the in-place [append] on
    [cell_lines[j]] leaves in [cell_lines]. *)
Fixpoint update {A : Type} (j : nat) (x : A) (l : list A) : list A :=
  match l, j with
  | [], _ => []
  | _ :: l', O => x :: l'
  | y :: l', S j' => y :: update j' x l'
  end.

(** One round of the [while] loop on the cell at position [j]:
    [lines.append(' ' * widths[cell_lines.index(lines)])]. *)
Definition pad_once (widths : list nat) (j : nat)
  (cell_lines : list (list string)) : option (list (list string)) :=
  match nth_error cell_lines j with
  | None => None
  | Some lines =>
      match index_of lines cell_lines with
      | None => None
      | Some k =>
          match nth_error widths k with
          | None => None
          | Some w => Some (update j (lines ++ [spaces w]) cell_lines)
          end
      end
  end.

(** The [while] loop, which runs once for each missing line. *)
Fixpoint pad_cell (widths : list nat) (j rounds : nat)
  (cell_lines : list (list string)) : option (list (list string)) :=
  match rounds with
  | O => Some cell_lines
  | S rounds' =>
      match pad_once widths j cell_lines with
      | Some cell_lines' => pad_cell widths j rounds' cell_lines'
      | None => None
      end
  end.

(** The [for lines in cell_lines] loop. *)
Definition pad_cells (widths : list nat) (max_lines : nat)
  (cell_lines : list (list string)) : option (list (list string)) :=
  fold_left
    (fun state j =>
       match state with
       | None => None
       | Some current =>
           match nth_error current j with
           | Some lines =>
               pad_cell widths j (max_lines - List.length lines) current
           | None => None
           end
       end)
    (List.seq 0 (List.length cell_lines)) (Some cell_lines).

(** [max(len(lines) for lines in cell_lines)]; [None] for the
    [ValueError] on no cell. *)
Definition max_lines_of (cell_lines : list (list string)) : option nat :=
  match cell_lines with
  | [] => None
  | _ => Some (list_max (map (@List.length string) cell_lines))
  end.

Fixpoint all_some {A : Type} (l : list (option A)) : option (list A) :=
  match l with
  | [] => Some []
  | None :: _ => None
  | Some x :: l' =>
      match all_some l' with
      | Some xs => Some (x :: xs)
      | None => None
      end
  end.

(** The list [row] of the line [i], as far as the printed line needs it:
    [None] when [cell_lines[j][i]] or [row[3]] is out of range. *)
Definition row_at (cells : nat) (cell_lines : list (list string)) (i : nat)
  : option (list string) :=
  match
    all_some
      (map (fun j =>
              match nth_error cell_lines j with
              | Some lines => nth_error lines i
              | None => None
              end)
         (List.seq 0 cells))
  with
  | Some row => if List.length row <? 4 then None else Some row
  | None => None
  end.

(** [print_table_row]: the list [row] of each printed line, which is
    the line but for the column separators; [None] when it raises. *)
Definition print_table_row (cells : list string) (widths : list nat)
  : option (list (list string)) :=
  let cell_lines :=
    map (fun cw => format_cell (fst cw) (snd cw)) (combine cells widths) in
  match max_lines_of cell_lines with
  | None => None
  | Some max_lines =>
      match pad_cells widths max_lines cell_lines with
      | None => None
      | Some padded =>
          all_some
            (map (row_at (List.length cells) padded) (List.seq 0 max_lines))
      end
  end.

End TraceFifoSignals.

(** * Properties *)

(** ** Strings and loops *)

Section StringFacts.

Import PyStr.

Lemma append_nil_r (s : string) : s +++ EmptyString = s.
Proof. induction s as [|a s IH]; simpl; [reflexivity | now rewrite IH]. Qed.

Lemma append_assoc (a b c : string) : (a +++ b) +++ c = a +++ b +++ c.
Proof. induction a as [|x a IH]; simpl; [reflexivity | now rewrite IH]. Qed.

Lemma length_append (a b : string) :
  String.length (a +++ b) = String.length a + String.length b.
Proof. induction a as [|x a IH]; simpl; [reflexivity | now rewrite IH]. Qed.

Lemma prefix_iff (p s : string) :
  String.prefix p s = true <-> exists b, s = p +++ b.
Proof.
  revert s; induction p as [|x p IH]; intros s.
  - split; [intros _; exists s; reflexivity | intros _; now destruct s].
  - destruct s as [|y s]; simpl.
    + split; [discriminate | intros [b Hb]; discriminate].
    + destruct (ascii_dec x y) as [->|Hxy].
      * rewrite IH. split; intros [b Hb]; exists b; congruence.
      * split; [discriminate | intros [b Hb]; congruence].
Qed.

Lemma contains_unfold (p s : string) :
  contains p s =
  if String.prefix p s then true
  else match s with
       | EmptyString => false
       | String _ s' => contains p s'
       end.
Proof. destruct s; reflexivity. Qed.

Lemma contains_iff (p s : string) :
  contains p s = true <-> exists a b, s = a +++ p +++ b.
Proof.
  induction s as [|y s IH]; rewrite contains_unfold.
  - destruct (String.prefix p EmptyString) eqn:E.
    + split; [intros _ | reflexivity].
      apply prefix_iff in E. destruct E as [b Hb].
      exists EmptyString, b. exact Hb.
    + split; [discriminate | intros (a & b & H)].
      destruct a; [|discriminate]. simpl in H.
      assert (String.prefix p EmptyString = true)
        by (apply prefix_iff; eauto).
      congruence.
  - destruct (String.prefix p (String y s)) eqn:E.
    + split; [intros _ | reflexivity].
      apply prefix_iff in E. destruct E as [b Hb].
      exists EmptyString, b. exact Hb.
    + rewrite IH. split.
      * intros (a & b & ->). exists (String y a), b. reflexivity.
      * intros (a & b & H). destruct a as [|x a].
        -- simpl in H.
           assert (String.prefix p (String y s) = true)
             by (apply prefix_iff; eauto).
           congruence.
        -- simpl in H. injection H as _ H. eauto.
Qed.

(** A loop that appends the elements passing a test is a [filter]. *)
Lemma fold_left_select {A} (f : A -> bool) (l acc : list A) :
  fold_left (fun m w => if f w then m ++ [w] else m) l acc
  = acc ++ filter f l.
Proof.
  revert acc; induction l as [|x l IH]; intros acc; simpl.
  - now rewrite app_nil_r.
  - rewrite IH. destruct (f x); [|reflexivity].
    now rewrite <- app_assoc.
Qed.

Lemma filter_subsequence {A} (f : A -> bool) (l : list A) :
  TraceSignal.subsequence (filter f l) l.
Proof.
  induction l as [|x l IH]; simpl; [constructor|].
  destruct (f x); now constructor.
Qed.

Lemma filter_idempotent {A} (f : A -> bool) (l : list A) :
  filter f (filter f l) = filter f l.
Proof.
  induction l as [|x l IH]; simpl; [reflexivity|].
  destruct (f x) eqn:E; simpl; [rewrite E|]; now rewrite ?IH.
Qed.

Lemma filter_split_first {A} (f : A -> bool) (l : list A) x rest :
  filter f l = x :: rest ->
  exists before after,
    l = before ++ x :: after /\ f x = true /\
    Forall (fun y => f y = false) before /\ rest = filter f after.
Proof.
  induction l as [|y l IH]; simpl; [discriminate|].
  destruct (f y) eqn:E; intros H.
  - injection H as -> <-. exists [], l. auto.
  - destruct (IH H) as (b & a & -> & Hx & Hb & Hr).
    exists (y :: b), a. auto.
Qed.

End StringFacts.

Arguments PyStr.contains : simpl never.
Arguments String.prefix : simpl never.

(** ** Target resolution *)

Section TargetResolution.

Import PyStr TraceSignal.

Lemma find_gate_target_filter gate_wires gate_abs line start_col end_col :
  find_gate_target gate_wires gate_abs line start_col end_col
  = filter (src_matches (target_src gate_abs line start_col end_col))
      gate_wires.
Proof. unfold find_gate_target. now rewrite fold_left_select. Qed.

Lemma src_matches_iff key w :
  key <> EmptyString ->
  src_matches key w = true <->
  exists s a b, src w = Some s /\ s = a +++ key +++ b.
Proof.
  intros Hkey. unfold src_matches. split.
  - intros H. apply andb_prop in H as [Ht Hc].
    destruct (src w) as [[|c s]|]; try discriminate.
    simpl in Hc. apply contains_iff in Hc as (a & b & Hs).
    exists (String c s), a, b. auto.
  - intros (s & a & b & Hs & Heq). rewrite Hs.
    destruct s as [|c s].
    + destruct a; [|discriminate]. simpl in Heq.
      destruct key; [congruence | discriminate].
    + simpl. apply contains_iff. eauto.
Qed.

Lemma target_src_nonempty gate_abs line start_col end_col :
  target_src gate_abs line start_col end_col <> EmptyString.
Proof.
  unfold target_src. intros H.
  apply (f_equal String.length) in H.
  rewrite length_append in H. simpl in H. lia.
Qed.

(** C2.  For a requested location (line, startCol, endCol) the resolver
    builds the key "<gate_abs>:<line>.<startCol>-<line>.<endCol>"; its
    result is the gate table filtered, in table order, to the wires
    whose provenance contains the key as a substring; and when there is
    a match, the target [main] selects is the first wire of the table
    that matches: no wire before it in the table matches. *)
Theorem target_resolution_first_match
  (loc : string) (gate_wires : list wire) (gate_abs : string)
  (line start_col end_col : nat) :
  let key :=
    gate_abs +++ ":" +++ str_of_int line +++ "." +++ str_of_int start_col
    +++ "-" +++ str_of_int line +++ "." +++ str_of_int end_col in
  let found (w : wire) :=
    exists s a b, src w = Some s /\ s = a +++ key +++ b in
  let matches :=
    find_gate_target gate_wires gate_abs line start_col end_col in
  subsequence matches gate_wires /\
  (forall w, In w matches <-> In w gate_wires /\ found w) /\
  (matches = [] ->
   snd (main_step3 loc gate_wires gate_abs line start_col end_col)
   = SysExit 1) /\
  (matches <> [] ->
   exists before target after,
     gate_wires = before ++ target :: after /\
     found target /\
     (forall w, In w before -> ~ found w) /\
     snd (main_step3 loc gate_wires gate_abs line start_col end_col)
     = Continue target).
Proof.
  intros key found matches.
  assert (Hkey : key <> EmptyString)
    by apply (target_src_nonempty gate_abs line start_col end_col).
  assert (Hm : matches = filter (src_matches key) gate_wires)
    by apply find_gate_target_filter.
  split; [rewrite Hm; apply filter_subsequence|].
  split.
  { intros w. rewrite Hm, filter_In.
    unfold found. now rewrite (src_matches_iff key w Hkey). }
  split.
  { intros Hnil. unfold main_step3. fold matches. now rewrite Hnil. }
  intros Hne. destruct matches as [|t rest] eqn:E; [congruence|].
  symmetry in Hm. apply filter_split_first in Hm
    as (before & after & Hl & Ht & Hb & _).
  exists before, t, after. split; [exact Hl|].
  split; [now apply (src_matches_iff key t Hkey)|].
  split.
  - intros w Hw Hf. rewrite Forall_forall in Hb.
    apply (src_matches_iff key w Hkey) in Hf.
    specialize (Hb w Hw). congruence.
  - unfold main_step3. fold matches. now rewrite E.
Qed.

Lemma catalogue_entries gate_wires :
  flat_map catalogue_entry gate_wires
  = map catalogue_line (filter (fun w => truthy (src w)) gate_wires).
Proof.
  induction gate_wires as [|w l IH]; simpl; [reflexivity|].
  rewrite IH. unfold catalogue_entry, catalogue_line, catalogue_name.
  destruct (truthy (src w)); simpl; [|reflexivity].
  destruct (truthy (hdlname w)); reflexivity.
Qed.

(** C3, as the code has it.  When no gate wire matches the key, step 3
    of [main] prints the error, then one catalogue line (name, width,
    shortened provenance) for every gate wire that has a provenance, in
    table order, and exits with status 1.  Wires without provenance
    are not listed, so the catalogue can be empty. *)
Theorem no_match_diagnostic
  (loc : string) (gate_wires : list wire) (gate_abs : string)
  (line start_col end_col : nat) :
  find_gate_target gate_wires gate_abs line start_col end_col = [] ->
  main_step3 loc gate_wires gate_abs line start_col end_col
  = ( [ "[Step 3] Finding gate signal at " +++ loc +++ "...";
        nl +++ "  Error: No signal found at location " +++ loc;
        "  Available gate signals:" ]
      ++ map catalogue_line (filter (fun w => truthy (src w)) gate_wires),
      SysExit 1 ).
Proof.
  intros H. unfold main_step3. rewrite H.
  now rewrite catalogue_entries.
Qed.

End TargetResolution.

Section TargetResolutionExamples.

Import PyStr TraceSignal.

Lemma no_match_diagnostic_witness :
  let gate_wires :=
    [ mkWire "\gate.x" 8 (Some "/abs/gate.sv:20.1-20.5") (Some "x");
      mkWire "\y" 4 (Some "/abs/gate.sv:21.23-21.39") None;
      mkWire "\gate.z" 8 None (Some "z") ] in
  find_gate_target gate_wires "/abs/gate.sv" 22 23 39 = [] /\
  main_step3 "22.23-39" gate_wires "/abs/gate.sv" 22 23 39
  = ( [ "[Step 3] Finding gate signal at 22.23-39...";
        nl +++ "  Error: No signal found at location 22.23-39";
        "  Available gate signals:";
        "    x                         width=8  src=20.1-20.5";
        "    y                         width=4  src=21.23-21.39" ],
      SysExit 1 ).
Proof.
  intros gate_wires. split; [reflexivity|].
  rewrite (no_match_diagnostic "22.23-39" gate_wires "/abs/gate.sv"
             22 23 39 eq_refl).
  reflexivity.
Defined.

(** C3, as stated, fails: a gate wire the backend tagged with an origin
    but no provenance is in the gate table, no wire matches the
    requested location, and the diagnostic lists no signal at all. *)
Lemma diagnostic_catalogue_not_full :
  let dump :=
    "attribute \hdlname " +++ dq +++ "gate x" +++ dq +++ nl +++
    "wire width 8 \gate.x" +++ nl in
  let t := parse_dump dump "/abs/gate.sv" "/abs/gold.sv" in
  gate_wires t = [mkWire "\gate.x" 8 None (Some "x")] /\
  find_gate_target (gate_wires t) "/abs/gate.sv" 21 23 39 = [] /\
  main_step3 "21.23-39" (gate_wires t) "/abs/gate.sv" 21 23 39
  = ( [ "[Step 3] Finding gate signal at 21.23-39...";
        nl +++ "  Error: No signal found at location 21.23-39";
        "  Available gate signals:" ],
      SysExit 1 ).
Proof. repeat split. Qed.

End TargetResolutionExamples.

(** ** The Candidate Filter *)

Section CandidateFilter.

Import PyStr TraceSignal.

Lemma filter_step_excluded candidates w :
  filter_step candidates w
  = if excluded w then candidates else candidates ++ [w].
Proof.
  unfold filter_step, excluded, is_clock_or_reset, is_io_port,
    is_pass_internal, is_procmux, is_miter_infrastructure, is_next_state.
  destruct (truthy (hdlname w)
            && match hdlname w with
               | Some n => String.eqb n "clock" || String.eqb n "reset"
               | None => false
               end); [reflexivity|].
  destruct (truthy (hdlname w)
            && match hdlname w with
               | Some n => startswith "io_" n
               | None => false
               end); [reflexivity|].
  destruct (contains "clk2fflogic" (wire_name w)); [reflexivity|].
  destruct (startswith "\in_" (wire_name w));
    [now rewrite ?orb_true_r|].
  destruct (startswith "\trigger" (wire_name w));
    [now rewrite ?orb_true_r|].
  destruct (startswith "\gold_" (wire_name w));
    [now rewrite ?orb_true_r|].
  destruct (startswith "\gate_" (wire_name w));
    [now rewrite ?orb_true_r|].
  destruct (contains "$procmux$" (wire_name w));
    [now rewrite ?orb_true_r|].
  destruct (contains "rtlil.cc" (wire_name w)); [reflexivity|].
  destruct (contains "$0\" (wire_name w)); reflexivity.
Qed.

Lemma filter_loop gold_wires acc :
  fold_left filter_step gold_wires acc
  = acc ++ filter (fun w => negb (excluded w)) gold_wires.
Proof.
  revert acc. induction gold_wires as [|w l IH]; intros acc; simpl.
  - now rewrite app_nil_r.
  - rewrite IH, filter_step_excluded.
    destruct (excluded w); simpl; [reflexivity|].
    now rewrite <- app_assoc.
Qed.

Lemma filter_gold_candidates_filter gold_wires :
  filter_gold_candidates gold_wires
  = filter (fun w => negb (excluded w)) gold_wires.
Proof. unfold filter_gold_candidates. now rewrite filter_loop. Qed.

Lemma filter_filter {A} (f g : A -> bool) (l : list A) :
  filter f (filter g l) = filter (fun x => g x && f x) l.
Proof.
  induction l as [|x l IH]; simpl; [reflexivity|].
  destruct (g x); simpl; [destruct (f x)|]; now rewrite ?IH.
Qed.

Lemma candidate_filter_filter gold_wires target_width :
  candidate_filter gold_wires target_width
  = filter (fun w => negb (excluded w) && (width w =? target_width))
      gold_wires.
Proof.
  unfold candidate_filter, width_matched.
  now rewrite filter_gold_candidates_filter, filter_filter.
Qed.

(** C4.  The Candidate Filter returns exactly the wires of the gold
    table that are not clock or reset, not I/O-port-named (both read off
    the origin name, as the code does), not internals of the flattening
    and state-conversion passes, not multiplexer-lowering artifacts, not
    miter infrastructure and not next-state temporaries, and whose width
    equals the target's; in the order of the table; and this list is what
    step 4 of [main] hands on.  Being a function of the table and the
    width, it gives the same output for the same input. *)
Theorem candidate_filter_exact (gold_wires : list wire) (w : nat) :
  candidate_filter gold_wires w
  = filter
      (fun s =>
         negb (is_clock_or_reset s) && negb (is_io_port s)
         && negb (is_pass_internal s) && negb (is_procmux s)
         && negb (is_miter_infrastructure s) && negb (is_next_state s)
         && (width s =? w))
      gold_wires
  /\ subsequence (candidate_filter gold_wires w) gold_wires
  /\ (forall s,
        In s (candidate_filter gold_wires w) <->
        In s gold_wires /\ excluded s = false /\ width s = w)
  /\ snd (main_step4 gold_wires w)
     = match candidate_filter gold_wires w with
       | [] => SysExit 1
       | c :: cs => Continue (c :: cs)
       end.
Proof.
  assert (E : forall s,
    negb (is_clock_or_reset s) && negb (is_io_port s)
    && negb (is_pass_internal s) && negb (is_procmux s)
    && negb (is_miter_infrastructure s) && negb (is_next_state s)
    = negb (excluded s)).
  { intros s. unfold excluded. now rewrite !negb_orb. }
  split; [|split; [|split]].
  - rewrite candidate_filter_filter.
    apply filter_ext. intros s. now rewrite E.
  - rewrite candidate_filter_filter. apply filter_subsequence.
  - intros s. rewrite candidate_filter_filter, filter_In, andb_true_iff,
      negb_true_iff, Nat.eqb_eq. tauto.
  - unfold main_step4. now destruct (candidate_filter gold_wires w).
Qed.

(** C8.  Filtering an already filtered table changes nothing: this holds
    for the heuristic pass alone and for the whole Candidate Filter. *)
Theorem candidate_filter_idempotent (gold_wires : list wire) (w : nat) :
  filter_gold_candidates (filter_gold_candidates gold_wires)
  = filter_gold_candidates gold_wires
  /\ candidate_filter (candidate_filter gold_wires w) w
     = candidate_filter gold_wires w.
Proof.
  split.
  - rewrite !filter_gold_candidates_filter. apply filter_idempotent.
  - rewrite !candidate_filter_filter. apply filter_idempotent.
Qed.

End CandidateFilter.

(** ** The dispatcher and the Result Interpreter *)

Section Dispatcher.

Import PyStr TraceSignal.

Lemma concat_empty_cons (x : string) (xs : list string) :
  String.concat EmptyString (x :: xs) = x +++ String.concat EmptyString xs.
Proof.
  destruct xs as [|y ys]; simpl; [now rewrite append_nil_r | reflexivity].
Qed.

Lemma add_sat_commands_concat bounded target candidates script :
  add_sat_commands bounded target candidates script
  = script
    +++ String.concat EmptyString (map (sat_command bounded target) candidates).
Proof.
  unfold add_sat_commands. revert script.
  induction candidates as [|c l IH]; intros script.
  - simpl. now rewrite append_nil_r.
  - cbn [fold_left map]. rewrite IH, concat_empty_cons.
    now rewrite append_assoc.
Qed.

Lemma skipn_nth_error {A} (l : list A) i c :
  nth_error l i = Some c -> skipn i l = c :: skipn (S i) l.
Proof.
  revert i; induction l as [|x l IH]; intros [|i] H; try discriminate.
  - now injection H as ->.
  - simpl in H. apply IH in H. exact H.
Qed.

Lemma interpret_loop candidates lines results idx :
  fst (fold_left (interpret_line candidates) lines (results, idx))
  = results ++ combine (skipn idx candidates) (line_markers lines).
Proof.
  revert results idx.
  induction lines as [|line lines IH]; intros results idx.
  - simpl. destruct (skipn idx candidates); simpl; now rewrite app_nil_r.
  - cbn [fold_left line_markers flat_map].
    fold (line_markers lines).
    unfold interpret_line at 2. unfold marker.
    destruct (contains "SUCCESS!" line);
      [|destruct (contains "FAIL!" line)];
      try (rewrite IH; reflexivity).
    all: destruct (idx <? List.length candidates) eqn:Hlt.
    all: try (apply Nat.ltb_lt in Hlt;
              destruct (nth_error candidates idx) as [c|] eqn:Hc;
              [ rewrite IH, (skipn_nth_error _ _ _ Hc),
                  Nat.add_1_r, <- app_assoc; reflexivity
              | apply nth_error_None in Hc; lia ]).
    all: apply Nat.ltb_ge in Hlt;
         rewrite IH, (skipn_all2 candidates Hlt); reflexivity.
Qed.

Lemma map_fst_combine {A B} (l : list A) (m : list B) :
  map fst (combine l m) = firstn (List.length m) l.
Proof.
  revert m; induction l as [|x l IH]; intros [|y m]; simpl;
    try reflexivity.
  now rewrite IH.
Qed.

Lemma interpret_output_combine candidates output :
  interpret_output candidates output
  = combine candidates (markers output).
Proof.
  unfold interpret_output, markers. now rewrite interpret_loop.
Qed.

(** C1, as the code has it.  With N candidates and M marker lines in the
    backend output, the Result Interpreter returns min(N, M) results:
    the i-th result pairs the i-th candidate with the i-th marker, so
    the candidates of the results are the first M candidates in
    submission order.  Markers beyond the N-th are ignored and
    candidates beyond the M-th get no result; [run_proofs] returns this
    list whenever the backend completes and raises only what the
    backend call raises. *)
Theorem result_interpreter_positional_zip
  (yosys : Subprocess.backend) (gold_abs gate_abs : string)
  (gold_lines gate_lines : list string)
  (module_name gate_target_wire : string) (candidates : list wire)
  (bounded : bool) (h : Subprocess.log) (output : string) :
  interpret_output candidates output = combine candidates (markers output)
  /\ List.length (interpret_output candidates output)
     = Nat.min (List.length candidates) (List.length (markers output))
  /\ map fst (interpret_output candidates output)
     = firstn (List.length (markers output)) candidates
  /\ fst (run_proofs yosys gold_abs gate_abs gold_lines gate_lines
            module_name gate_target_wire candidates bounded h)
     = match
         yosys h
           {| Subprocess.script :=
                add_sat_commands bounded gate_target_wire candidates
                  (generate_miter_script gold_abs gate_abs gold_lines
                     gate_lines module_name);
              Subprocess.timeout := 600 |}
       with
       | inl e => inl e
       | inr result =>
           inr (combine candidates
                  (markers (Subprocess.stdout result
                            +++ Subprocess.stderr result)))
       end.
Proof.
  split; [apply interpret_output_combine|]. split; [|split].
  - rewrite interpret_output_combine. apply length_combine.
  - rewrite interpret_output_combine. apply map_fst_combine.
  - unfold run_proofs, Subprocess.bind, Subprocess.run, Subprocess.ret.
    destruct (yosys h _) as [e|result]; [reflexivity|].
    cbn [fst]. now rewrite interpret_output_combine.
Qed.

(** C1, as stated, fails: with two candidates, a backend stream with
    one marker yields one result and a stream with three markers yields
    two, and neither run raises. *)
Lemma marker_mismatch_not_raised :
  let a := mkWire "\a" 8 None (Some "a") in
  let b := mkWire "\b" 8 None (Some "b") in
  let answer (text : string) : Subprocess.backend :=
    fun _ _ => inr {| Subprocess.stdout := text;
                      Subprocess.stderr := EmptyString |} in
  let one := "SUCCESS!" +++ nl in
  let three := "FAIL!" +++ nl +++ "FAIL!" +++ nl +++ "SUCCESS!" +++ nl in
  markers one = [true] /\
  fst (run_proofs (answer one) "/gold.sv" "/gate.sv" [] [] "M" "\t"
         [a; b] false [])
  = inr [(a, true)] /\
  markers three = [false; false; true] /\
  fst (run_proofs (answer three) "/gold.sv" "/gate.sv" [] [] "M" "\t"
         [a; b] false [])
  = inr [(a, false); (b, false)].
Proof. repeat split. Qed.

End Dispatcher.

(** ** Cross-discovery mode *)

Section Discovery.

Import PyStr FindCorrespondences.

Variable yosys : Subprocess.backend.
Variables gold_file gate_file : string.
Variables gold_lines gate_lines : list string.
Variable module_name : string.

Let check := test_equivalence yosys gold_file gate_file gold_lines
               gate_lines module_name.
Let loop := test_pairs yosys gold_file gate_file gold_lines gate_lines
              module_name.
Let step := test_pair yosys gold_file gate_file gold_lines gate_lines
              module_name.
Let pair_call := pair_call gold_file gate_file gold_lines gate_lines
                   module_name.
Let proven := pair_proven yosys gold_file gate_file gold_lines gate_lines
                module_name.
Let log_after := pair_log gold_file gate_file gold_lines gate_lines
                   module_name.
Let all_recorded := recorded yosys gold_file gate_file gold_lines gate_lines
                      module_name.

(** C10.  For a pair whose gold and gate names are equal, the per-pair
    check returns proven whatever the files, the module and the backend
    are, and the log of backend invocations is left as it was: the
    backend is not called. *)
Theorem same_name_proven_without_backend
  (sig : string) (use_induct : bool) (h : Subprocess.log) :
  check sig sig use_induct h = (inr true, h).
Proof.
  unfold check, test_equivalence. now rewrite String.eqb_refl.
Qed.

Lemma test_pair_tested use_induct total st pair :
  tested (fst (step use_induct total st pair)) = tested (fst st) + 1.
Proof.
  destruct st as [p h], pair as [[g t] w]. unfold step, test_pair.
  destruct (test_equivalence _ _ _ _ _ _ _ _ _ h) as [[[]|[]] h'];
    reflexivity.
Qed.

Lemma test_pairs_tested use_induct total pairs st :
  tested (fst (loop use_induct total pairs st))
  = tested (fst st) + List.length pairs.
Proof.
  unfold loop, test_pairs. revert st.
  induction pairs as [|pair pairs IH]; intros st; simpl; [lia|].
  rewrite IH. fold (step use_induct total st pair).
  rewrite test_pair_tested. lia.
Qed.

Lemma test_pair_keeps use_induct total st pair :
  exists more,
    correspondences (fst (step use_induct total st pair))
    = correspondences (fst st) ++ more.
Proof.
  destruct st as [p h], pair as [[g t] w]. unfold step, test_pair.
  destruct (test_equivalence _ _ _ _ _ _ _ _ _ h) as [[[]|[]] h']; simpl;
    try (exists []; now rewrite app_nil_r).
  eexists; reflexivity.
Qed.

Lemma test_pairs_keeps use_induct total pairs st :
  exists more,
    correspondences (fst (loop use_induct total pairs st))
    = correspondences (fst st) ++ more.
Proof.
  unfold loop, test_pairs. revert st.
  induction pairs as [|pair pairs IH]; intros st; simpl.
  - exists []. now rewrite app_nil_r.
  - destruct (IH (step use_induct total st pair)) as [m2 H2].
    destruct (test_pair_keeps use_induct total st pair) as [m1 H1].
    exists (m1 ++ m2). unfold step in *.
    rewrite H2, H1. now rewrite app_assoc.
Qed.

Lemma verdict_error output :
  contains "Error in gold signal" output
  || contains "Error in gate signal" output = true ->
  verdict output = false.
Proof. intros H. unfold verdict. now rewrite H. Qed.

(** What [test_equivalence] returns for a pair of different names, by the
    outcome of its one backend call. *)
Lemma check_different_names gold_sig gate_sig use_induct h :
  gold_sig <> gate_sig ->
  check gold_sig gate_sig use_induct h
  = (match yosys h (pair_call gold_sig gate_sig use_induct) with
     | inl Subprocess.TimeoutExpired => inr false
     | inl e => inl e
     | inr result => inr (verdict (Subprocess.stdout result))
     end,
     h ++ [pair_call gold_sig gate_sig use_induct]).
Proof.
  intros Hne. unfold check, test_equivalence.
  apply String.eqb_neq in Hne. rewrite Hne.
  unfold Subprocess.run, pair_call, FindCorrespondences.pair_call.
  now destruct (yosys h _) as [[]|].
Qed.

(** One turn of the loop: the pair is recorded exactly when it counts as
    proven at its own turn, and the log grows by its call. *)
Lemma step_recorded use_induct total p h gold_sig gate_sig width :
  correspondences
    (fst (step use_induct total (p, h) (gold_sig, gate_sig, width)))
  = correspondences p
    ++ (if proven gold_sig gate_sig use_induct h
        then [(gold_sig, gate_sig, width)] else [])
  /\ snd (step use_induct total (p, h) (gold_sig, gate_sig, width))
     = log_after gold_sig gate_sig use_induct h.
Proof.
  unfold step, test_pair, test_equivalence, Subprocess.ret, Subprocess.run,
    proven, pair_proven, log_after, pair_log, pair_call,
    FindCorrespondences.pair_call.
  destruct (String.eqb gold_sig gate_sig); cbn [orb fst snd].
  - split; reflexivity.
  - destruct (yosys h _) as [[|msg]|result]; cbn [fst snd correspondences];
      rewrite ?app_nil_r; try (split; reflexivity).
    destruct (verdict _); cbn [fst snd correspondences];
      rewrite ?app_nil_r; split; reflexivity.
Qed.

(** The whole loop records the pairs that count as proven at their own
    turns, whatever happened to the pairs before them. *)
Lemma loop_recorded use_induct total pairs : forall p h,
  correspondences (fst (loop use_induct total pairs (p, h)))
  = correspondences p ++ all_recorded use_induct pairs h
  /\ snd (loop use_induct total pairs (p, h))
     = h ++ map (fun pair =>
                   pair_call (fst (fst pair)) (snd (fst pair)) use_induct)
              (filter cross_named pairs).
Proof.
  unfold loop, test_pairs.
  induction pairs as [|[[g t] w] pairs IH]; intros p h.
  - cbn [fold_left all_recorded recorded filter map fst snd].
    unfold all_recorded. cbn [recorded]. now rewrite !app_nil_r.
  - cbn [fold_left].
    destruct (step_recorded use_induct total p h g t w) as [Hc Hl].
    unfold step in Hc, Hl. revert Hc Hl.
    destruct (test_pair yosys gold_file gate_file gold_lines gate_lines
                module_name use_induct total (p, h) (g, t, w)) as [p' h'].
    cbn [fst snd]. intros Hc ->.
    destruct (IH p' (log_after g t use_induct h)) as [IH1 IH2].
    rewrite IH1, IH2, Hc. unfold all_recorded. cbn [recorded].
    fold (proven g t use_induct h). fold (log_after g t use_induct h).
    rewrite <- app_assoc. split; [reflexivity|].
    cbn [filter]. unfold cross_named at 2. cbn [fst snd].
    unfold log_after, pair_log.
    destruct (String.eqb g t); cbn [negb map fst snd];
      [reflexivity | now rewrite <- app_assoc].
Qed.

(** C9, as the code has it.  In the testing loop, take a pair of
    different names whose backend invocation gives no proof: it times
    out, raises another error, or completes with an output that the
    check rejects.  On a timeout or a rejected output the per-pair check
    returns false; an error other than a timeout leaves the check as an
    exception, which the loop catches.  In every case the pair is not
    recorded and the loop goes on: every remaining pair is tested, the
    backend is called for every remaining pair of two different names,
    and a remaining pair is recorded exactly when it counts as proven at
    its own turn.  The remaining pairs fare the same from any other
    progress at that log, so the failure changes nothing for them. *)
Theorem failed_pair_does_not_abort_siblings
  (use_induct : bool) (total : nat)
  (gold_sig gate_sig : string) (width : nat)
  (rest : list (string * string * nat))
  (p : progress) (h : Subprocess.log) :
  gold_sig <> gate_sig ->
  rejected (yosys h (pair_call gold_sig gate_sig use_induct)) = true ->
  let h' := h ++ [pair_call gold_sig gate_sig use_induct] in
  let final := loop use_induct total
                 ((gold_sig, gate_sig, width) :: rest) (p, h) in
  check gold_sig gate_sig use_induct h
  = (match yosys h (pair_call gold_sig gate_sig use_induct) with
     | inl (Subprocess.OtherError msg) => inl (Subprocess.OtherError msg)
     | _ => inr false
     end, h')
  /\ correspondences (fst final)
     = correspondences p ++ all_recorded use_induct rest h'
  /\ tested (fst final) = tested p + 1 + List.length rest
  /\ snd final
     = h' ++ map (fun pair =>
                    pair_call (fst (fst pair)) (snd (fst pair)) use_induct)
               (filter cross_named rest)
  /\ forall p0,
       correspondences (fst (loop use_induct total rest (p0, h')))
       = correspondences p0 ++ all_recorded use_induct rest h'.
Proof.
  intros Hne Hrej h' final.
  pose proof (check_different_names gold_sig gate_sig use_induct h Hne)
    as Hcheck.
  fold h' in Hcheck.
  assert (Hno : proven gold_sig gate_sig use_induct h = false).
  { unfold proven, pair_proven. fold (pair_call gold_sig gate_sig use_induct).
    apply String.eqb_neq in Hne. rewrite Hne. cbn [orb].
    destruct (yosys h _) as [e|result]; [reflexivity|].
    cbn [rejected] in Hrej. now apply negb_true_iff in Hrej. }
  assert (Hlog : log_after gold_sig gate_sig use_induct h = h').
  { unfold log_after, pair_log. apply String.eqb_neq in Hne.
    now rewrite Hne. }
  split.
  { rewrite Hcheck. destruct (yosys h _) as [[|msg]|result];
      try reflexivity.
    cbn [rejected] in Hrej. apply negb_true_iff in Hrej. now rewrite Hrej. }
  destruct (loop_recorded use_induct total
              ((gold_sig, gate_sig, width) :: rest) p h) as [Hc Hl].
  fold final in Hc, Hl.
  unfold all_recorded in Hc. cbn [recorded] in Hc.
  fold (proven gold_sig gate_sig use_induct h) in Hc.
  fold (log_after gold_sig gate_sig use_induct h) in Hc.
  fold all_recorded in Hc.
  rewrite Hno, Hlog in Hc. cbn [Datatypes.app] in Hc.
  split; [exact Hc|]. split; [|split].
  - unfold final. rewrite test_pairs_tested. cbn [fst Datatypes.length]. lia.
  - rewrite Hl. cbn [filter]. unfold cross_named at 1. cbn [fst snd].
    apply String.eqb_neq in Hne. rewrite Hne. cbn [negb map fst snd].
    unfold h'. now rewrite <- app_assoc.
  - intros p0. apply loop_recorded.
Qed.

End Discovery.

(** ** The elaborated-design parser *)

Section Parser.

Import PyStr Re TraceSignal.

Lemma lit_prefix t s s' : lit t s = Some s' -> String.prefix t s = true.
Proof.
  revert s; induction t as [|a t IH]; intros s H.
  - now destruct s.
  - destruct s as [|b s]; [discriminate|]. simpl in H.
    destruct (Ascii.eqb_spec a b) as [->|]; [|discriminate].
    apply IH in H. apply prefix_iff in H as [r ->].
    apply prefix_iff. now exists r.
Qed.

(** A match of a pattern that begins with literal text begins with it. *)
Lemma re_match_literal_head t r s x :
  re_match (Cat (Lit t) r) s = Some x -> String.prefix t s = true.
Proof.
  unfold re_match. cbn [run]. destruct (lit t s) eqn:E; [|discriminate].
  intros _. now apply lit_prefix in E.
Qed.

Lemma attribute_not_wire s :
  String.prefix "attribute" s = true -> String.prefix "wire" s = false.
Proof. intros H. apply prefix_iff in H as [r ->]. reflexivity. Qed.



Lemma re_wire_not_attribute line :
  startswith "attribute" line = true -> re_match re_wire line = None.
Proof.
  intros H. destruct (re_match re_wire line) eqn:E; [|reflexivity].
  apply (re_match_literal_head "wire") in E.
  apply attribute_not_wire in H. congruence.
Qed.

Variables gate_abs gold_abs : string.

Let step := parse_line gate_abs gold_abs.





End Parser.

(** ** The regular-expression matcher *)

Section Matcher.

Import PyStr Re.

Lemma substring_prefix (a b : string) :
  String.substring 0 (String.length a) (a +++ b) = a.
Proof.
  induction a as [|c a IH]; simpl.
  - now destruct b.
  - now rewrite IH.
Qed.

Lemma consumed_append (a b : string) : consumed (a +++ b) b = a.
Proof.
  unfold consumed. rewrite length_append, Nat.add_sub.
  apply substring_prefix.
Qed.

Lemma consumed_cons c (a b : string) :
  consumed (String c (a +++ b)) b = String c a.
Proof. apply (consumed_append (String c a) b). Qed.

(** Greedy repetition stops at the end of the run and, when the rest of
    the pattern matches there, that is the match. *)
Lemma star_greedy p ds rest k r :
  all_chars p ds = true -> head_fails p rest = true ->
  k rest = Some r -> star p (ds +++ rest) k = Some r.
Proof.
  intros Hds Hrest Hk. induction ds as [|c ds IH].
  - destruct rest as [|c rest]; [exact Hk|].
    simpl in *. apply negb_true_iff in Hrest. now rewrite Hrest.
  - simpl in *. apply andb_prop in Hds as [Hc Hds].
    now rewrite Hc, (IH Hds).
Qed.


Lemma plus_greedy p c ds rest k r :
  all_chars p (String c ds) = true -> head_fails p rest = true ->
  k rest = Some r -> plus p (String c ds +++ rest) k = Some r.
Proof.
  intros Hds Hrest Hk. simpl in *.
  apply andb_prop in Hds as [Hc Hds]. rewrite Hc.
  now apply star_greedy.
Qed.


(** *** [findall] along a text *)




Lemma findall_end r :
  re_match r EmptyString = None -> findall_from r EmptyString 0 = [].
Proof. intros H. cbn [findall_from]. now rewrite H. Qed.


Lemma colon_head_end r : re_match (Cat (Lit ":") r) EmptyString = None.
Proof. reflexivity. Qed.

End Matcher.

(** ** Location-list parsing *)

Section LocationParsing.

Import PyStr Re TraceFifoSignals.

Lemma uint_digits d : all_chars isdigit (NilEmpty.string_of_uint d) = true.
Proof. induction d; simpl; [reflexivity|..]; exact IHd. Qed.

Lemma str_digits n : all_chars isdigit (str_of_int n) = true.
Proof. apply uint_digits. Qed.

Lemma to_uint_nonnil n : Nat.to_uint n <> Nil.
Proof.
  intros H. pose proof (Unsigned.to_of (Nat.to_uint n)) as E.
  rewrite Unsigned.of_to, H in E. discriminate E.
Qed.

Lemma str_nonempty n : exists c ds, str_of_int n = String c ds.
Proof.
  unfold str_of_int. pose proof (to_uint_nonnil n) as H.
  destruct (Nat.to_uint n); [congruence|..]; simpl; eauto.
Qed.

Lemma int_of_str n : int_of (str_of_int n) = n.
Proof.
  unfold int_of, str_of_int. rewrite NilEmpty.usu. apply Unsigned.of_to.
Qed.




Lemma one_fails p s caps k :
  head_fails p s = true -> run (One p) s caps k = None.
Proof.
  destruct s as [|c s]; [reflexivity|]. simpl.
  intros H. apply negb_true_iff in H. now rewrite H.
Qed.




Lemma all_chars_app p a b :
  all_chars p (a +++ b) = all_chars p a && all_chars p b.
Proof.
  induction a as [|c a IH]; simpl; [reflexivity|].
  now rewrite IH, andb_assoc.
Qed.

Lemma all_chars_weaken (p q : ascii -> bool) s :
  (forall c, p c = true -> q c = true) ->
  all_chars p s = true -> all_chars q s = true.
Proof.
  intros Hpq. induction s as [|c s IH]; simpl; [reflexivity|].
  intros H. apply andb_prop in H as [Hc Hs].
  now rewrite (Hpq c Hc), (IH Hs).
Qed.






(** *** Text without colons *)






(** *** The column list of a grouped location *)








(** *** Scanning an annotation *)






Lemma or_else_some s : or_else (Some s) EmptyString = s.
Proof. now destruct s. Qed.



End LocationParsing.

(** ** The re-rendering of a location list *)

Section Rendering.

Import PyStr TraceFifoSignals.

Lemma insert_by_perm {A} (key : A -> nat) x l :
  Permutation (insert_by key x l) (x :: l).
Proof.
  induction l as [|y l IH]; simpl; [reflexivity|].
  destruct (key x <? key y); [reflexivity|].
  rewrite IH. apply perm_swap.
Qed.

Lemma sorted_fold_perm {A} (key : A -> nat) l acc :
  Permutation (fold_left (fun a x => insert_by key x a) l acc) (acc ++ l).
Proof.
  revert acc. induction l as [|x l IH]; intros acc; simpl.
  - now rewrite app_nil_r.
  - rewrite IH, insert_by_perm. apply Permutation_middle.
Qed.

Lemma sorted_by_perm {A} (key : A -> nat) l :
  Permutation (sorted_by key l) l.
Proof. apply (sorted_fold_perm key l []). Qed.

Lemma group_pairs_in groups l c :
  In (l, c) (group_pairs groups) <->
  exists cols, In (l, cols) groups /\ In c cols.
Proof.
  unfold group_pairs. rewrite in_flat_map. split.
  - intros ([l' cols] & Hg & Hin). cbn [fst snd] in Hin.
    apply in_map_iff in Hin as (c' & E & Hc). injection E as -> ->. eauto.
  - intros (cols & Hg & Hc). exists (l, cols). split; [exact Hg|].
    cbn [fst snd]. now apply in_map.
Qed.


(** *** The dict [loc_by_line] *)

Lemma dict_append_pairs line col d x :
  In x (group_pairs (dict_append line col d)) <->
  x = (line, col) \/ In x (group_pairs d).
Proof.
  induction d as [|[l cols] d IH]; simpl.
  - intuition congruence.
  - destruct (Nat.eqb_spec l line) as [->|Hne]; simpl.
    + rewrite map_app, !in_app_iff. simpl. intuition congruence.
    + fold (group_pairs (dict_append line col d)).
      fold (group_pairs d). rewrite !in_app_iff, IH.
      tauto.
Qed.

Lemma dict_append_keys line col d l :
  In l (map fst (dict_append line col d)) <->
  l = line \/ In l (map fst d).
Proof.
  induction d as [|[l' cols] d IH]; simpl.
  - intuition congruence.
  - destruct (Nat.eqb_spec l' line) as [->|Hne]; simpl.
    + intuition congruence.
    + rewrite IH. intuition congruence.
Qed.

Lemma dict_append_nodup line col d :
  NoDup (map fst d) -> NoDup (map fst (dict_append line col d)).
Proof.
  induction d as [|[l' cols] d IH]; simpl; intros H.
  - constructor; [intros []|constructor].
  - inversion H as [|? ? Hnot Hd]; subst.
    destruct (Nat.eqb_spec l' line) as [->|Hne]; simpl.
    + now constructor.
    + constructor; [|now apply IH].
      rewrite dict_append_keys. intros [->|Hin]; [congruence|contradiction].
Qed.

Lemma dict_append_nonempty line col d :
  Forall (fun g => snd g <> []) d ->
  Forall (fun g => snd g <> []) (dict_append line col d).
Proof.
  induction d as [|[l' cols] d IH]; simpl; intros H.
  - constructor; [discriminate|constructor].
  - inversion H; subst.
    destruct (Nat.eqb_spec l' line) as [->|Hne]; constructor; auto.
    cbn [snd]. now destruct cols.
Qed.

Lemma loc_fold locs d :
  let d' := fold_left (fun d lc => dict_append (fst lc) (snd lc) d) locs d in
  (forall x, In x (group_pairs d') <-> In x (group_pairs d) \/ In x locs)
  /\ (forall l, In l (map fst d') <-> In l (map fst d) \/ In l (map fst locs))
  /\ (NoDup (map fst d) -> NoDup (map fst d'))
  /\ (Forall (fun g => snd g <> []) d -> Forall (fun g => snd g <> []) d').
Proof.
  revert d. induction locs as [|[l c] locs IH]; intros d; cbn zeta.
  - simpl. repeat split; tauto.
  - cbn [fold_left fst snd].
    destruct (IH (dict_append l c d)) as (H1 & H2 & H3 & H4).
    cbn zeta in *. repeat split.
    + rewrite H1, dict_append_pairs. simpl. intuition congruence.
    + rewrite H1, dict_append_pairs. simpl. intuition congruence.
    + rewrite H2, dict_append_keys. simpl. intuition congruence.
    + rewrite H2, dict_append_keys. simpl. intuition congruence.
    + intros H. now apply H3, dict_append_nodup.
    + intros H. now apply H4, dict_append_nonempty.
Qed.



Lemma loc_by_line_nonempty locs :
  Forall (fun g => snd g <> []) (loc_by_line locs).
Proof.
  destruct (loc_fold locs []) as (_ & _ & _ & H). now apply H.
Qed.






End Rendering.

(** ** Location lists: parsing and re-rendering together *)

Section RoundTrip.

Import PyStr TraceFifoSignals.



End RoundTrip.

(** ** Concrete runs *)

Section Runs.

Import PyStr TraceSignal.


(** A dump as yosys prints it: attributes before each wire, other lines
    in between. *)
Example parse_dump_run :
  parse_dump
    ("attribute \src " +++ dq +++ "/abs/gate.sv:21.23-21.39" +++ dq +++ nl +++
     "  attribute \hdlname " +++ dq +++ "gate mulRes" +++ dq +++ nl +++
     "  wire width 8 \gate.mulRes" +++ nl +++
     "attribute \hdlname " +++ dq +++ "gate x" +++ dq +++ nl +++
     "cell $mul $1" +++ nl +++
     "wire input 3 \y" +++ nl +++
     "attribute \src " +++ dq +++ "/abs/gold.sv:1.2-3.4" +++ dq +++ nl +++
     "attribute \init 0" +++ nl +++
     "wire width 16 output 2 \gold.z" +++ nl)
    "/abs/gate.sv" "/abs/gold.sv"
  = {| gate_wires :=
         [mkWire "\gate.mulRes" 8 (Some "/abs/gate.sv:21.23-21.39")
            (Some "mulRes")];
       gold_wires :=
         [mkWire "\gold.z" 16 (Some "/abs/gold.sv:1.2-3.4") None] |}.
Proof. reflexivity. Qed.

(** Two wires carry the requested span: the first of the table is taken. *)
Example first_match_run :
  main_step3 "21.23-39"
    [ mkWire "\gate.x" 8 (Some "/abs/gate.sv:20.1-20.5") (Some "x");
      mkWire "\y" 8 (Some "/abs/gate.sv:21.23-21.39") None;
      mkWire "\z" 8 (Some "/abs/gate.sv:21.23-21.39") (Some "z") ]
    "/abs/gate.sv" 21 23 39
  = ( [ "[Step 3] Finding gate signal at 21.23-39...";
        "  Found: \y";
        "  Width: 8" ],
      Continue (mkWire "\y" 8 (Some "/abs/gate.sv:21.23-21.39") None) ).
Proof. reflexivity. Qed.

End Runs.

Section DiscoveryRuns.

Import PyStr FindCorrespondences.

Lemma failed_pair_witness :
  let proof := {| Subprocess.stdout :=
                    "1 objects" +++ TraceSignal.nl +++ "2 objects"
                    +++ TraceSignal.nl +++ "Of those cells 1 are proven"
                    +++ TraceSignal.nl;
                  Subprocess.stderr := EmptyString |} in
  let yosys : Subprocess.backend :=
    fun h _ => match h with
               | [] => inl Subprocess.TimeoutExpired
               | _ => inr proof
               end in
  let call := pair_call "gold.sv" "gate.sv" [] [] "M" "a" "b" true in
  let run := test_pairs yosys "gold.sv" "gate.sv" [] [] "M" true 2 in
  "a" <> "b" /\
  rejected (yosys [] call) = true /\
  test_equivalence yosys "gold.sv" "gate.sv" [] [] "M" "a" "b" true []
  = (inr false, [call]) /\
  correspondences (fst (run [("a", "b", 8); ("c", "d", 8)] (start, [])))
  = [("c", "d", 8)] /\
  tested (fst (run [("a", "b", 8); ("c", "d", 8)] (start, []))) = 2.
Proof.
  intros proof yosys call run.
  assert (Hne : "a" <> "b") by discriminate.
  assert (Hrej : rejected (yosys [] call) = true) by reflexivity.
  destruct (failed_pair_does_not_abort_siblings
              yosys "gold.sv" "gate.sv" [] [] "M" true 2 "a" "b" 8
              [("c", "d", 8)] start [] Hne Hrej) as (H1 & H2 & H3 & _).
  split; [exact Hne|]. split; [exact Hrej|].
  split; [exact H1|]. split; [|exact H3].
  etransitivity; [exact H2 | reflexivity].
Defined.

(** C9, as stated, fails for an error other than a timeout: the
    per-pair check does not return false, it raises, and it is the loop
    that catches the error and leaves the pair out. *)
Lemma other_error_escapes_check :
  let missing := Subprocess.OtherError "No such file or directory: yosys" in
  let yosys : Subprocess.backend := fun _ _ => inl missing in
  let call := pair_call "gold.sv" "gate.sv" [] [] "M" "a" "b" false in
  rejected (yosys [] call) = true /\
  test_equivalence yosys "gold.sv" "gate.sv" [] [] "M" "a" "b" false []
  = (inl missing, [call]) /\
  fst (test_equivalence yosys "gold.sv" "gate.sv" [] [] "M" "a" "b" false [])
  <> inr false /\
  correspondences
    (fst (test_pairs yosys "gold.sv" "gate.sv" [] [] "M" false 1
            [("a", "b", 8)] (start, [])))
  = [].
Proof. repeat split. discriminate. Qed.

End DiscoveryRuns.

Section LocationRuns.

Import PyStr TraceFifoSignals.



(** A simple location directly followed by a comma is outside the
    well-formed annotations: the look-ahead of the simple pattern gives
    the last digit of its column back, or drops the location when the
    column has one digit. *)
Example comma_after_simple_location :
  parse_chisel_locations "src/main/scala/Fifo.scala:46:20, :47:10"
  = Some [(46, 2); (47, 10)]
  /\ parse_chisel_locations "src/main/scala/Fifo.scala:46:2, :47:10"
     = Some [(47, 10)].
Proof. split; reflexivity. Qed.

(** An empty column field of a grouped location makes [int] raise. *)
Example empty_column_raises :
  parse_chisel_locations "Fifo.scala:25:{24,,57}" = None.
Proof. reflexivity. Qed.

End LocationRuns.

(** * Further properties of the sources *)

(** ** What a match tells about its input *)

Section MatcherInversion.

Import PyStr Re.

Lemma lit_inv t s s' : lit t s = Some s' -> s = t +++ s'.
Proof.
  revert s; induction t as [|a t IH]; intros s H.
  - simpl in H. now injection H as ->.
  - destruct s as [|b s]; [discriminate|]. simpl in H.
    destruct (Ascii.eqb_spec a b) as [->|]; [|discriminate].
    simpl. now rewrite (IH s H).
Qed.

Lemma star_inv p s k r :
  star p s k = Some r ->
  exists ds rest,
    s = ds +++ rest /\ all_chars p ds = true /\ k rest = Some r.
Proof.
  induction s as [|c s IH]; simpl; intros H.
  - exists EmptyString, EmptyString. auto.
  - destruct (p c) eqn:Hc.
    + destruct (star p s k) as [r'|] eqn:E.
      * injection H as ->. destruct (IH eq_refl) as (ds & rest & -> & Hds & Hk).
        exists (String c ds), rest. simpl. rewrite Hc. auto.
      * exists EmptyString, (String c s). auto.
    + exists EmptyString, (String c s). auto.
Qed.

Lemma plus_inv p s k r :
  plus p s k = Some r ->
  exists ds rest,
    s = ds +++ rest /\ ds <> EmptyString /\ all_chars p ds = true
    /\ k rest = Some r.
Proof.
  destruct s as [|c s]; simpl; [discriminate|].
  destruct (p c) eqn:Hc; [|discriminate]. intros H.
  apply star_inv in H as (ds & rest & -> & Hds & Hk).
  exists (String c ds), rest. simpl. rewrite Hc.
  repeat split; auto. discriminate.
Qed.

Lemma at_end_no_digit s : TraceSignal.at_end s = true -> head_fails isdigit s = true.
Proof.
  destruct s as [|c [|d s]]; try reflexivity; try discriminate.
  simpl. intros H. apply Ascii.eqb_eq in H. now subst.
Qed.

End MatcherInversion.

(** ** Locations on the command line *)

Section Locations.

Import PyStr Re TraceSignal.

Lemma re_loc_formatted line start_col end_col tail :
  at_end tail = true ->
  run re_loc
    (str_of_int line +++ "." +++ str_of_int start_col +++ "-"
     +++ str_of_int end_col +++ tail) [] accept_at_end
  = Some (tail, [(3, str_of_int end_col); (2, str_of_int start_col);
                 (1, str_of_int line)]).
Proof.
  intros Hend. unfold re_loc. cbn [seq run].
  destruct (str_nonempty line) as (d1 & s1 & E1).
  destruct (str_nonempty start_col) as (d2 & s2 & E2).
  destruct (str_nonempty end_col) as (d3 & s3 & E3).
  pose proof (str_digits line) as D1.
  pose proof (str_digits start_col) as D2.
  pose proof (str_digits end_col) as D3.
  rewrite E1 in *. rewrite E2 in *. rewrite E3 in *.
  apply plus_greedy; [exact D1 | reflexivity |].
  cbn [String.append lit]. rewrite Ascii.eqb_refl.
  apply plus_greedy; [exact D2 | reflexivity |].
  cbn [String.append lit]. rewrite Ascii.eqb_refl.
  apply plus_greedy; [exact D3 | now apply at_end_no_digit |].
  unfold accept_at_end. rewrite Hend.
  now rewrite !consumed_cons.
Qed.

Lemma parse_loc_formatted line start_col end_col tail :
  at_end tail = true ->
  parse_loc (str_of_int line +++ "." +++ str_of_int start_col +++ "-"
             +++ str_of_int end_col +++ tail)
  = Some (line, start_col, end_col).
Proof.
  intros Hend. unfold parse_loc. rewrite (re_loc_formatted _ _ _ _ Hend).
  unfold group_text. cbn [group find fst snd Nat.eqb].
  now rewrite !or_else_some, !int_of_str.
Qed.

(** X1.  [parse_loc] reads back the location [main] is given: the text
    "<line>.<start>-<end>" of three numbers parses to these numbers,
    also when a newline ends it. *)
Theorem parse_loc_round_trip (line start_col end_col : nat) :
  parse_loc (str_of_int line +++ "." +++ str_of_int start_col +++ "-"
             +++ str_of_int end_col)
  = Some (line, start_col, end_col)
  /\ parse_loc (str_of_int line +++ "." +++ str_of_int start_col +++ "-"
                +++ str_of_int end_col +++ nl)
     = Some (line, start_col, end_col).
Proof.
  split.
  - rewrite <- (append_nil_r (str_of_int end_col)).
    now apply parse_loc_formatted.
  - now apply parse_loc_formatted.
Qed.

(** X2.  Whatever [parse_loc] accepts has the shape
    digits "." digits "-" digits, followed by nothing or by one final
    newline, and the numbers returned are the values of the three digit
    runs. *)
Theorem parse_loc_shape (loc_str : string) (line start_col end_col : nat) :
  parse_loc loc_str = Some (line, start_col, end_col) ->
  exists dl ds de tail,
    loc_str = dl +++ "." +++ ds +++ "-" +++ de +++ tail
    /\ dl <> EmptyString /\ ds <> EmptyString /\ de <> EmptyString
    /\ all_chars isdigit dl = true /\ all_chars isdigit ds = true
    /\ all_chars isdigit de = true
    /\ (tail = EmptyString \/ tail = nl)
    /\ line = int_of dl /\ start_col = int_of ds /\ end_col = int_of de.
Proof.
  unfold parse_loc, re_loc. cbn [seq run].
  destruct (plus isdigit loc_str _) as [[rest caps]|] eqn:E; [|discriminate].
  intros H. injection H as H1 H2 H3.
  apply plus_inv in E as (dl & r1 & -> & Ndl & Ddl & E).
  destruct (lit "." r1) as [r1'|] eqn:L1; [|discriminate].
  apply lit_inv in L1 as ->.
  apply plus_inv in E as (ds & r2 & -> & Nds & Dds & E).
  destruct (lit "-" r2) as [r2'|] eqn:L2; [|discriminate].
  apply lit_inv in L2 as ->.
  apply plus_inv in E as (de & tail & -> & Nde & Dde & E).
  unfold accept_at_end in E.
  destruct (at_end tail) eqn:Hend; [|discriminate].
  injection E as <- <-.
  rewrite !consumed_append in H1, H2, H3.
  unfold group_text in H1, H2, H3.
  cbn [group find fst snd Nat.eqb] in H1, H2, H3.
  rewrite !or_else_some in H1, H2, H3.
  exists dl, ds, de, tail. repeat split; auto.
  destruct tail as [|c [|c' t]]; [now left | | discriminate].
  right. simpl in Hend. apply Ascii.eqb_eq in Hend. now subst.
Qed.

Lemma parse_loc_shape_witness :
  parse_loc "21.23-39" = Some (21, 23, 39) /\
  exists dl ds de tail,
    "21.23-39" = dl +++ "." +++ ds +++ "-" +++ de +++ tail
    /\ dl <> EmptyString /\ ds <> EmptyString /\ de <> EmptyString
    /\ all_chars isdigit dl = true /\ all_chars isdigit ds = true
    /\ all_chars isdigit de = true
    /\ (tail = EmptyString \/ tail = nl)
    /\ 21 = int_of dl /\ 23 = int_of ds /\ 39 = int_of de.
Proof.
  split; [reflexivity|].
  exact (parse_loc_shape "21.23-39" 21 23 39 eq_refl).
Defined.

End Locations.

(** ** Module introspection *)

Section Modules.

Import PyStr Re TraceSignal.

(** A match of the module pattern captures a non-empty word. *)
Lemma re_module_group line rest caps :
  re_match re_module line = Some (rest, caps) ->
  exists m, group 1 caps = Some m /\ m <> EmptyString
            /\ all_chars isword m = true.
Proof.
  unfold re_match, re_module. cbn [seq run]. intros H.
  apply star_inv in H as (ws & r1 & -> & _ & H).
  destruct (lit "module" r1) as [r2|] eqn:L; [|discriminate].
  apply plus_inv in H as (ws2 & r3 & -> & _ & _ & H).
  apply plus_inv in H as (m & r4 & -> & Nm & Dm & H).
  injection H as <- <-. rewrite consumed_append.
  exists m. cbn [group find fst snd Nat.eqb]. auto.
Qed.

Lemma declared_module_word line m :
  declared_module line = Some m ->
  m <> EmptyString /\ all_chars isword m = true
  /\ exists rest caps, re_match re_module line = Some (rest, caps)
                       /\ group 1 caps = Some m.
Proof.
  unfold declared_module.
  destruct (re_match re_module line) as [[rest caps]|] eqn:E; [|discriminate].
  destruct (re_module_group _ _ _ E) as (m' & G & Nm & Dm).
  unfold group_text. rewrite G, or_else_some. intros H. injection H as <-.
  eauto 6.
Qed.

Lemma other_modules_loop lines target acc :
  fold_left
    (fun modules line =>
       match re_match re_module line with
       | Some (_, caps) =>
           match group 1 caps with
           | Some m =>
               if negb (String.eqb m target) then modules ++ [m] else modules
           | None => modules
           end
       | None => modules
       end)
    lines acc
  = acc ++ filter (fun m => negb (String.eqb m target)) (declared_modules lines).
Proof.
  revert acc. induction lines as [|line lines IH]; intros acc.
  - simpl. now rewrite app_nil_r.
  - cbn [fold_left declared_modules flat_map]. rewrite IH.
    fold (declared_modules lines). rewrite filter_app.
    unfold declared_module.
    destruct (re_match re_module line) as [[rest caps]|] eqn:E;
      [|reflexivity].
    destruct (re_module_group _ _ _ E) as (m & G & Nm & Dm).
    unfold group_text. rewrite G, or_else_some. cbn [filter].
    destruct (negb (String.eqb m target)); [|reflexivity].
    now rewrite <- app_assoc.
Qed.

Lemma detect_first lines :
  detect_module_name lines = hd_error (declared_modules lines).
Proof.
  induction lines as [|line lines IH]; [reflexivity|].
  cbn [detect_module_name declared_modules flat_map].
  fold (declared_modules lines). unfold declared_module.
  destruct (re_match re_module line) as [[rest caps]|]; [reflexivity|].
  exact IH.
Qed.

(** X3.  The two introspection loops agree on what a file declares:
    [detect_module_name] returns the first declared module, and
    [get_other_modules] returns, in file order, every declared module
    except the target.  So the target is never among the modules to
    delete, a file without a module has nothing to delete, and every
    name returned is a non-empty word. *)
Theorem module_introspection (file_lines : list string) (target : string) :
  detect_module_name file_lines = hd_error (declared_modules file_lines)
  /\ get_other_modules file_lines target
     = filter (fun m => negb (String.eqb m target))
         (declared_modules file_lines)
  /\ ~ In target (get_other_modules file_lines target)
  /\ (detect_module_name file_lines = None ->
      get_other_modules file_lines target = [])
  /\ (forall m, In m (declared_modules file_lines) ->
                m <> EmptyString /\ all_chars isword m = true).
Proof.
  assert (E : get_other_modules file_lines target
              = filter (fun m => negb (String.eqb m target))
                  (declared_modules file_lines)).
  { unfold get_other_modules. now rewrite other_modules_loop. }
  split; [apply detect_first|]. split; [exact E|]. split; [|split].
  - rewrite E, filter_In. intros [_ H]. now rewrite String.eqb_refl in H.
  - rewrite detect_first, E.
    destruct (declared_modules file_lines); [reflexivity | discriminate].
  - intros m Hm. unfold declared_modules in Hm. apply in_flat_map in Hm
      as (line & _ & Hm).
    destruct (declared_module line) as [m'|] eqn:D; [|contradiction].
    destruct Hm as [<-|[]]. apply declared_module_word in D. tauto.
Qed.

End Modules.

(** ** The text at a location *)

Section ExpressionText.

Import PyStr TraceSignal.

Lemma rstrip_prefix s : exists b, s = rstrip s +++ b.
Proof.
  induction s as [|c s [b IH]]; [now exists EmptyString|].
  cbn [rstrip]. destruct (rstrip s) as [|c' r] eqn:E.
  - destruct (isspace c).
    + now exists (String c s).
    + exists s. reflexivity.
  - exists b. simpl in *. now rewrite <- IH.
Qed.

Lemma rstrip_length s : String.length (rstrip s) <= String.length s.
Proof.
  destruct (rstrip_prefix s) as [b E].
  rewrite E at 2. rewrite length_append. lia.
Qed.

Lemma rstrip_idempotent s : rstrip (rstrip s) = rstrip s.
Proof.
  induction s as [|c s IH]; [reflexivity|].
  cbn [rstrip]. destruct (rstrip s) as [|c' r] eqn:E.
  - destruct (isspace c) eqn:Hc; [reflexivity|].
    cbn [rstrip]. now rewrite Hc.
  - cbn [rstrip] in *. rewrite IH. reflexivity.
Qed.

Lemma substring_length n m s : String.length (String.substring n m s) <= m.
Proof.
  revert n m; induction s as [|c s IH]; intros [|n] [|m]; simpl;
    try lia.
  - specialize (IH 0 m). lia.
  - apply (IH n 0).
  - apply (IH n (S m)).
Qed.

Lemma substring_start m s : exists b, s = String.substring 0 m s +++ b.
Proof.
  revert m; induction s as [|c s IH]; intros [|m].
  - now exists EmptyString.
  - now exists EmptyString.
  - now exists (String c s).
  - destruct (IH m) as [b E]. exists b. simpl. now rewrite <- E.
Qed.

Lemma substring_factor n m s :
  exists a b, s = a +++ String.substring n m s +++ b.
Proof.
  revert n; induction s as [|c s IH]; intros n.
  - exists EmptyString, EmptyString. now destruct n, m.
  - destruct n as [|n].
    + destruct (substring_start m (String c s)) as [b E].
      now exists EmptyString, b.
    + destruct (IH n) as (a & b & E).
      exists (String c a), b. simpl. now rewrite <- E.
Qed.

(** X4.  [get_expression_text] returns nothing exactly when the line
    number is 0 or beyond the last line.  What it returns occurs in that
    line, has no trailing whitespace, and for a start column of at least
    1 is at most [end_col - start_col + 1] characters long. *)
Theorem expression_text_bounds
  (file_lines : list string) (line_num start_col end_col : nat) :
  (get_expression_text file_lines line_num start_col end_col = None
   <-> line_num = 0 \/ List.length file_lines < line_num)
  /\ forall text,
       get_expression_text file_lines line_num start_col end_col = Some text ->
       rstrip text = text
       /\ (1 <= start_col -> String.length text <= end_col + 1 - start_col)
       /\ exists line a b,
            nth_error file_lines (line_num - 1) = Some line
            /\ line = a +++ text +++ b.
Proof.
  unfold get_expression_text. split.
  - destruct line_num as [|k]; [intuition|].
    destruct (nth_error file_lines k) as [line|] eqn:E.
    + split; [discriminate|]. intros [H|H]; [discriminate|].
      assert (nth_error file_lines k <> None) by congruence.
      apply nth_error_Some in H0. lia.
    + apply nth_error_None in E. split; [intros _; right; lia | reflexivity].
  - intros text H. destruct line_num as [|k]; [discriminate|].
    destruct (nth_error file_lines k) as [line|] eqn:E; [|discriminate].
    injection H as <-. split; [apply rstrip_idempotent|]. split.
    + intros Hs. etransitivity; [apply rstrip_length|].
      unfold slice_columns. destruct start_col as [|c]; [lia|].
      etransitivity; [apply substring_length|]. lia.
    + destruct (substring_factor
                  (match start_col with
                   | 0 => String.length line - 1
                   | S c => Nat.min c (String.length line)
                   end)
                  (Nat.min end_col (String.length line)
                   - match start_col with
                     | 0 => String.length line - 1
                     | S c => Nat.min c (String.length line)
                     end) line) as (a & b & Hf).
      destruct (rstrip_prefix (slice_columns start_col end_col line))
        as [b' Hb].
      exists line, a, (b' +++ b). split.
      * replace (S k - 1) with k by lia. exact E.
      * unfold slice_columns in *. rewrite Hf at 1. rewrite Hb at 1.
        now rewrite !append_assoc.
Qed.

End ExpressionText.

(** ** Source annotations in a line *)

Section Annotations.

Import PyStr Re TraceSignal.

Lemma search_skip r pre s :
  all_chars (notchr "@") pre = true ->
  re_search (Cat (Lit "@[") r) (pre +++ s) = re_search (Cat (Lit "@[") r) s.
Proof.
  induction pre as [|c pre IH]; intros H; [reflexivity|].
  simpl in H. apply andb_prop in H as [Hc H].
  unfold notchr in Hc. apply negb_true_iff in Hc.
  rewrite Ascii.eqb_sym in Hc.
  cbn [String.append re_search]. unfold re_match at 1. cbn [run lit].
  rewrite Hc. now apply IH.
Qed.

Lemma search_bracket pre loc rest :
  all_chars (notchr "@") pre = true ->
  loc <> EmptyString -> all_chars (notchr "]") loc = true ->
  re_search re_at (pre +++ "@[" +++ loc +++ "]" +++ rest)
  = Some (rest, [(1, loc)]).
Proof.
  intros Hpre Hne Hloc. unfold re_at, seq. rewrite search_skip by exact Hpre.
  destruct loc as [|c loc]; [congruence|].
  cbn [String.append]. unfold re_search.
  replace (re_match _ _) with (Some (rest, [(1, String c loc)])).
  - destruct rest; reflexivity.
  - symmetry. unfold re_match. cbn [run lit]. rewrite !Ascii.eqb_refl.
    change (String c (loc +++ String "]" rest))
      with (String c loc +++ String "]" rest).
    apply plus_greedy; [exact Hloc | reflexivity |].
    cbn [lit]. rewrite Ascii.eqb_refl.
    now rewrite (consumed_append (String c loc) (String "]" rest)).
Qed.

(** X5.  A bracketed annotation is extracted whole: in a line made of a
    text without [@], then [@[], a non-empty location without []] and
    a closing []], [_extract_location] returns that location, whatever
    follows it (a plain-comment annotation included). *)
Theorem extract_bracketed_location (pre loc rest : string) :
  all_chars (notchr "@") pre = true ->
  loc <> EmptyString ->
  all_chars (notchr "]") loc = true ->
  _extract_location (pre +++ "@[" +++ loc +++ "]" +++ rest) = Some loc.
Proof.
  intros Hpre Hne Hloc. unfold _extract_location.
  rewrite (search_bracket pre loc rest Hpre Hne Hloc).
  unfold group_text. cbn [group find fst snd Nat.eqb].
  now rewrite or_else_some.
Qed.

Lemma extract_bracketed_location_witness :
  all_chars (notchr "@") "  wire [7:0] mulRes = a * b; // " = true /\
  "src/Fifo.scala:46:20" <> EmptyString /\
  all_chars (notchr "]") "src/Fifo.scala:46:20" = true /\
  _extract_location
    "  wire [7:0] mulRes = a * b; // @[src/Fifo.scala:46:20] // x.scala:1"
  = Some "src/Fifo.scala:46:20".
Proof.
  split; [reflexivity|]. split; [discriminate|]. split; [reflexivity|].
  exact (extract_bracketed_location
           "  wire [7:0] mulRes = a * b; // " "src/Fifo.scala:46:20"
           " // x.scala:1" eq_refl ltac:(discriminate) eq_refl).
Defined.

End Annotations.

(** ** What the parser keeps in its tables *)

Section ParserTables.

Import PyStr Re TraceSignal.

Variables gate_abs gold_abs : string.

(** The tables hold only wires placed by a tag or by their provenance. *)
Let sides_justified (t : tables) : Prop :=
  (forall w, In w (gold_wires t) -> tagged_or_from gold_abs w)
  /\ (forall w, In w (gate_wires t) ->
        tagged_or_from gate_abs w
        /\ (hdlname w = None ->
            forall s, src w = Some s -> contains gold_abs s = false)).

Let records (t : tables) : nat :=
  List.length (gate_wires t) + List.length (gold_wires t).

Lemma hdl_startswith_some p o :
  hdl_startswith p o = true -> exists h, o = Some h.
Proof.
  unfold hdl_startswith. destruct o as [h|]; [eauto|].
  now rewrite andb_false_r.
Qed.

Lemma truthy_some o :
  truthy o = true -> exists s, o = Some s /\ or_else o EmptyString = s.
Proof.
  destruct o as [[|c s]|]; try discriminate. intros _.
  now exists (String c s).
Qed.

Lemma record_wire_justified p t name w :
  sides_justified t ->
  sides_justified (record_wire gate_abs gold_abs p t name w).
Proof.
  intros [Hgold Hgate]. unfold record_wire.
  destruct (hdl_startswith "gold " (current_hdlname p)) eqn:E1.
  { apply hdl_startswith_some in E1 as [h Eh]. rewrite Eh.
    split; [|exact Hgate]. cbn [gold_wires]. intros x Hx.
    apply in_app_iff in Hx as [Hx|[<-|[]]]; [now apply Hgold|].
    left. cbn. eauto. }
  destruct (hdl_startswith "gate " (current_hdlname p)) eqn:E2.
  { apply hdl_startswith_some in E2 as [h Eh]. rewrite Eh.
    split; [exact Hgold|]. cbn [gate_wires]. intros x Hx.
    apply in_app_iff in Hx as [Hx|[<-|[]]]; [now apply Hgate|].
    split; [left; cbn; eauto | cbn; discriminate]. }
  destruct (truthy (current_src p)) eqn:E3; [|now split].
  apply truthy_some in E3 as (s & Es & Eo). rewrite Eo.
  destruct (contains gold_abs s) eqn:E4.
  { split; [|exact Hgate]. cbn [gold_wires]. intros x Hx.
    apply in_app_iff in Hx as [Hx|[<-|[]]]; [now apply Hgold|].
    right. cbn. split; [reflexivity|]. exists s. auto. }
  destruct (contains gate_abs s) eqn:E5; [|now split].
  split; [exact Hgold|]. cbn [gate_wires]. intros x Hx.
  apply in_app_iff in Hx as [Hx|[<-|[]]]; [now apply Hgate|].
  split.
  - right. cbn. split; [reflexivity|]. exists s. auto.
  - cbn. intros _ s' Hs'. congruence.
Qed.

Lemma record_wire_records p t name w :
  records (record_wire gate_abs gold_abs p t name w) <= records t + 1.
Proof.
  unfold record_wire, records.
  repeat match goal with
         | |- context [if ?b then _ else _] => destruct b
         end; cbn [gate_wires gold_wires]; rewrite ?length_app; simpl; lia.
Qed.

Lemma parse_line_justified st raw :
  sides_justified (snd st) ->
  sides_justified (snd (parse_line gate_abs gold_abs st raw)).
Proof.
  destruct st as [p t]. unfold parse_line. cbn [snd]. intros H.
  destruct (re_match re_src (strip raw)) as [[? ?]|]; [exact H|].
  destruct (re_match re_hdlname (strip raw)) as [[? ?]|]; [exact H|].
  destruct (re_match re_wire (strip raw)) as [[? ?]|].
  - cbn [snd]. now apply record_wire_justified.
  - now destruct (negb (startswith "attribute" (strip raw))).
Qed.

Lemma parse_line_records st raw :
  records (snd (parse_line gate_abs gold_abs st raw))
  <= records (snd st) + (if is_attribute_line raw then 0 else 1).
Proof.
  destruct st as [p t]. unfold parse_line, is_attribute_line. cbn [snd].
  destruct (re_match re_src (strip raw)) as [[? ?]|] eqn:E1.
  { cbn [snd]. lia. }
  destruct (re_match re_hdlname (strip raw)) as [[? ?]|] eqn:E2.
  { cbn [snd]. lia. }
  destruct (re_match re_wire (strip raw)) as [[? ?]|] eqn:E3.
  - cbn [snd]. destruct (startswith "attribute" (strip raw)) eqn:A.
    + rewrite (re_wire_not_attribute _ A) in E3. discriminate.
    + apply record_wire_records.
  - destruct (negb (startswith "attribute" (strip raw))); cbn [snd]; lia.
Qed.

Lemma parse_lines_tables lines st :
  sides_justified (snd st) ->
  sides_justified (snd (parse_lines gate_abs gold_abs lines st))
  /\ records (snd (parse_lines gate_abs gold_abs lines st))
     <= records (snd st)
        + List.length (filter (fun l => negb (is_attribute_line l)) lines).
Proof.
  unfold parse_lines. revert st.
  induction lines as [|raw lines IH]; intros st H.
  - simpl. split; [exact H | lia].
  - cbn [fold_left filter].
    destruct (IH (parse_line gate_abs gold_abs st raw)
                (parse_line_justified st raw H)) as [I1 I2].
    split; [exact I1|].
    pose proof (parse_line_records st raw) as R.
    destruct (is_attribute_line raw); simpl in *; lia.
Qed.

(** X6.  Whatever the dump, every wire [parse_dump] puts in the gold
    table carries an origin tag or a provenance that names the gold
    file, and every wire of the gate table carries an origin tag or a
    provenance that names the gate file and not the gold file: a wire
    with neither tag nor provenance is in no table.  The two tables
    together hold at most one wire per line that is not an attribute
    line. *)
Theorem parse_dump_sides (dump_text : string) :
  let t := parse_dump dump_text gate_abs gold_abs in
  (forall w, In w (gold_wires t) -> tagged_or_from gold_abs w)
  /\ (forall w, In w (gate_wires t) ->
        tagged_or_from gate_abs w
        /\ (hdlname w = None ->
            forall s, src w = Some s -> contains gold_abs s = false))
  /\ List.length (gate_wires t) + List.length (gold_wires t)
     <= List.length
          (filter (fun l => negb (is_attribute_line l)) (split LF dump_text)).
Proof.
  intros t.
  destruct (parse_lines_tables (split LF dump_text) (no_pending, no_tables))
    as [[H1 H2] H3].
  { split; intros w []. }
  repeat split.
  - exact H1.
  - now apply H2.
  - now apply H2.
  - exact H3.
Qed.

End ParserTables.

(** ** Reading back the dump of tagged wires *)

Section DumpRoundTrip.

Import PyStr Re TraceSignal.

Lemma rstrip_keep a b :
  b <> EmptyString -> all_chars (fun c => negb (isspace c)) b = true ->
  rstrip (a +++ b) = a +++ b.
Proof.
  intros Hne Hb.
  assert (Hbase : rstrip b = b).
  { clear Hne. induction b as [|c b IH]; [reflexivity|].
    simpl in Hb. apply andb_prop in Hb as [Hc Hb].
    apply negb_true_iff in Hc. cbn [rstrip]. rewrite (IH Hb), Hc.
    now destruct b. }
  induction a as [|x a IH]; [exact Hbase|].
  cbn [String.append rstrip]. rewrite IH.
  destruct (a +++ b) eqn:E; [|reflexivity].
  destruct a; [simpl in E; congruence | discriminate].
Qed.

Lemma strip_keep c a b :
  isspace c = false ->
  b <> EmptyString -> all_chars (fun c => negb (isspace c)) b = true ->
  strip (String c a +++ b) = String c a +++ b.
Proof.
  intros Hc Hne Hb. unfold strip. cbn [String.append lstrip]. rewrite Hc.
  now apply (rstrip_keep (String c a) b).
Qed.

Lemma quotable_not_quote s :
  all_chars quotable s = true -> all_chars (notchr DQUOTE) s = true.
Proof.
  apply all_chars_weaken. intros c H. unfold quotable in H.
  now apply andb_prop in H as [H _].
Qed.

Lemma quotable_not_lf s :
  all_chars quotable s = true -> all_chars (notchr LF) s = true.
Proof.
  apply all_chars_weaken. intros c H. unfold quotable in H.
  now apply andb_prop in H as [_ H].
Qed.

Lemma nonspace_not_lf s :
  all_chars (fun c => negb (isspace c)) s = true ->
  all_chars (notchr LF) s = true.
Proof.
  apply all_chars_weaken. intros c H. unfold notchr.
  destruct (Ascii.eqb_spec c LF) as [->|]; [discriminate|reflexivity].
Qed.

(** The attribute line [attribute <key> "<value>"]. *)
Let attribute_line (key value : string) : string :=
  "attribute " +++ key +++ " " +++ dq +++ value +++ dq.

Lemma attribute_line_strip key value :
  strip (attribute_line key value) = attribute_line key value.
Proof.
  unfold attribute_line.
  replace ("attribute " +++ key +++ " " +++ dq +++ value +++ dq)
    with (String "a" ("ttribute " +++ key +++ " " +++ dq +++ value) +++ dq)
    by (cbn [String.append]; now rewrite !append_assoc).
  apply strip_keep; [reflexivity | discriminate | reflexivity].
Qed.

(** The pattern of an attribute with a given key. *)
Let re_attribute (key : string) : regex :=
  seq [Lit "attribute"; Plus isspace; Lit key; Plus isspace; Lit dq;
       Grp 1 (Plus (notchr DQUOTE)); Lit dq].

Lemma lit_app t s : lit t (t +++ s) = Some s.
Proof.
  induction t as [|a t IH]; [reflexivity|].
  cbn [String.append lit]. now rewrite Ascii.eqb_refl.
Qed.

Lemma re_attribute_hit key c value :
  all_chars (notchr DQUOTE) (String c value) = true ->
  re_match (re_attribute (String "\" key))
    (attribute_line (String "\" key) (String c value))
  = Some (EmptyString, [(1, String c value)]).
Proof.
  intros Hval. unfold re_match, re_attribute, attribute_line.
  cbn [seq run]. change ("attribute " +++ ?x) with ("attribute" +++ " " +++ x).
  cbn beta. rewrite lit_app.
  apply (plus_greedy isspace " " EmptyString); [reflexivity | reflexivity |].
  cbn beta. rewrite lit_app.
  apply (plus_greedy isspace " " EmptyString); [reflexivity | reflexivity |].
  cbn beta. unfold dq. cbn [String.append lit]. rewrite Ascii.eqb_refl.
  apply plus_greedy; [exact Hval | reflexivity |].
  cbn [lit]. rewrite Ascii.eqb_refl.
  now rewrite consumed_cons.
Qed.

Lemma src_line_hit c value :
  all_chars (notchr DQUOTE) (String c value) = true ->
  re_match re_src (attribute_line "\src" (String c value))
  = Some (EmptyString, [(1, String c value)]).
Proof. apply (re_attribute_hit "src"). Qed.

Lemma hdlname_line_hit c value :
  all_chars (notchr DQUOTE) (String c value) = true ->
  re_match re_hdlname (attribute_line "\hdlname" (String c value))
  = Some (EmptyString, [(1, String c value)]).
Proof. apply (re_attribute_hit "hdlname"). Qed.

Lemma src_misses_hdlname value :
  re_match re_src (attribute_line "\hdlname" value) = None.
Proof. reflexivity. Qed.

(** The declaration [wire width <w> <name>]. *)
Let wire_line (w : nat) (name : string) : string :=
  "wire width " +++ str_of_int w +++ " " +++ name.

Lemma wire_line_not_attribute w name :
  re_match re_src (wire_line w name) = None
  /\ re_match re_hdlname (wire_line w name) = None.
Proof. split; reflexivity. Qed.

Lemma wire_line_strip w name :
  name <> EmptyString ->
  all_chars (fun c => negb (isspace c)) name = true ->
  strip (wire_line w name) = wire_line w name.
Proof.
  intros Hne Hname. unfold wire_line.
  replace ("wire width " +++ str_of_int w +++ " " +++ name)
    with (String "w" ("ire width " +++ str_of_int w +++ " ") +++ name)
    by (cbn [String.append]; now rewrite !append_assoc).
  now apply strip_keep.
Qed.

Lemma plus_all p c ds k r :
  all_chars p (String c ds) = true ->
  k EmptyString = Some r -> plus p (String c ds) k = Some r.
Proof.
  intros H Hk. rewrite <- (append_nil_r (String c ds)).
  now apply plus_greedy.
Qed.

Lemma consumed_all s : consumed s EmptyString = s.
Proof.
  rewrite <- (append_nil_r s) at 1. apply consumed_append.
Qed.

Lemma wire_line_hit w name :
  all_chars (fun c => negb (isspace c)) (String "\" name) = true ->
  re_match re_wire (wire_line w (String "\" name))
  = Some (EmptyString, [(2, String "\" name); (1, str_of_int w)]).
Proof.
  intros Hname. unfold re_match, re_wire, wire_line.
  cbn [seq run].
  change ("wire width " +++ ?x) with ("wire" +++ " " +++ "width" +++ " " +++ x).
  cbn beta. rewrite lit_app.
  apply (plus_greedy isspace " " EmptyString); [reflexivity | reflexivity |].
  cbn beta. rewrite lit_app.
  destruct (str_nonempty w) as (d & ds & E).
  pose proof (str_digits w) as D. rewrite E in *.
  assert (Hd : isspace d = false).
  { simpl in D. apply andb_prop in D as [D _]. revert D. clear.
    unfold isdigit, isspace. destruct (code d) as [|n]; [discriminate|].
    intros H. apply andb_prop in H as [H1 H2].
    apply Nat.leb_le in H1, H2.
    repeat match goal with
           | |- context [?a <=? ?b] =>
               destruct (Nat.leb_spec a b); try lia
           | |- context [?a =? ?b] =>
               destruct (Nat.eqb_spec a b); try lia
           end; reflexivity. }
  erewrite (plus_greedy isspace " " EmptyString); [reflexivity | reflexivity | | ].
  { cbn [String.append head_fails]. now rewrite Hd. }
  apply plus_greedy; [exact D | reflexivity |].
  apply (plus_greedy isspace " " EmptyString); [reflexivity | reflexivity |].
  cbn [lit]. cbn [Ascii.eqb Bool.eqb]. cbn iota.
  apply plus_all; [now apply nonspace_not_lf|].
  rewrite consumed_all.
  now rewrite (consumed_append (String d ds) (" " +++ String "\" name)).
Qed.


Variables gate_abs gold_abs : string.

Let step := parse_line gate_abs gold_abs.

(** The table after a wire has been added on its side. *)
Let add (gold : bool) (w : wire) (t : tables) : tables :=
  if gold
  then {| gate_wires := gate_wires t; gold_wires := gold_wires t ++ [w] |}
  else {| gate_wires := gate_wires t ++ [w]; gold_wires := gold_wires t |}.

Lemma src_line_step p t c value :
  all_chars quotable (String c value) = true ->
  step (p, t) (attribute_line "\src" (String c value))
  = ({| current_src := Some (String c value);
        current_hdlname := current_hdlname p |}, t).
Proof.
  intros H. unfold step, parse_line.
  rewrite attribute_line_strip.
  now rewrite (src_line_hit c value (quotable_not_quote _ H)).
Qed.

Lemma hdlname_line_step p t c value :
  all_chars quotable (String c value) = true ->
  step (p, t) (attribute_line "\hdlname" (String c value))
  = ({| current_src := current_src p;
        current_hdlname := Some (String c value) |}, t).
Proof.
  intros H. unfold step, parse_line.
  rewrite attribute_line_strip, src_misses_hdlname.
  now rewrite (hdlname_line_hit c value (quotable_not_quote _ H)).
Qed.

Lemma strip_name name :
  all_chars (fun c => negb (isspace c)) (String "\" name) = true ->
  strip (String "\" name) = String "\" name.
Proof.
  intros H. unfold strip. cbn [lstrip]. 
  change (isspace "\") with false. cbn iota.
  apply (rstrip_keep EmptyString (String "\" name)); [discriminate | exact H].
Qed.

Lemma wire_line_step p t w name :
  all_chars (fun c => negb (isspace c)) (String "\" name) = true ->
  step (p, t) (wire_line w (String "\" name))
  = (no_pending, record_wire gate_abs gold_abs p t (String "\" name) w).
Proof.
  intros H. unfold step, parse_line.
  assert (Hne : String "\" name <> EmptyString) by discriminate.
  rewrite (wire_line_strip w _ Hne H).
  destruct (wire_line_not_attribute w (String "\" name)) as [-> ->].
  rewrite (wire_line_hit w name H).
  cbn [group find fst snd Nat.eqb]. rewrite or_else_some.
  rewrite (strip_name name H).
  destruct (str_nonempty w) as (d & ds & E).
  rewrite E, <- E, int_of_str. reflexivity.
Qed.

Lemma drop5_tag a b c d e n :
  drop5 (String a (String b (String c (String d (String e n))))) = n.
Proof.
  unfold drop5. cbn [String.length Nat.sub String.substring].
  rewrite Nat.sub_0_r. rewrite <- (append_nil_r n) at 2.
  apply substring_prefix.
Qed.

Lemma quotable_tag gold n :
  all_chars quotable n = true ->
  all_chars quotable (side_name gold +++ " " +++ n) = true.
Proof. intros H. destruct gold; cbn; exact H. Qed.

Lemma record_tagged gold cs t name w n :
  record_wire gate_abs gold_abs
    {| current_src := cs;
       current_hdlname := Some (side_name gold +++ " " +++ n) |} t name w
  = add gold (mkWire name w cs (Some n)) t.
Proof.
  unfold record_wire, add. cbn [current_src current_hdlname].
  destruct gold.
  - replace (hdl_startswith "gold " (Some (side_name true +++ " " +++ n)))
      with true.
    + cbn [option_map side_name String.append]. now rewrite drop5_tag.
    + symmetry. unfold hdl_startswith. cbn [truthy side_name String.append].
      apply prefix_iff. now exists n.
  - replace (hdl_startswith "gold " (Some (side_name false +++ " " +++ n)))
      with false by reflexivity.
    replace (hdl_startswith "gate " (Some (side_name false +++ " " +++ n)))
      with true.
    + cbn [option_map side_name String.append]. now rewrite drop5_tag.
    + symmetry. unfold hdl_startswith. cbn [truthy side_name String.append].
      apply prefix_iff. now exists n.
Qed.

Lemma block_parsed gold w t :
  printable_wire w = true ->
  fold_left step (wire_block (side_name gold) w) (no_pending, t)
  = (no_pending, add gold w t).
Proof.
  destruct w as [name width src hdl]. unfold printable_wire.
  cbn [TraceSignal.src hdlname wire_name TraceSignal.width].
  intros H. apply andb_prop in H as [H Hname].
  apply andb_prop in H as [H Hstart]. apply andb_prop in H as [Hsrc Hhdl].
  destruct hdl as [n|]; [|discriminate].
  apply prefix_iff in Hstart as [name' ->].
  change ("\" +++ name') with (String "\" name') in *.
  pose proof (quotable_tag gold n Hhdl) as Htag.
  assert (Etag : exists c v, side_name gold +++ " " +++ n = String c v)
    by (destruct gold; cbn; eauto).
  destruct Etag as (c & v & Etag).
  unfold wire_block.
  cbn [TraceSignal.src hdlname wire_name TraceSignal.width].
  rewrite or_else_some.
  replace ("attribute \hdlname " +++ dq +++ side_name gold +++ " " +++ n +++ dq)
    with (attribute_line "\hdlname" (side_name gold +++ " " +++ n))
    by (unfold attribute_line; cbn [String.append]; now rewrite !append_assoc).
  change ("wire width " +++ str_of_int width +++ " " +++ String "\" name')
    with (wire_line width (String "\" name')).
  destruct src as [s|].
  - apply andb_prop in Hsrc as [Ht Hs].
    destruct s as [|x s]; [discriminate|].
    change ("attribute \src " +++ dq +++ String x s +++ dq)
      with (attribute_line "\src" (String x s)).
    change (fold_left step ([?a] ++ [?b; ?c]) ?st)
      with (step (step (step st a) b) c).
    rewrite (src_line_step _ _ x s Hs). cbn [current_hdlname no_pending].
    rewrite Etag in *. rewrite (hdlname_line_step _ _ c v Htag).
    cbn [current_src]. rewrite (wire_line_step _ _ width name' Hname).
    rewrite <- Etag. now rewrite record_tagged.
  - change (fold_left step ([] ++ [?b; ?c]) ?st)
      with (step (step st b) c).
    rewrite Etag in *. rewrite (hdlname_line_step _ _ c v Htag).
    cbn [current_src no_pending]. rewrite (wire_line_step _ _ width name' Hname).
    rewrite <- Etag. now rewrite record_tagged.
Qed.

Lemma blocks_parsed ws t :
  forallb (fun e => printable_wire (snd e)) ws = true ->
  fold_left step
    (flat_map (fun e => wire_block (side_name (fst e)) (snd e)) ws)
    (no_pending, t)
  = (no_pending, fold_left (fun t e => add (fst e) (snd e) t) ws t).
Proof.
  revert t. induction ws as [|[gold w] ws IH]; intros t H; [reflexivity|].
  cbn [forallb snd] in H. apply andb_prop in H as [Hw H].
  cbn [flat_map fst snd fold_left]. rewrite fold_left_app.
  rewrite (block_parsed gold w t Hw). now apply IH.
Qed.

Lemma added_tables ws t :
  fold_left (fun t e => add (fst e) (snd e) t) ws t
  = {| gate_wires :=
         gate_wires t ++ map snd (filter (fun e => negb (fst e)) ws);
       gold_wires := gold_wires t ++ map snd (filter fst ws) |}.
Proof.
  revert t. induction ws as [|[gold w] ws IH]; intros t.
  - simpl. rewrite !app_nil_r. now destruct t.
  - cbn [fold_left]. rewrite IH. unfold add. cbn [fst snd filter].
    destruct gold; cbn [negb map gate_wires gold_wires];
      now rewrite <- app_assoc.
Qed.

Lemma split_line l rest :
  all_chars (notchr LF) l = true ->
  split LF (l +++ String LF rest) = l :: split LF rest.
Proof.
  induction l as [|c l IH]; intros H.
  - reflexivity.
  - simpl in H. apply andb_prop in H as [Hc H].
    unfold notchr in Hc. apply negb_true_iff in Hc.
    cbn [String.append split]. rewrite Hc. now rewrite (IH H).
Qed.

Lemma split_unlines lines :
  Forall (fun l => all_chars (notchr LF) l = true) lines ->
  split LF (unlines lines) = lines ++ [EmptyString].
Proof.
  unfold unlines. induction 1 as [|l lines Hl _ IH]; [reflexivity|].
  cbn [map]. rewrite concat_empty_cons. unfold nl at 1.
  rewrite append_assoc. cbn [String.append].
  now rewrite (split_line l _ Hl), IH.
Qed.

Lemma block_lines gold w :
  printable_wire w = true ->
  Forall (fun l => all_chars (notchr LF) l = true)
    (wire_block (side_name gold) w).
Proof.
  destruct w as [name width src hdl]. unfold printable_wire, wire_block.
  cbn [TraceSignal.src hdlname wire_name TraceSignal.width].
  intros H. apply andb_prop in H as [H Hname].
  apply andb_prop in H as [H _]. apply andb_prop in H as [Hsrc Hhdl].
  destruct hdl as [n|]; [|discriminate]. rewrite or_else_some.
  apply quotable_not_lf in Hhdl. apply nonspace_not_lf in Hname.
  assert (Hw : all_chars (notchr LF) (str_of_int width) = true).
  { apply (all_chars_weaken isdigit); [|apply str_digits].
    intros c Hc. unfold notchr.
    destruct (Ascii.eqb_spec c LF) as [->|]; [discriminate|reflexivity]. }
  apply Forall_app. split.
  - destruct src as [s|]; [|constructor].
    apply andb_prop in Hsrc as [_ Hs]. apply quotable_not_lf in Hs.
    constructor; [|constructor].
    repeat (progress (rewrite ?all_chars_app; cbn [String.append all_chars])).
    rewrite Hs. reflexivity.
  - constructor; [|constructor; [|constructor]].
    + destruct gold; cbn [side_name];
        repeat (progress (rewrite ?all_chars_app;
                          cbn [String.append all_chars]));
        rewrite Hhdl; reflexivity.
    + repeat (progress (rewrite ?all_chars_app;
                        cbn [String.append all_chars])).
      rewrite Hw, Hname. reflexivity.
Qed.

(** X7.  The parser reads back the dump of tagged wires.  Take wires
    with a non-empty provenance (or none) and an origin name, both
    without double quote or newline, and a name that begins with a
    backslash and has no whitespace; write each one as its provenance
    attribute, its origin tag "gold <name>" or "gate <name>" and its
    declaration "wire width <w> <name>".  [parse_dump] returns exactly
    these wires, the gold ones and the gate ones each in dump order. *)
Theorem tagged_dump_round_trip (ws : list (bool * wire)) :
  forallb (fun e => printable_wire (snd e)) ws = true ->
  parse_dump (dump_of ws) gate_abs gold_abs
  = {| gate_wires := map snd (filter (fun e => negb (fst e)) ws);
       gold_wires := map snd (filter fst ws) |}.
Proof.
  intros H. unfold parse_dump, dump_of, parse_lines.
  rewrite split_unlines.
  - rewrite fold_left_app. fold step. rewrite (blocks_parsed ws no_tables H).
    rewrite added_tables. reflexivity.
  - apply Forall_flat_map. rewrite forallb_forall in H.
    apply Forall_forall. intros e He. apply block_lines. now apply H.
Qed.

End DumpRoundTrip.

Section DumpRoundTripRun.

Import PyStr TraceSignal.

Lemma tagged_dump_witness :
  let mul := mkWire "\gate.mulRes" 8 (Some "/abs/gate.sv:21.23-21.39")
               (Some "mulRes") in
  let sum := mkWire "\gold.sum" 16 None (Some "sum") in
  forallb (fun e => printable_wire (snd e)) [(false, mul); (true, sum)] = true
  /\ parse_dump
       ("attribute \src " +++ dq +++ "/abs/gate.sv:21.23-21.39" +++ dq +++ nl
        +++ "attribute \hdlname " +++ dq +++ "gate mulRes" +++ dq +++ nl
        +++ "wire width 8 \gate.mulRes" +++ nl
        +++ "attribute \hdlname " +++ dq +++ "gold sum" +++ dq +++ nl
        +++ "wire width 16 \gold.sum" +++ nl)
       "/abs/gate.sv" "/abs/gold.sv"
     = {| gate_wires := [mul]; gold_wires := [sum] |}.
Proof.
  intros mul sum. split; [reflexivity|].
  exact (tagged_dump_round_trip "/abs/gate.sv" "/abs/gold.sv"
           [(false, mul); (true, sum)] eq_refl).
Defined.

End DumpRoundTripRun.

(** ** The pairs of cross-discovery mode *)

Section Pairs.

Import PyStr FindCorrespondences.

Lemma matching_inner (g : string * nat) (gate_internal : list (string * nat))
  (pairs : list (string * string * nat)) :
  fold_left
    (fun pairs t =>
       if snd g =? snd t then pairs ++ [(fst g, fst t, snd g)] else pairs)
    gate_internal pairs
  = pairs
    ++ flat_map
         (fun t => if snd g =? snd t then [(fst g, fst t, snd g)] else [])
         gate_internal.
Proof.
  revert pairs. induction gate_internal as [|t l IH]; intros pairs; simpl.
  - now rewrite app_nil_r.
  - rewrite IH. destruct (snd g =? snd t); [|reflexivity].
    now rewrite <- app_assoc.
Qed.

Lemma matching_outer (gold_internal gate_internal : list (string * nat))
  (pairs : list (string * string * nat)) :
  fold_left
    (fun pairs g =>
       fold_left
         (fun pairs t =>
            if snd g =? snd t then pairs ++ [(fst g, fst t, snd g)]
            else pairs)
         gate_internal pairs)
    gold_internal pairs
  = pairs
    ++ flat_map
         (fun g =>
            flat_map
              (fun t =>
                 if snd g =? snd t then [(fst g, fst t, snd g)] else [])
              gate_internal)
         gold_internal.
Proof.
  revert pairs. induction gold_internal as [|g l IH]; intros pairs; simpl.
  - now rewrite app_nil_r.
  - rewrite IH, matching_inner. now rewrite <- app_assoc.
Qed.

Lemma matching_width_pairs_in gold_internal gate_internal g t w :
  In (g, t, w) (matching_width_pairs gold_internal gate_internal)
  <-> In (g, w) gold_internal /\ In (t, w) gate_internal.
Proof.
  unfold matching_width_pairs. rewrite matching_outer, app_nil_l.
  rewrite in_flat_map. split.
  - intros ([g' wg] & Hg & H). apply in_flat_map in H as ([t' wt] & Ht & H).
    cbn [fst snd] in H. destruct (Nat.eqb_spec wg wt) as [->|]; [|destruct H].
    destruct H as [H|[]]. injection H as -> -> ->. auto.
  - intros [Hg Ht]. exists (g, w). split; [exact Hg|].
    apply in_flat_map. exists (t, w). split; [exact Ht|].
    cbn [fst snd]. rewrite Nat.eqb_refl. now left.
Qed.

Lemma filter_pairs_loop gold_internal gate_internal pairs acc :
  fold_left (filter_pair gold_internal gate_internal) pairs acc
  = acc
    ++ filter
         (fun pair =>
            String.eqb (fst (fst pair)) (snd (fst pair))
            || (negb (has_key (fst (fst pair)) gate_internal)
                && negb (has_key (snd (fst pair)) gold_internal)))
         pairs.
Proof.
  revert acc. induction pairs as [|[[g t] w] pairs IH]; intros acc.
  - simpl. now rewrite app_nil_r.
  - cbn [fold_left filter fst snd]. rewrite IH. unfold filter_pair.
    destruct (String.eqb g t); cbn [orb].
    + now rewrite <- app_assoc.
    + destruct (negb (has_key g gate_internal)
                && negb (has_key t gold_internal)); [|reflexivity].
      now rewrite <- app_assoc.
Qed.

Lemma has_key_in name d :
  has_key name d = true <-> exists w, In (name, w) d.
Proof.
  unfold has_key. rewrite existsb_exists. split.
  - intros ([k w] & Hin & E). cbn [fst] in E.
    apply String.eqb_eq in E. subst. eauto.
  - intros [w Hin]. exists (name, w). cbn [fst].
    now rewrite String.eqb_refl.
Qed.

Lemma internal_in name w signals :
  In (name, w) (internal_signals signals)
  <-> In (name, w) signals /\ is_internal name = true.
Proof. unfold internal_signals. now rewrite filter_In. Qed.

Lemma no_same_named gold_internal gate_internal :
  has_same_named gold_internal gate_internal = false ->
  forall g t wg wt,
    In (g, wg) gold_internal -> In (t, wt) gate_internal ->
    has_key g gate_internal = false /\ has_key t gold_internal = false.
Proof.
  unfold has_same_named. intros H g t wg wt Hg Ht.
  assert (Hall : forall x, In x gold_internal ->
                           has_key (fst x) gate_internal = false).
  { intros x Hx. destruct (has_key (fst x) gate_internal) eqn:E; [|reflexivity].
    assert (existsb (fun g0 => has_key (fst g0) gate_internal) gold_internal
            = true) by (apply existsb_exists; eauto).
    congruence. }
  split; [apply (Hall (g, wg) Hg)|].
  destruct (has_key t gold_internal) eqn:E; [|reflexivity].
  apply has_key_in in E as [w Hw].
  specialize (Hall (t, w) Hw). cbn [fst] in Hall.
  assert (has_key t gate_internal = true) by (apply has_key_in; eauto).
  congruence.
Qed.

Lemma same_named_pair_kept
  (gold_signals gate_signals : list (string * nat)) (g : string) (w : nat) :
  In (g, w) gold_signals -> In (g, w) gate_signals ->
  is_internal g = true ->
  In (g, g, w) (pairs_to_test gold_signals gate_signals).
Proof.
  unfold pairs_to_test. intros Hg Ht Ig.
  assert (Hg' : In (g, w) (internal_signals gold_signals))
    by now apply internal_in.
  assert (Ht' : In (g, w) (internal_signals gate_signals))
    by now apply internal_in.
  assert (Hsame : has_same_named (internal_signals gold_signals)
                    (internal_signals gate_signals) = true).
  { unfold has_same_named. apply existsb_exists. exists (g, w).
    split; [exact Hg'|]. apply has_key_in. eauto. }
  rewrite Hsame, filter_pairs_loop, app_nil_l. apply filter_In.
  split; [now apply matching_width_pairs_in|].
  cbn [fst snd]. now rewrite String.eqb_refl.
Qed.

(** X8.  Every pair [main] hands to the testing loop joins a gold signal
    and a gate signal of the same width, neither of them a clock, a
    reset or an I/O port; and a pair of two different names is tested
    only when the gold name is not a gate signal and the gate name is
    not a gold signal.  Every same-named pair of equal width is among
    the pairs. *)
Theorem pairs_to_test_sound
  (gold_signals gate_signals : list (string * nat))
  (g t : string) (w : nat) :
  (In (g, t, w) (pairs_to_test gold_signals gate_signals) ->
   In (g, w) gold_signals /\ In (t, w) gate_signals
   /\ is_internal g = true /\ is_internal t = true
   /\ (g = t
       \/ (has_key g (internal_signals gate_signals) = false
           /\ has_key t (internal_signals gold_signals) = false)))
  /\ (In (g, w) gold_signals -> In (g, w) gate_signals ->
      is_internal g = true ->
      In (g, g, w) (pairs_to_test gold_signals gate_signals)).
Proof.
  unfold pairs_to_test. split.
  - destruct (has_same_named _ _) eqn:Hsame.
    + rewrite filter_pairs_loop, app_nil_l, filter_In.
      rewrite matching_width_pairs_in, !internal_in. cbn [fst snd].
      intros [[[Hg Ig] [Ht It]] Hk]. repeat split; auto.
      apply orb_prop in Hk as [Hk|Hk].
      * left. now apply String.eqb_eq.
      * right. apply andb_prop in Hk as [H1 H2].
        now apply negb_true_iff in H1, H2.
    + rewrite matching_width_pairs_in. intros [Hg Ht].
      destruct (no_same_named _ _ Hsame g t w w Hg Ht) as [H1 H2].
      apply internal_in in Hg as [Hg Ig]. apply internal_in in Ht as [Ht It].
      repeat split; auto.
  - apply same_named_pair_kept.
Qed.

End Pairs.

(** ** The testing loop as a whole *)

Section DiscoveryLoop.

Import PyStr FindCorrespondences.

Variable yosys : Subprocess.backend.
Variables gold_file gate_file : string.
Variables gold_lines gate_lines : list string.
Variable module_name : string.

Let check := test_equivalence yosys gold_file gate_file gold_lines
               gate_lines module_name.
Let loop := test_pairs yosys gold_file gate_file gold_lines gate_lines
              module_name.
Let step := test_pair yosys gold_file gate_file gold_lines gate_lines
              module_name.
Let call := pair_call gold_file gate_file gold_lines gate_lines module_name.

(** The outcome of the check of a pair. *)
Lemma check_outcome g t use_induct h :
  check g t use_induct h
  = if String.eqb g t then (inr true, h)
    else (match yosys h (call g t use_induct) with
          | inl Subprocess.TimeoutExpired => inr false
          | inl e => inl e
          | inr result => inr (verdict (Subprocess.stdout result))
          end, h ++ [call g t use_induct]).
Proof.
  unfold check, test_equivalence, Subprocess.ret, Subprocess.run, call,
    pair_call.
  destruct (String.eqb g t); [reflexivity|].
  now destruct (yosys h _) as [[]|].
Qed.

(** A pair proven by name or by a completed backend run that passes. *)
Let proven (g t : string) (use_induct : bool) (h : Subprocess.log) : bool :=
  String.eqb g t
  || match yosys h (call g t use_induct) with
     | inr result => verdict (Subprocess.stdout result)
     | inl _ => false
     end.

Lemma step_outcome use_induct total p h g t w :
  correspondences (fst (step use_induct total (p, h) (g, t, w)))
  = correspondences p ++ (if proven g t use_induct h then [(g, t, w)] else [])
  /\ snd (step use_induct total (p, h) (g, t, w))
     = h ++ (if String.eqb g t then [] else [call g t use_induct]).
Proof.
  unfold step, test_pair, proven. fold check. rewrite check_outcome.
  destruct (String.eqb g t); cbn [orb fst snd].
  - split; [reflexivity | now rewrite app_nil_r].
  - destruct (yosys h _) as [[|msg]|result]; cbn [fst snd correspondences];
      rewrite ?app_nil_r; try (split; reflexivity).
    destruct (verdict _); cbn [fst snd correspondences];
      rewrite ?app_nil_r; split; reflexivity.
Qed.

(** X9.  The backend is invoked once for each pair of two different
    names, in the order of the pairs, with the pair's script and a
    timeout of 120, and never for a pair of equal names: the log of
    invocations after the loop is the log before it followed by exactly
    these calls. *)
Theorem one_backend_call_per_cross_pair
  (use_induct : bool) (total : nat) (pairs : list (string * string * nat))
  (p : progress) (h : Subprocess.log) :
  snd (loop use_induct total pairs (p, h))
  = h ++ map (fun pair => call (fst (fst pair)) (snd (fst pair)) use_induct)
           (filter cross_named pairs)
  /\ Forall (fun c => Subprocess.timeout c = 120)
       (map (fun pair => call (fst (fst pair)) (snd (fst pair)) use_induct)
          (filter cross_named pairs)).
Proof.
  split.
  - unfold loop, test_pairs. revert p h.
    induction pairs as [|[[g t] w] pairs IH]; intros p h.
    + simpl. now rewrite app_nil_r.
    + cbn [fold_left].
      destruct (step_outcome use_induct total p h g t w) as [_ Hlog].
      unfold step in Hlog. revert Hlog.
      destruct (test_pair yosys gold_file gate_file gold_lines gate_lines
                  module_name use_induct total (p, h) (g, t, w)) as [p' h'].
      cbn [snd]. intros Hlog. rewrite IH, Hlog.
      cbn [filter]. unfold cross_named at 2. cbn [fst snd].
      destruct (String.eqb g t); cbn [negb map fst snd];
        now rewrite <- app_assoc.
  - apply Forall_forall. intros c Hc. apply in_map_iff in Hc as (x & <- & _).
    reflexivity.
Qed.

(** X10.  The correspondences the loop adds are a subsequence of the
    pairs it is given, every pair counts as tested whatever the backend
    does, and a pair is reported only if its names are equal or its
    backend run completed with an output that [test_equivalence]
    accepts. *)
Theorem correspondences_sound
  (use_induct : bool) (total : nat) (pairs : list (string * string * nat))
  (p : progress) (h : Subprocess.log) :
  exists found,
    correspondences (fst (loop use_induct total pairs (p, h)))
    = correspondences p ++ found
    /\ TraceSignal.subsequence found pairs
    /\ tested (fst (loop use_induct total pairs (p, h)))
       = tested p + List.length pairs
    /\ forall g t w,
         In (g, t, w) found ->
         g = t
         \/ exists h' result,
              yosys h' (call g t use_induct) = inr result
              /\ verdict (Subprocess.stdout result) = true.
Proof.
  unfold loop, test_pairs. revert p h.
  induction pairs as [|[[g t] w] pairs IH]; intros p h.
  - exists []. cbn [fold_left fst]. rewrite app_nil_r.
    repeat split; [constructor | simpl; lia | intros ? ? ? []].
  - cbn [fold_left].
    destruct (step_outcome use_induct total p h g t w) as [Hc _].
    pose proof (test_pair_tested yosys gold_file gate_file gold_lines
                  gate_lines module_name use_induct total (p, h) (g, t, w))
      as Ht.
    unfold step in Hc. revert Hc Ht.
    destruct (test_pair yosys gold_file gate_file gold_lines gate_lines
                module_name use_induct total (p, h) (g, t, w)) as [p' h'].
    cbn [fst]. intros Hc Ht.
    destruct (IH p' h') as (found & Hf & Hs & Hn & Hp).
    exists ((if proven g t use_induct h then [(g, t, w)] else []) ++ found).
    rewrite Hf, Hc, <- app_assoc. split; [reflexivity|]. split; [|split].
    + destruct (proven g t use_induct h); now constructor.
    + rewrite Hn, Ht. simpl. lia.
    + intros g' t' w' Hin. apply in_app_iff in Hin as [Hin|Hin].
      * destruct (proven g t use_induct h) eqn:P; [|destruct Hin].
        destruct Hin as [Hin|[]]. injection Hin as <- <- <-.
        unfold proven in P. apply orb_prop in P as [P|P].
        -- left. now apply String.eqb_eq.
        -- right. exists h.
           destruct (yosys h (call g t use_induct)) as [|result];
             [discriminate|]. eauto.
      * now apply (Hp g' t' w').
Qed.

Lemma reported_when_proven use_induct total pairs p h g w :
  In (g, g, w) pairs ->
  In (g, g, w) (correspondences (fst (loop use_induct total pairs (p, h)))).
Proof.
  unfold loop, test_pairs. revert p h.
  induction pairs as [|[[g' t'] w'] pairs IH]; intros p h Hin; [destruct Hin|].
  cbn [fold_left].
  destruct Hin as [Hin|Hin].
  2:{ destruct (test_pair yosys gold_file gate_file gold_lines gate_lines
                  module_name use_induct total (p, h) (g', t', w'))
        as [p' h'].
      now apply IH. }
  injection Hin as -> -> ->.
  destruct (step_outcome use_induct total p h g g w) as [Hc _].
  unfold step in Hc. revert Hc.
  destruct (test_pair yosys gold_file gate_file gold_lines gate_lines
              module_name use_induct total (p, h) (g, g, w)) as [p' h'].
  cbn [fst]. intros Hc.
  unfold proven in Hc. rewrite String.eqb_refl in Hc. cbn [orb] in Hc.
  destruct (test_pairs_keeps yosys gold_file gate_file gold_lines gate_lines
              module_name use_induct total pairs (p', h')) as [more Hm].
  unfold test_pairs in Hm. rewrite Hm. cbn [fst].
  rewrite Hc, !in_app_iff. left. right. now left.
Qed.

(** X11.  A signal that is in both designs under the same name with the
    same width, and is not a clock, a reset or an I/O port, is always
    among the correspondences [main] reports, whatever the backend
    answers for any pair. *)
Theorem same_named_always_reported
  (use_induct : bool) (gold_signals gate_signals : list (string * nat))
  (g : string) (w : nat) (h : Subprocess.log) :
  In (g, w) gold_signals -> In (g, w) gate_signals ->
  is_internal g = true ->
  In (g, g, w)
    (correspondences
       (fst (discover yosys gold_file gate_file gold_lines gate_lines
               module_name use_induct
               (pairs_to_test gold_signals gate_signals) h))).
Proof.
  intros Hg Ht Hi. unfold discover. fold loop.
  apply reported_when_proven.
  now apply same_named_pair_kept.
Qed.

End DiscoveryLoop.

Section DiscoveryLoopRun.

Import PyStr FindCorrespondences.

Lemma same_named_witness :
  let yosys : Subprocess.backend :=
    fun _ _ => inl Subprocess.TimeoutExpired in
  let gold := [("sum", 8); ("tmp", 8); ("clock", 1)] in
  let gate := [("sum", 8); ("_T", 8); ("clock", 1)] in
  In ("sum", 8) gold /\ In ("sum", 8) gate /\ is_internal "sum" = true /\
  In ("sum", "sum", 8)
    (correspondences
       (fst (discover yosys "gold.sv" "gate.sv" [] [] "M" true
               (pairs_to_test gold gate) []))).
Proof.
  intros yosys gold gate.
  assert (Hg : In ("sum", 8) gold) by (now left).
  assert (Ht : In ("sum", 8) gate) by (now left).
  assert (Hi : is_internal "sum" = true) by reflexivity.
  repeat split; try assumption.
  exact (same_named_always_reported yosys "gold.sv" "gate.sv" [] [] "M" true
           gold gate "sum" 8 [] Hg Ht Hi).
Defined.

End DiscoveryLoopRun.

(** ** Table cells and source excerpts *)

Section Cells.

Import PyStr TraceFifoSignals.

Lemma substring_exact m s :
  m <= String.length s -> String.length (String.substring 0 m s) = m.
Proof.
  revert m; induction s as [|c s IH]; intros [|m] H; simpl in *;
    try reflexivity; try lia.
  rewrite IH; lia.
Qed.

Lemma spaces_length n : String.length (spaces n) = n.
Proof. induction n; simpl; congruence. Qed.

Lemma ljust_length n s : n <= String.length (ljust n s).
Proof. unfold ljust. rewrite length_append, spaces_length. lia. Qed.

(** X12.  [extract_chisel_code] never returns more than 33 characters:
    a longer line is cut to its first 30 characters and three dots.
    For an unreadable file and for a line number that is 0 or beyond the
    last line it returns the empty string. *)
Theorem chisel_code_at_most_33 (file : option (list string)) (line_num : nat) :
  String.length (extract_chisel_code file line_num) <= 33
  /\ (file = None \/ line_num = 0
      \/ (exists lines, file = Some lines /\ List.length lines < line_num) ->
      extract_chisel_code file line_num = EmptyString)
  /\ forall lines,
       file = Some lines -> 1 <= line_num <= List.length lines ->
       let code := strip (List.nth (line_num - 1) lines EmptyString) in
       extract_chisel_code file line_num
       = if 33 <? String.length code
         then String.substring 0 30 code +++ "..."
         else code.
Proof.
  unfold extract_chisel_code. split; [|split].
  - destruct file as [lines|]; [|simpl; lia].
    destruct ((1 <=? line_num) && (line_num <=? List.length lines));
      [|simpl; lia].
    destruct (33 <? String.length _) eqn:E.
    + apply Nat.ltb_lt in E. rewrite length_append, substring_exact by lia.
      simpl. lia.
    + apply Nat.ltb_ge in E. exact E.
  - intros [->|[->|(lines & -> & H)]]; [reflexivity | now destruct file |].
    destruct (1 <=? line_num); [|reflexivity].
    destruct (Nat.leb_spec line_num (List.length lines)); [lia|reflexivity].
  - intros lines -> [H1 H2]. cbv zeta.
    apply Nat.leb_le in H1, H2. now rewrite H1, H2.
Qed.

(** X13.  Every line [format_cell] returns is exactly [width] characters
    wide, whatever the text, and there is one line for each line of the
    text, so at least one. *)
Theorem format_cell_width (text : string) (width : nat) :
  Forall (fun line => String.length line = width) (format_cell text width)
  /\ List.length (format_cell text width) = List.length (split LF text)
  /\ format_cell text width <> [].
Proof.
  unfold format_cell. split; [|split].
  - apply Forall_forall. intros line H. apply in_map_iff in H as (l & <- & _).
    apply substring_exact, ljust_length.
  - apply length_map.
  - destruct text as [|c text]; [discriminate|]. cbn [split].
    destruct (Ascii.eqb c LF); [discriminate|].
    destruct (split LF text); discriminate.
Qed.

End Cells.

(** ** Looking a signal up in the unoptimized design *)

Section Lookup.

Import PyStr TraceFifoSignals.

Lemma find_line_sound name lines i found_name j loc :
  find_line name lines i = Some (found_name, j, loc) ->
  found_name = name /\ i <= j < i + List.length lines
  /\ exists line,
       nth_error lines (j - i) = Some line
       /\ mentions name line = true /\ loc = chisel_loc_of line
       /\ forall k earlier,
            k < j - i -> nth_error lines k = Some earlier ->
            mentions name earlier = false.
Proof.
  revert i. induction lines as [|line lines IH]; intros i H; [discriminate|].
  cbn [find_line] in H. destruct (mentions name line) eqn:M.
  - injection H as <- <- <-. split; [reflexivity|]. split; [simpl; lia|].
    exists line. rewrite Nat.sub_diag. repeat split; auto.
    intros k earlier Hk. lia.
  - apply IH in H as (-> & Hj & line' & Hn & Hm & Hl & He).
    split; [reflexivity|]. split; [simpl; lia|].
    exists line'. replace (j - i) with (S (j - (i + 1))) by lia.
    repeat split; auto.
    intros [|k] earlier Hk Hk'.
    + now injection Hk' as <-.
    + apply (He k); [lia | exact Hk'].
Qed.

Lemma find_line_none name lines i :
  find_line name lines i = None <->
  forall line, In line lines -> mentions name line = false.
Proof.
  revert i. induction lines as [|line lines IH]; intros i.
  - split; [intros _ ? [] | reflexivity].
  - cbn [find_line]. destruct (mentions name line) eqn:M.
    + split; [discriminate|]. intros H.
      specialize (H line (or_introl eq_refl)). congruence.
    + rewrite IH. split.
      * intros H l [<-|Hl]; auto.
      * intros H l Hl. apply H. now right.
Qed.

(** X14.  When [find_in_unoptimized] finds a signal, the line number it
    returns is that of the first line of the file that contains the
    returned name together with "wire" or "assign", and the location is
    the bracketed annotation of that line.  The returned name is the
    requested one, or the requested one without its leading underscore
    when no line mentions the requested name.  It finds nothing exactly
    when no line mentions either name (or the file is unreadable). *)
Theorem find_in_unoptimized_first_line
  (sig_name : string) (lines : list string)
  (name : string) (i : nat) (loc : string) :
  find_in_unoptimized sig_name (Some lines) = Some (name, i, loc) ->
  1 <= i <= List.length lines
  /\ (name = sig_name
      \/ (startswith "_" sig_name = true /\ name = drop1 sig_name
          /\ forall line, In line lines -> mentions sig_name line = false))
  /\ exists line,
       nth_error lines (i - 1) = Some line
       /\ mentions name line = true /\ loc = chisel_loc_of line
       /\ forall k earlier,
            k < i - 1 -> nth_error lines k = Some earlier ->
            mentions name earlier = false.
Proof.
  unfold find_in_unoptimized.
  destruct (find_line sig_name lines 1) as [[[n j] l]|] eqn:E.
  - intros H. injection H as -> -> ->.
    apply find_line_sound in E as (-> & Hj & line & H).
    split; [lia|]. split; [now left|]. now exists line.
  - destruct (startswith "_" sig_name) eqn:S; [|discriminate].
    intros H. apply find_line_sound in H as (-> & Hj & line & H).
    split; [lia|]. split; [|now exists line].
    right. repeat split; auto. now apply (find_line_none sig_name lines 1).
Qed.

Lemma find_in_unoptimized_witness :
  let lines := ["module Foo("; "  wire y = a; // @[F.scala:1:2]";
                "  wire x = y; // @[F.scala:3:4]"] in
  find_in_unoptimized "_x" (Some lines) = Some ("x", 3, "F.scala:3:4")
  /\ 1 <= 3 <= List.length lines
  /\ nth_error lines 2 = Some "  wire x = y; // @[F.scala:3:4]".
Proof.
  intros lines.
  assert (H : find_in_unoptimized "_x" (Some lines)
              = Some ("x", 3, "F.scala:3:4")) by reflexivity.
  destruct (find_in_unoptimized_first_line "_x" lines "x" 3 "F.scala:3:4" H)
    as (Hi & _ & _).
  split; [exact H|]. split; [exact Hi | reflexivity].
Defined.

(** X15.  [find_in_unoptimized] returns nothing exactly when the file is
    unreadable or no line mentions the name, nor, for a name with a
    leading underscore, the name without it. *)
Theorem find_in_unoptimized_none
  (sig_name : string) (file : option (list string)) :
  find_in_unoptimized sig_name file = None <->
  file = None
  \/ exists lines,
       file = Some lines
       /\ (forall line, In line lines -> mentions sig_name line = false)
       /\ (startswith "_" sig_name = true ->
           forall line, In line lines ->
                        mentions (drop1 sig_name) line = false).
Proof.
  unfold find_in_unoptimized. destruct file as [lines|].
  2:{ split; [now left | reflexivity]. }
  destruct (find_line sig_name lines 1) as [found|] eqn:E.
  - split; [discriminate|]. intros [H|(l & H & H1 & _)]; [discriminate|].
    injection H as <-.
    apply (proj2 (find_line_none sig_name lines 1)) in H1. congruence.
  - pose proof (proj1 (find_line_none _ _ _) E) as E'.
    destruct (startswith "_" sig_name).
    + rewrite find_line_none. split.
      * intros H. right. exists lines. auto.
      * intros [H|(l & H & _ & H2)]; [discriminate|].
        injection H as <-. now apply H2.
    + split; [|reflexivity]. intros _. right. exists lines.
      repeat split; auto. discriminate.
Qed.

End Lookup.

(** ** What a match consumes and captures *)

Section MatcherSoundness.

Import PyStr Re.

Lemma contains_mid a p b : contains p (a +++ p +++ b) = true.
Proof. apply contains_iff. eauto. Qed.

Lemma contains_suffix p a s : contains p s = true -> contains p (a +++ s) = true.
Proof.
  rewrite !contains_iff. intros (x & y & ->). exists (a +++ x), y.
  now rewrite append_assoc.
Qed.

Lemma contains_prefix p s b : contains p s = true -> contains p (s +++ b) = true.
Proof.
  rewrite !contains_iff. intros (x & y & ->). exists x, (y +++ b).
  now rewrite !append_assoc.
Qed.

(** A successful run hands its continuation a suffix of the input and
    the old captures under new ones, each of them a piece of the input. *)
Lemma run_inv r : forall s caps k res,
  run r s caps k = Some res ->
  exists mid s' new,
    s = mid +++ s' /\ k s' (new ++ caps) = Some res
    /\ Forall (fun e => contains (snd e) s = true) new.
Proof.
  induction r as [t|p|p|p|r1 IH1 r2 IH2|r1 IH1 r2 IH2|r1 IH1|i r1 IH1|r1 IH1];
    intros s caps k res H; cbn [run] in H.
  - destruct (lit t s) as [s'|] eqn:E; [|discriminate].
    apply lit_inv in E. exists t, s', []. auto.
  - destruct s as [|c s]; [discriminate|].
    destruct (p c); [|discriminate].
    exists (String c EmptyString), s, []. auto.
  - apply plus_inv in H as (ds & rest & -> & _ & _ & H).
    exists ds, rest, []. auto.
  - apply star_inv in H as (ds & rest & -> & _ & H).
    exists ds, rest, []. auto.
  - apply IH1 in H as (m1 & s1 & n1 & -> & H & F1).
    apply IH2 in H as (m2 & s2 & n2 & -> & H & F2).
    exists (m1 +++ m2), s2, (n2 ++ n1).
    rewrite append_assoc, <- app_assoc. repeat split; auto.
    apply Forall_app. split; [|exact F1].
    eapply Forall_impl; [|exact F2]. intros e. apply contains_suffix.
  - destruct (run r1 s caps k) as [x|] eqn:E.
    + injection H as ->. now apply IH1 in E.
    + now apply IH2 in H.
  - destruct (run r1 s caps k) as [x|] eqn:E.
    + injection H as ->. now apply IH1 in E.
    + exists EmptyString, s, []. auto.
  - apply IH1 in H as (m & s' & n & -> & H & F).
    rewrite consumed_append in H.
    exists m, s', ((i, m) :: n). repeat split; auto.
    constructor; [|exact F]. cbn [snd].
    apply (contains_mid EmptyString m s').
  - destruct (run r1 s caps _); [discriminate|].
    exists EmptyString, s, []. auto.
Qed.

Lemma search_inv r s res :
  re_search r s = Some res ->
  exists pre t, s = pre +++ t /\ re_match r t = Some res.
Proof.
  induction s as [|c s IH]; cbn [re_search];
    destruct (re_match r _) as [x|] eqn:E; intros H.
  - injection H as ->. exists EmptyString, EmptyString. auto.
  - discriminate.
  - injection H as ->. exists EmptyString, (String c s). auto.
  - destruct (IH H) as (pre & t & -> & Ht). exists (String c pre), t. auto.
Qed.

Lemma group_text_piece i caps s :
  Forall (fun e => contains (snd e) s = true) caps ->
  contains (TraceSignal.group_text i caps) s = true.
Proof.
  unfold TraceSignal.group_text, group. intros F.
  destruct (find _ caps) as [e|] eqn:E.
  - apply find_some in E as [E _].
    rewrite Forall_forall in F. rewrite or_else_some. exact (F e E).
  - apply (contains_mid EmptyString EmptyString s).
Qed.

(** Every group of a successful search is a piece of the searched text. *)
Lemma search_group r s rest caps i :
  re_search r s = Some (rest, caps) ->
  contains (TraceSignal.group_text i caps) s = true.
Proof.
  intros H. apply search_inv in H as (pre & t & -> & H).
  apply contains_suffix. unfold re_match in H.
  apply run_inv in H as (m & s' & n & -> & H & F).
  injection H as _ <-. rewrite app_nil_r. now apply group_text_piece.
Qed.

(** A pattern that starts with literal text is only found in a text that
    contains it. *)
Lemma search_literal t r s res :
  re_search (Cat (Lit t) r) s = Some res -> contains t s = true.
Proof.
  intros H. apply search_inv in H as (pre & u & -> & H).
  unfold re_match in H. cbn [run] in H.
  destruct (lit t u) as [u'|] eqn:E; [|discriminate].
  apply lit_inv in E as ->. apply contains_mid.
Qed.

End MatcherSoundness.

(** ** The signals of the optimized design *)

Section Signals.

Import PyStr Re TraceFifoSignals.

Let line_no (sig : string * nat * string * string) : nat :=
  snd (fst (fst sig)).

Lemma mentions_wire name line :
  contains name line = true -> contains "wire" line = true ->
  mentions name line = true.
Proof. unfold mentions. now intros -> ->. Qed.

Lemma mentions_assign name line :
  contains name line = true -> contains "assign" line = true ->
  mentions name line = true.
Proof. unfold mentions. intros -> ->. now rewrite orb_true_r. Qed.

Lemma signal_of_line_sound i line expr j name loc :
  signal_of_line i line = Some (expr, j, name, loc) ->
  j = i /\ skipped line = false /\ mentions name line = true
  /\ loc = chisel_loc_of line.
Proof.
  unfold signal_of_line. destruct (skipped line); [discriminate|].
  destruct (re_search re_wire_assign line) as [[r1 c1]|] eqn:E1.
  { intros H. injection H as <- <- <- <-. repeat split; auto.
    apply mentions_wire; [now apply (search_group _ _ _ _ 1) in E1|].
    now apply search_literal in E1. }
  destruct (re_search re_wire_decl line) as [[r2 c2]|] eqn:E2.
  { intros H. injection H as <- <- <- <-. repeat split; auto.
    apply mentions_wire; [now apply (search_group _ _ _ _ 1) in E2|].
    now apply search_literal in E2. }
  destruct (re_search re_assign line) as [[r3 c3]|] eqn:E3; [|discriminate].
  intros H. injection H as <- <- <- <-. repeat split; auto.
  apply mentions_assign; [now apply (search_group _ _ _ _ 1) in E3|].
  now apply search_literal in E3.
Qed.

Lemma signals_from_sound lines : forall i expr j name loc,
  In (expr, j, name, loc) (signals_from i lines) ->
  i <= j
  /\ exists line,
       nth_error lines (j - i) = Some line /\ skipped line = false
       /\ mentions name line = true /\ loc = chisel_loc_of line.
Proof.
  induction lines as [|line lines IH]; intros i expr j name loc H; [easy|].
  cbn [signals_from] in H.
  assert (R : In (expr, j, name, loc) (signals_from (i + 1) lines) ->
              i <= j /\ exists l, nth_error (line :: lines) (j - i) = Some l
                /\ skipped l = false /\ mentions name l = true
                /\ loc = chisel_loc_of l).
  { intros H'. apply IH in H' as (Hj & l & Hn & Hl). split; [lia|].
    exists l. replace (j - i) with (S (j - (i + 1))) by lia. now split. }
  destruct (signal_of_line i line) as [[[[e' j'] n'] l']|] eqn:E; [|auto].
  destruct H as [H|H]; [|auto].
  injection H as -> -> -> ->.
  apply signal_of_line_sound in E as (-> & E). split; [lia|].
  exists line. now rewrite Nat.sub_diag.
Qed.

Lemma signals_from_increasing lines : forall i n m x y,
  n < m ->
  nth_error (signals_from i lines) n = Some x ->
  nth_error (signals_from i lines) m = Some y ->
  line_no x < line_no y.
Proof.
  induction lines as [|line lines IH]; intros i n m x y Hnm Hx Hy.
  - now destruct n.
  - cbn [signals_from] in Hx, Hy.
    destruct (signal_of_line i line) as [[[[e j] nm] l]|] eqn:E;
      [|now apply (IH (i + 1) n m)].
    apply signal_of_line_sound in E as (-> & _).
    destruct m as [|m]; [lia|]. cbn [nth_error] in Hy.
    destruct n as [|n].
    + injection Hx as <-. apply nth_error_In in Hy.
      destruct y as [[[e' j'] n'] l'].
      apply signals_from_sound in Hy as [Hy _]. unfold line_no. simpl. lia.
    + cbn [nth_error] in Hx. apply (IH (i + 1) n m); auto. lia.
Qed.

(** X16.  Every tuple [extract_all_signals_from_optimized] returns
    carries the number of a line of the file that is not a module or
    port line and that contains the signal name together with "wire" or
    "assign"; its location is the bracketed annotation of that line (the
    empty string if there is none).  No line gives two tuples and the
    tuples come in the order of the lines.  An unreadable file gives no
    tuple. *)
Theorem extracted_signals_sound (lines : list string) :
  let sigs := extract_all_signals_from_optimized (Some lines) in
  (forall expr i name loc,
     In (expr, i, name, loc) sigs ->
     1 <= i <= List.length lines
     /\ exists line,
          nth_error lines (i - 1) = Some line /\ skipped line = false
          /\ mentions name line = true /\ loc = chisel_loc_of line)
  /\ (forall n m x y,
        n < m -> nth_error sigs n = Some x -> nth_error sigs m = Some y ->
        snd (fst (fst x)) < snd (fst (fst y)))
  /\ extract_all_signals_from_optimized None = [].
Proof.
  cbn [extract_all_signals_from_optimized]. split; [|split].
  - intros expr i name loc H.
    apply signals_from_sound in H as (Hi & line & Hn & H).
    split; [|now exists line].
    assert (i - 1 < List.length lines)
      by (apply nth_error_Some; congruence).
    lia.
  - apply signals_from_increasing.
  - reflexivity.
Qed.

(** X17.  A signal extracted from a file is found again by
    [find_in_unoptimized] in the same file, under the same name, on its
    own line or an earlier one. *)
Theorem extracted_signal_found_again
  (lines : list string) (expr : string) (i : nat) (name loc : string) :
  In (expr, i, name, loc) (extract_all_signals_from_optimized (Some lines)) ->
  exists j found_loc,
    find_in_unoptimized name (Some lines) = Some (name, j, found_loc)
    /\ 1 <= j <= i.
Proof.
  cbn [extract_all_signals_from_optimized]. intros H.
  apply signals_from_sound in H as (Hi & line & Hn & _ & Hm & _).
  unfold find_in_unoptimized.
  destruct (find_line name lines 1) as [[[n j] l]|] eqn:E.
  - apply find_line_sound in E as (-> & Hj & l' & Hl' & _ & _ & He).
    exists j, l. split; [reflexivity|]. split; [lia|].
    destruct (Nat.le_gt_cases j i) as [|Hgt]; [assumption|].
    rewrite (He (i - 1) line) in Hm; [discriminate | lia | exact Hn].
  - apply nth_error_In in Hn.
    rewrite (proj1 (find_line_none name lines 1) E line Hn) in Hm.
    discriminate.
Qed.

Lemma extracted_signal_witness :
  let lines := ["module Foo("; "  input a,";
                "  wire [3:0] x = a + 1; // @[F.scala:7:9]"] in
  In ("a + 1", 3, "x", "F.scala:7:9")
     (extract_all_signals_from_optimized (Some lines))
  /\ exists j found_loc,
       find_in_unoptimized "x" (Some lines) = Some ("x", j, found_loc)
       /\ 1 <= j <= 3.
Proof.
  intros lines.
  assert (H : In ("a + 1", 3, "x", "F.scala:7:9")
                 (extract_all_signals_from_optimized (Some lines)))
    by (left; reflexivity).
  split; [exact H|].
  exact (extracted_signal_found_again lines "a + 1" 3 "x" "F.scala:7:9" H).
Defined.

End Signals.

(** ** The groups of the rendered cell *)

Section ShownGroups.

Import PyStr TraceFifoSignals.

Let cols_of (l : nat) (d : list (nat * list nat)) : list nat :=
  match find (fun e => fst e =? l) d with
  | Some e => snd e
  | None => []
  end.

Let on_line (l : nat) (locs : list (nat * nat)) : list nat :=
  map snd (filter (fun lc => fst lc =? l) locs).

Lemma cols_of_append l line col d :
  cols_of l (dict_append line col d)
  = if line =? l then cols_of l d ++ [col] else cols_of l d.
Proof.
  unfold cols_of. induction d as [|[l' cols] d IH]; cbn [dict_append find fst].
  - destruct (line =? l); reflexivity.
  - destruct (Nat.eqb_spec l' line) as [->|Hne]; cbn [find fst snd].
    + destruct (line =? l); reflexivity.
    + destruct (Nat.eqb_spec l' l) as [->|Hne'].
      * destruct (Nat.eqb_spec line l); [congruence | reflexivity].
      * exact IH.
Qed.

Lemma cols_of_fold l locs : forall d,
  cols_of l (fold_left (fun d lc => dict_append (fst lc) (snd lc) d) locs d)
  = cols_of l d ++ on_line l locs.
Proof.
  unfold on_line.
  induction locs as [|[line col] locs IH]; intros d; cbn [fold_left].
  - now rewrite app_nil_r.
  - rewrite IH, cols_of_append. cbn [filter fst snd].
    destruct (line =? l); [|reflexivity].
    cbn [map snd]. now rewrite <- app_assoc.
Qed.

Lemma cols_of_in l cols d :
  NoDup (map fst d) -> In (l, cols) d -> cols_of l d = cols.
Proof.
  unfold cols_of. induction d as [|[l' c'] d IH]; [easy|].
  cbn [map fst find]. intros N H. inversion N as [|? ? Hnot N']; subst.
  destruct H as [H|H].
  - injection H as -> ->. now rewrite Nat.eqb_refl.
  - destruct (Nat.eqb_spec l' l) as [->|Hne]; [|now apply IH].
    exfalso. apply Hnot. apply in_map_iff. now exists (l, cols).
Qed.

Lemma loc_by_line_nodup locs : NoDup (map fst (loc_by_line locs)).
Proof.
  destruct (loc_fold locs []) as (_ & _ & H & _). apply H. constructor.
Qed.

Lemma loc_by_line_cols locs l cols :
  In (l, cols) (loc_by_line locs) -> cols = on_line l locs.
Proof.
  intros H. rewrite <- (cols_of_in l cols _ (loc_by_line_nodup locs) H).
  unfold loc_by_line. now rewrite cols_of_fold.
Qed.

Lemma loc_by_line_keys locs l :
  In l (map fst (loc_by_line locs)) <-> In l (map fst locs).
Proof.
  destruct (loc_fold locs []) as (_ & H & _). cbn zeta in H.
  unfold loc_by_line. rewrite H. simpl. tauto.
Qed.

Lemma insert_by_sorted {A} (key : A -> nat) x l :
  StronglySorted (fun a b => key a <= key b) l ->
  StronglySorted (fun a b => key a <= key b) (insert_by key x l).
Proof.
  induction l as [|y l IH]; intros H; cbn [insert_by].
  - repeat constructor.
  - inversion H as [|? ? Hs Hf]; subst.
    destruct (Nat.ltb_spec (key x) (key y)) as [Hlt|Hge].
    + constructor; [exact H|]. constructor; [lia|].
      eapply Forall_impl; [|exact Hf]. intros a Ha. simpl in Ha. lia.
    + constructor; [now apply IH|].
      apply (Permutation_Forall (Permutation_sym (insert_by_perm key x l))).
      now constructor.
Qed.

Lemma sorted_by_sorted {A} (key : A -> nat) (l : list A) :
  StronglySorted (fun a b => key a <= key b) (sorted_by key l).
Proof.
  unfold sorted_by.
  assert (G : forall acc,
             StronglySorted (fun a b => key a <= key b) acc ->
             StronglySorted (fun a b => key a <= key b)
               (fold_left (fun acc x => insert_by key x acc) l acc)).
  { induction l as [|x l IH]; intros acc H; [exact H|].
    cbn [fold_left]. now apply IH, insert_by_sorted. }
  apply G. constructor.
Qed.

Lemma sorted_strict {A} (key : A -> nat) (l : list A) :
  NoDup (map key l) ->
  StronglySorted (fun a b => key a <= key b) l ->
  StronglySorted (fun a b => key a < key b) l.
Proof.
  induction l as [|x l IH]; intros N H; [constructor|].
  inversion H as [|? ? Hs Hf]; subst. cbn [map] in N.
  inversion N as [|? ? Hnot N']; subst.
  constructor; [now apply IH|].
  rewrite Forall_forall in *. intros y Hy.
  assert (key x <> key y).
  { intros E. apply Hnot. rewrite E. now apply in_map. }
  specialize (Hf y Hy). simpl in Hf. lia.
Qed.

Lemma sorted_firstn {A} (R : A -> A -> Prop) (l : list A) : forall n,
  StronglySorted R l -> StronglySorted R (firstn n l).
Proof.
  induction l as [|x l IH]; intros [|n] H; cbn [firstn]; try constructor.
  - inversion H; subst. now apply IH.
  - inversion H as [|? ? _ Hf]; subst.
    rewrite Forall_forall in *. intros y Hy. apply Hf.
    rewrite <- (firstn_skipn n l). apply in_or_app. now left.
Qed.

Lemma sorted_split {A} (R : A -> A -> Prop) (l : list A) : forall n x y,
  StronglySorted R l -> In x (firstn n l) -> In y (skipn n l) -> R x y.
Proof.
  induction l as [|a l IH]; intros [|n] x y H Hx Hy;
    cbn [firstn skipn] in *; try easy.
  inversion H as [|? ? Hs Hf]; subst. destruct Hx as [->|Hx].
  - rewrite Forall_forall in Hf. apply Hf.
    rewrite <- (firstn_skipn n l). apply in_or_app. now right.
  - now apply (IH n).
Qed.

Lemma groups_sorted locs :
  StronglySorted (fun a b => fst a < fst b)
    (sorted_by fst (loc_by_line locs)).
Proof.
  apply sorted_strict; [|apply sorted_by_sorted].
  apply (Permutation_NoDup
           (Permutation_sym
              (Permutation_map fst (sorted_by_perm fst (loc_by_line locs))))).
  apply loc_by_line_nodup.
Qed.

(** X18.  The groups that reach the table cell are at most three, on
    different lines and in ascending order of line; each carries all the
    columns of its line, in the order of the location list; and they are
    the smallest lines: a line of the list that is not shown is larger
    than the three shown ones. *)
Theorem shown_groups_smallest_lines (locs : list (nat * nat)) :
  let shown := shown_groups locs in
  List.length shown <= 3
  /\ StronglySorted (fun a b => fst a < fst b) shown
  /\ (forall l cols,
        In (l, cols) shown ->
        cols = map snd (filter (fun lc => fst lc =? l) locs) /\ cols <> [])
  /\ (forall l,
        In l (map fst locs) ->
        In l (map fst shown)
        \/ (List.length shown = 3
            /\ forall l', In l' (map fst shown) -> l' < l)).
Proof.
  cbv zeta. unfold shown_groups.
  pose proof (groups_sorted locs) as S.
  pose proof (sorted_by_perm fst (loc_by_line locs)) as P.
  set (L := sorted_by fst (loc_by_line locs)) in *.
  split; [apply firstn_le_length|].
  split; [now apply sorted_firstn|].
  split.
  - intros l cols H.
    assert (H' : In (l, cols) (loc_by_line locs)).
    { apply (Permutation_in _ P).
      rewrite <- (firstn_skipn 3 L). apply in_or_app. now left. }
    split; [now apply loc_by_line_cols|].
    pose proof (loc_by_line_nonempty locs) as F.
    rewrite Forall_forall in F. exact (F _ H').
  - intros l Hl. apply loc_by_line_keys in Hl.
    apply in_map_iff in Hl as ([l0 cols] & <- & Hl).
    apply (Permutation_in _ (Permutation_sym P)) in Hl.
    rewrite <- (firstn_skipn 3 L) in Hl.
    apply in_app_or in Hl as [Hl|Hl].
    + left. apply in_map_iff. now exists (l0, cols).
    + right. split.
      * apply firstn_length_le.
        destruct (Nat.le_gt_cases 3 (List.length L)) as [|Hlt]; [assumption|].
        rewrite skipn_all2 in Hl by lia. destruct Hl.
      * intros l' Hl'. apply in_map_iff in Hl' as (g & <- & Hg).
        apply (sorted_split _ L 3 g (l0, cols) S Hg Hl).
Qed.

End ShownGroups.

(** ** Location strings without locations *)

Section ParseEdges.

Import PyStr Re TraceFifoSignals.

Lemma findall_none r s : forall skip,
  (forall pre t, s = pre +++ t -> re_match r t = None) ->
  findall_from r s skip = [].
Proof.
  induction s as [|c s IH]; intros skip H.
  - destruct skip; cbn [findall_from]; [|reflexivity].
    now rewrite (H EmptyString EmptyString eq_refl).
  - assert (H' : forall pre t, s = pre +++ t -> re_match r t = None).
    { intros pre t ->. now apply (H (String c pre)). }
    destruct skip; cbn [findall_from]; [|now apply IH].
    rewrite (H EmptyString (String c s) eq_refl). now apply IH.
Qed.

Lemma match_literal t r s res :
  re_match (Cat (Lit t) r) s = Some res -> exists s', s = t +++ s'.
Proof.
  unfold re_match. cbn [run]. destruct (lit t s) as [s'|] eqn:E; [|discriminate].
  intros _. apply lit_inv in E. eauto.
Qed.

Lemma brace_needs_brace t res :
  re_match re_brace t = Some res -> contains "{" t = true.
Proof.
  unfold re_match, re_brace. cbn [seq run]. intros H.
  destruct (lit ":" t) as [t1|] eqn:E1; [|discriminate].
  apply lit_inv in E1 as ->.
  apply plus_inv in H as (ds & t2 & -> & _ & _ & H).
  destruct (lit ":{" t2) as [t3|] eqn:E2; [|discriminate].
  apply lit_inv in E2 as ->.
  apply contains_iff. exists (":" +++ ds +++ ":"), t3.
  now rewrite !append_assoc.
Qed.

(** X19.  A location string without a colon has no location: the result
    is the empty list.  A location string without an opening brace never
    makes [parse_chisel_locations] raise: the result is one pair for each
    match of the simple form. *)
Theorem parse_without_locations (loc_string : string) :
  (contains ":" loc_string = false ->
   parse_chisel_locations loc_string = Some [])
  /\ (contains "{" loc_string = false ->
      parse_chisel_locations loc_string
      = Some (map (fun caps => (int_of (group_str 1 caps),
                                int_of (group_str 2 caps)))
                (findall re_simple loc_string))).
Proof.
  unfold parse_chisel_locations, findall. split; intros H.
  - rewrite !findall_none; [reflexivity | |];
      intros pre t ->;
      match goal with |- ?m = None => destruct m as [res|] eqn:E end;
      try reflexivity;
      apply match_literal in E as [s' ->];
      rewrite (contains_mid pre ":" s') in H; discriminate.
  - rewrite (findall_none re_brace); [cbn; now rewrite app_nil_r|].
    intros pre t ->.
    destruct (re_match re_brace t) as [res|] eqn:E; [|reflexivity].
    apply brace_needs_brace in E.
    rewrite (contains_suffix _ pre _ E) in H. discriminate.
Qed.

Lemma parse_without_locations_witness :
  contains ":" "Fifo.scala" = false
  /\ parse_chisel_locations "Fifo.scala" = Some []
  /\ contains "{" "Fifo.scala:12:7 :14:3" = false
  /\ parse_chisel_locations "Fifo.scala:12:7 :14:3"
     = Some [(12, 7); (14, 3)].
Proof.
  split; [reflexivity|].
  split; [apply (proj1 (parse_without_locations "Fifo.scala")); reflexivity|].
  split; [reflexivity|].
  rewrite (proj2 (parse_without_locations "Fifo.scala:12:7 :14:3") eq_refl).
  reflexivity.
Defined.

End ParseEdges.

(** ** The signal table read from a dump *)

Section SignalTable.

Import PyStr Re FindCorrespondences.

Let step (signals : list (string * nat)) (raw : string) : list (string * nat) :=
  match re_match re_signal (strip raw) with
  | Some (_, caps) =>
      dict_set (TraceSignal.group_text 2 caps)
        (int_of (TraceSignal.group_text 1 caps)) signals
  | None => signals
  end.

Lemma digit_not_space d : isdigit d = true -> isspace d = false.
Proof.
  unfold isdigit, isspace. destruct (code d) as [|n]; [discriminate|].
  intros H. apply andb_prop in H as [H1 H2].
  apply Nat.leb_le in H1, H2.
  repeat match goal with
         | |- context [?a <=? ?b] =>
             destruct (Nat.leb_spec a b); try lia
         | |- context [?a =? ?b] =>
             destruct (Nat.eqb_spec a b); try lia
         end; reflexivity.
Qed.

Lemma wire_name_chars name :
  wire_name name = true ->
  name <> EmptyString /\ all_chars (fun c => negb (isspace c)) name = true.
Proof. destruct name; [discriminate|]. intros H. split; [discriminate|exact H]. Qed.

Lemma signal_hit w name :
  wire_name name = true ->
  re_match re_signal ("wire width " +++ str_of_int w +++ " \" +++ name)
  = Some (EmptyString, [(2, name); (1, str_of_int w)]).
Proof.
  intros Hn. apply wire_name_chars in Hn as [Hne Hn].
  destruct name as [|c name]; [congruence|].
  unfold re_match, re_signal. cbn [seq run].
  change ("wire width " +++ ?x) with ("wire" +++ " " +++ "width" +++ " " +++ x).
  cbn beta. rewrite lit_app.
  apply (plus_greedy isspace " " EmptyString); [reflexivity | reflexivity |].
  cbn beta. rewrite lit_app.
  destruct (str_nonempty w) as (d & ds & E).
  pose proof (str_digits w) as D. rewrite E in *.
  assert (Hd : isspace d = false).
  { apply digit_not_space. simpl in D. now apply andb_prop in D as [D _]. }
  erewrite (plus_greedy isspace " " EmptyString); [reflexivity | reflexivity | | ].
  { cbn [String.append head_fails]. now rewrite Hd. }
  apply plus_greedy; [exact D | reflexivity |].
  apply (plus_greedy isspace " " EmptyString); [reflexivity | reflexivity |].
  cbn [lit]. cbn [Ascii.eqb Bool.eqb]. cbn iota.
  apply plus_all; [exact Hn|].
  rewrite consumed_all.
  now rewrite (consumed_append (String d ds) (" \" +++ String c name)).
Qed.

Lemma strip_wide w name :
  wire_name name = true ->
  strip ("  wire width " +++ str_of_int w +++ " \" +++ name)
  = "wire width " +++ str_of_int w +++ " \" +++ name.
Proof.
  intros Hn. apply wire_name_chars in Hn as [Hne Hn].
  transitivity
    (strip (String "w" ("ire width " +++ str_of_int w +++ " \") +++ name)).
  { unfold strip. cbn [String.append lstrip]. rewrite !append_assoc.
    reflexivity. }
  rewrite strip_keep by (reflexivity || assumption).
  cbn [String.append]. rewrite !append_assoc. reflexivity.
Qed.

Lemma strip_single name :
  wire_name name = true -> strip ("  wire \" +++ name) = "wire \" +++ name.
Proof.
  intros Hn. apply wire_name_chars in Hn as [Hne Hn].
  apply (strip_keep "w" "ire \" name); auto.
Qed.

Lemma step_wide signals name w :
  wire_name name = true ->
  step signals (declaration (name, Some w)) = dict_set name w signals.
Proof.
  intros Hn. unfold step, declaration. cbn [fst snd].
  rewrite (strip_wide w name Hn), (signal_hit w name Hn).
  unfold TraceSignal.group_text, group. cbn [find fst snd Nat.eqb].
  now rewrite !or_else_some, int_of_str.
Qed.

Lemma step_single signals name :
  wire_name name = true ->
  step signals (declaration (name, None)) = signals.
Proof.
  intros Hn. unfold step, declaration. cbn [fst snd].
  now rewrite (strip_single name Hn).
Qed.

Lemma steps_declarations ds : forall signals,
  forallb (fun d => wire_name (fst d)) ds = true ->
  fold_left step (map declaration ds) signals
  = fold_left (fun t e => dict_set (fst e) (snd e) t) (wide ds) signals.
Proof.
  induction ds as [|[name [w|]] ds IH]; intros signals H; [reflexivity|..];
    cbn [forallb fst] in H; apply andb_prop in H as [Hn H];
    cbn [map fold_left wide flat_map app fst snd].
  - rewrite step_wide by exact Hn. now apply IH.
  - rewrite step_single by exact Hn. now apply IH.
Qed.

Lemma dict_set_new name w d :
  ~ In name (map fst d) -> dict_set name w d = d ++ [(name, w)].
Proof.
  induction d as [|[k v] d IH]; intros H; [reflexivity|].
  cbn [dict_set app]. cbn [map fst In] in H.
  destruct (String.eqb_spec k name) as [->|Hne]; [tauto|].
  rewrite IH; tauto.
Qed.

Lemma dict_set_distinct es : forall d,
  NoDup (map fst (d ++ es)) ->
  fold_left (fun t e => dict_set (fst e) (snd e) t) es d = d ++ es.
Proof.
  induction es as [|[name w] es IH]; intros d N; cbn [fold_left fst snd].
  - now rewrite app_nil_r.
  - rewrite dict_set_new.
    + rewrite IH; rewrite <- app_assoc; [reflexivity | exact N].
    + rewrite map_app in N. cbn [map fst] in N.
      apply NoDup_remove_2 in N. intros H. apply N.
      apply in_or_app. now left.
Qed.

Lemma declaration_one_line d :
  wire_name (fst d) = true -> all_chars (notchr LF) (declaration d) = true.
Proof.
  intros H. apply wire_name_chars in H as [_ H].
  apply nonspace_not_lf in H. destruct d as [name [w|]];
    unfold declaration; cbn [fst snd] in *.
  - rewrite !all_chars_app, H.
    rewrite (nonspace_not_lf (str_of_int w)); [reflexivity|].
    eapply all_chars_weaken; [|apply str_digits].
    intros c Hc. now rewrite digit_not_space.
  - rewrite all_chars_app, H. reflexivity.
Qed.

(** X20.  The signal table read from a dump of wire declarations holds
    exactly the wires declared with a width, in the order of the dump:
    a wire of one bit, which the dump declares without a width, is not
    in the table.  When a name is declared twice the first position is
    kept and the last width wins. *)
Theorem signal_table_round_trip (ds : list (string * option nat)) :
  forallb (fun d => wire_name (fst d)) ds = true ->
  let stdout := TraceSignal.unlines (map declaration ds) in
  signals_of_dump stdout
  = fold_left (fun t e => dict_set (fst e) (snd e) t) (wide ds) []
  /\ (NoDup (map fst (wide ds)) -> signals_of_dump stdout = wide ds).
Proof.
  intros H stdout.
  assert (E : signals_of_dump stdout
              = fold_left (fun t e => dict_set (fst e) (snd e) t) (wide ds) []).
  { unfold signals_of_dump, stdout. rewrite split_unlines.
    - rewrite fold_left_app. cbn [fold_left].
      change (fold_left _ (map declaration ds) []) with
        (fold_left step (map declaration ds) []).
      rewrite steps_declarations by exact H. reflexivity.
    - apply Forall_forall. intros l Hl.
      apply in_map_iff in Hl as (d & <- & Hd).
      apply declaration_one_line.
      rewrite forallb_forall in H. now apply H. }
  split; [exact E|].
  intros N. rewrite E. now apply (dict_set_distinct (wide ds) []).
Qed.

Lemma signal_table_witness :
  let ds := [("clock", None); ("acc", Some 16); ("sum", Some 8)] in
  forallb (fun d => wire_name (fst d)) ds = true
  /\ signals_of_dump (TraceSignal.unlines (map declaration ds))
     = [("acc", 16); ("sum", 8)].
Proof.
  intros ds. assert (H : forallb (fun d => wire_name (fst d)) ds = true)
    by reflexivity.
  split; [exact H|].
  destruct (signal_table_round_trip ds H) as [E _]. rewrite E. reflexivity.
Defined.

End SignalTable.

(** ** The rows of the table *)

Section TableRows.

Import PyStr TraceFifoSignals.

Variable widths : list nat.

(** Every cell has at least one line and all its lines have the width of
    its column. *)
Let aligned (cell_lines : list (list string)) : Prop :=
  forall k lines,
    nth_error cell_lines k = Some lines ->
    exists w, nth_error widths k = Some w /\ lines <> []
              /\ Forall (fun l => String.length l = w) lines.

Lemma format_cell_lines text width :
  Forall (fun line => String.length line = width) (format_cell text width).
Proof.
  unfold format_cell. apply Forall_forall. intros line H.
  apply in_map_iff in H as (l & <- & _).
  apply substring_exact, ljust_length.
Qed.

Lemma format_cell_nonempty text width : format_cell text width <> [].
Proof.
  unfold format_cell. destruct text as [|c text]; [discriminate|].
  cbn [split]. destruct (Ascii.eqb c LF); [discriminate|].
  destruct (split LF text); discriminate.
Qed.

Lemma lines_eqb_eq a b : lines_eqb a b = true <-> a = b.
Proof.
  unfold lines_eqb. destruct (list_eq_dec string_dec a b); split;
    congruence.
Qed.

Lemma index_of_found lines cell_lines j :
  nth_error cell_lines j = Some lines ->
  exists k, index_of lines cell_lines = Some k
            /\ nth_error cell_lines k = Some lines.
Proof.
  revert j. induction cell_lines as [|other rest IH]; intros j H.
  - now destruct j.
  - cbn [index_of]. destruct (lines_eqb other lines) eqn:E.
    + apply lines_eqb_eq in E as ->. now exists 0.
    + destruct j as [|j].
      * injection H as ->.
        assert (lines_eqb lines lines = true) by now apply lines_eqb_eq.
        congruence.
      * destruct (IH j H) as (k & -> & Hk). now exists (S k).
Qed.

Lemma nth_error_update {A} (l : list A) : forall j x k,
  nth_error (update j x l) k
  = if (k =? j) && (j <? List.length l) then Some x else nth_error l k.
Proof.
  induction l as [|y l IH]; intros j x k.
  - destruct j; cbn [update]; now rewrite andb_false_r.
  - destruct j as [|j], k as [|k]; cbn [update nth_error]; try reflexivity.
    rewrite IH. reflexivity.
Qed.

Lemma update_update {A} (l : list A) : forall j x y,
  update j y (update j x l) = update j y l.
Proof.
  induction l as [|z l IH]; intros [|j] x y; cbn [update];
    try reflexivity.
  now rewrite IH.
Qed.

Lemma update_app {A} (done : list A) x y todo :
  update (List.length done) y (done ++ x :: todo) = done ++ y :: todo.
Proof.
  induction done as [|z done IH]; [reflexivity|].
  simpl. f_equal. exact IH.
Qed.

Lemma aligned_width cell_lines j k lines w :
  aligned cell_lines ->
  nth_error cell_lines j = Some lines -> nth_error widths j = Some w ->
  nth_error cell_lines k = Some lines -> nth_error widths k = Some w.
Proof.
  intros A Hj Hw Hk.
  destruct (A j lines Hj) as (w1 & Hw1 & Hne & F1).
  destruct (A k lines Hk) as (w2 & Hw2 & _ & F2).
  destruct lines as [|l lines]; [congruence|].
  inversion F1; inversion F2; subst. congruence.
Qed.

Lemma aligned_update cell_lines j lines w extra :
  aligned cell_lines ->
  nth_error cell_lines j = Some lines -> nth_error widths j = Some w ->
  Forall (fun l => String.length l = w) extra ->
  aligned (update j (lines ++ extra) cell_lines).
Proof.
  intros A Hj Hw He k ls Hk. rewrite nth_error_update in Hk.
  destruct (Nat.eqb_spec k j) as [->|Hne]; cbn [andb] in Hk;
    [|now apply A].
  destruct (j <? List.length cell_lines); [|now apply A].
  injection Hk as <-.
  destruct (A j lines Hj) as (w1 & Hw1 & Hn & F).
  exists w. split; [exact Hw|]. split.
  - destruct lines; [congruence | discriminate].
  - apply Forall_app. split; [|exact He].
    assert (w1 = w) by congruence. now subst.
Qed.

Lemma pad_cell_aligned rounds : forall cell_lines j lines w,
  aligned cell_lines ->
  nth_error cell_lines j = Some lines -> nth_error widths j = Some w ->
  pad_cell widths j rounds cell_lines
  = Some (update j (lines ++ repeat (spaces w) rounds) cell_lines).
Proof.
  induction rounds as [|rounds IH]; intros cell_lines j lines w A Hj Hw.
  - cbn [pad_cell repeat]. rewrite app_nil_r. f_equal.
    clear A Hw. revert j Hj.
    induction cell_lines as [|x l IHl]; intros [|j] Hj; cbn [update];
      try reflexivity.
    + now injection Hj as ->.
    + f_equal. now apply IHl.
  - cbn [pad_cell]. unfold pad_once. rewrite Hj.
    destruct (index_of_found lines cell_lines j Hj) as (k & -> & Hk).
    rewrite (aligned_width cell_lines j k lines w A Hj Hw Hk).
    assert (Hlt : j < List.length cell_lines)
      by (apply nth_error_Some; congruence).
    rewrite (IH _ j (lines ++ [spaces w]) w).
    + rewrite update_update, <- app_assoc. reflexivity.
    + apply (aligned_update cell_lines j lines w [spaces w] A Hj Hw).
      repeat constructor. apply spaces_length.
    + rewrite nth_error_update, Nat.eqb_refl.
      apply Nat.ltb_lt in Hlt. now rewrite Hlt.
    + exact Hw.
Qed.

(** The cells from position [j] on, each filled up to [max_lines] lines
    of its own width. *)
Let filled (max_lines : nat) :=
  fix filled (j : nat) (todo : list (list string)) : list (list string) :=
    match todo with
    | [] => []
    | lines :: rest =>
        (lines ++ repeat (spaces (nth j widths 0))
                    (max_lines - List.length lines))
        :: filled (S j) rest
    end.

Lemma aligned_app done lines rest :
  aligned (done ++ lines :: rest) ->
  exists w, nth_error widths (List.length done) = Some w.
Proof.
  intros A. destruct (A (List.length done) lines) as (w & Hw & _).
  - rewrite nth_error_app2, Nat.sub_diag by lia. reflexivity.
  - eauto.
Qed.

Lemma pad_loop max_lines todo : forall done,
  aligned (done ++ todo) ->
  fold_left
    (fun state j =>
       match state with
       | None => None
       | Some current =>
           match nth_error current j with
           | Some lines =>
               pad_cell widths j (max_lines - List.length lines) current
           | None => None
           end
       end)
    (List.seq (List.length done) (List.length todo)) (Some (done ++ todo))
  = Some (done ++ filled max_lines (List.length done) todo).
Proof.
  induction todo as [|lines rest IH]; intros done A; [reflexivity|].
  cbn [List.length List.seq fold_left].
  assert (Hj : nth_error (done ++ lines :: rest) (List.length done)
               = Some lines)
    by (rewrite nth_error_app2, Nat.sub_diag by lia; reflexivity).
  destruct (aligned_app done lines rest A) as (w & Hw).
  rewrite Hj, (pad_cell_aligned _ _ _ lines w A Hj Hw), update_app.
  specialize (IH (done ++ [lines ++ repeat (spaces w)
                                      (max_lines - List.length lines)])).
  rewrite length_app, <- !app_assoc in IH.
  cbn [Datatypes.length Datatypes.app] in IH.
  rewrite Nat.add_1_r in IH. rewrite IH.
  - cbn [filled]. now rewrite (nth_error_nth _ _ _ Hw).
  - rewrite <- (update_app done lines).
    apply (aligned_update _ _ lines w _ A Hj Hw).
    apply Forall_forall. intros l Hl. apply repeat_spec in Hl as ->.
    apply spaces_length.
Qed.

Let cell_of (cw : string * nat) : list string :=
  format_cell (fst cw) (snd cw).

Let filled_cell (max_lines : nat) (cw : string * nat) : list string :=
  cell_of cw
  ++ repeat (spaces (snd cw)) (max_lines - List.length (cell_of cw)).

Lemma filled_cells max_lines cells : forall ws pre,
  widths = pre ++ ws ->
  filled max_lines (List.length pre) (map cell_of (combine cells ws))
  = map (filled_cell max_lines) (combine cells ws).
Proof.
  induction cells as [|c cells IH]; intros [|w ws] pre E; try reflexivity.
  cbn [combine map filled]. f_equal.
  - unfold filled_cell. cbn [snd]. rewrite E, app_nth2, Nat.sub_diag by lia.
    reflexivity.
  - rewrite <- (IH ws (pre ++ [w])).
    + rewrite length_app. cbn [List.length]. now rewrite Nat.add_1_r.
    + now rewrite <- app_assoc.
Qed.

Lemma combine_nth_error {A B} (a : list A) : forall (b : list B) k x y,
  nth_error (combine a b) k = Some (x, y) -> nth_error b k = Some y.
Proof.
  induction a as [|x0 a IH]; intros [|y0 b] [|k] x y H; try discriminate.
  - now injection H as _ ->.
  - now apply (IH b k x).
Qed.

Lemma cells_aligned cells :
  aligned (map cell_of (combine cells widths)).
Proof.
  intros k lines H. rewrite nth_error_map in H.
  destruct (nth_error (combine cells widths) k) as [[c w]|] eqn:E;
    [|discriminate].
  injection H as <-. exists w. split; [now apply combine_nth_error in E|].
  split; [apply format_cell_nonempty | apply format_cell_lines].
Qed.

Lemma pad_cells_filled max_lines cells :
  pad_cells widths max_lines (map cell_of (combine cells widths))
  = Some (map (filled_cell max_lines) (combine cells widths)).
Proof.
  unfold pad_cells.
  pose proof (pad_loop max_lines _ [] (cells_aligned cells)) as H.
  cbn [Datatypes.length Datatypes.app] in H. rewrite H.
  f_equal. exact (filled_cells max_lines cells widths [] eq_refl).
Qed.

Lemma all_some_map {A B} (f : A -> B) l :
  all_some (map (fun x => Some (f x)) l) = Some (map f l).
Proof. induction l as [|x l IH]; cbn; [reflexivity | now rewrite IH]. Qed.

Lemma all_some_none {A} (l : list (option A)) :
  In None l -> all_some l = None.
Proof.
  induction l as [|[x|] l IH]; intros H; [easy | | reflexivity].
  destruct H as [H|H]; [discriminate|]. cbn. now rewrite (IH H).
Qed.

Lemma all_some_length {A} (l : list (option A)) : forall xs,
  all_some l = Some xs -> List.length xs = List.length l.
Proof.
  induction l as [|[x|] l IH]; intros xs H; cbn in H; try discriminate.
  - now injection H as <-.
  - destruct (all_some l) as [ys|]; [|discriminate].
    injection H as <-. cbn. now rewrite (IH ys).
Qed.

Lemma map_positions {A B} (g : A -> option B) (l : list A) :
  map (fun j => match nth_error l j with Some x => g x | None => None end)
    (List.seq 0 (List.length l))
  = map g l.
Proof.
  induction l as [|x l IH]; [reflexivity|].
  cbn [List.length List.seq map nth_error]. f_equal.
  rewrite <- seq_shift, map_map. exact IH.
Qed.

Lemma list_max_ge l n : In n l -> n <= list_max l.
Proof.
  intros H. pose proof (proj1 (list_max_le l (list_max l)) (Nat.le_refl _)) as F.
  rewrite Forall_forall in F. now apply F.
Qed.

Lemma nth_filled {A} i (lines : list A) (s : A) k (d : A) :
  i < List.length lines + k ->
  nth_error (lines ++ repeat s k) i = Some (nth i lines s)
  /\ nth i (lines ++ repeat s k) d = nth i lines s.
Proof.
  intros H. destruct (Nat.lt_ge_cases i (List.length lines)) as [Hi|Hi].
  - rewrite nth_error_app1, app_nth1 by exact Hi.
    split; [now apply nth_error_nth' | now apply nth_indep].
  - rewrite nth_error_app2, app_nth2 by exact Hi.
    rewrite (nth_overflow lines s) by exact Hi.
    rewrite nth_repeat_lt by lia.
    split; [|reflexivity].
    rewrite (nth_error_nth' _ s) by (rewrite repeat_length; lia).
    now rewrite nth_repeat_lt by lia.
Qed.

Lemma format_cell_length text width :
  List.length (format_cell text width) = List.length (split LF text).
Proof. apply length_map. Qed.

Lemma combine_cells (cells : list string) : forall ws : list nat,
  List.length cells <= List.length ws ->
  map fst (combine cells ws) = cells.
Proof.
  induction cells as [|c cells IH]; intros [|w ws] H; cbn in *;
    try reflexivity; try lia.
  rewrite IH; [reflexivity | lia].
Qed.

End TableRows.

Section TableRowsResult.

Import PyStr TraceFifoSignals.

(** X21.  With at least four cells and a width for each of them,
    [print_table_row] prints one line for each line of its tallest cell;
    in every printed line each cell is the line of its text, cut or
    filled to the width of its own column, or blanks of that width where
    the text has no such line.  The look-up of the width through the
    position of an equal cell never picks another width.  With fewer
    than four cells, or fewer widths than cells, the call raises. *)
Theorem print_table_row_aligned (cells : list string) (widths : list nat) :
  (4 <= List.length cells <= List.length widths ->
   print_table_row cells widths
   = Some
       (map (fun i =>
               map (fun cw =>
                      nth i (format_cell (fst cw) (snd cw)) (spaces (snd cw)))
                 (combine cells widths))
          (List.seq 0
             (list_max
                (map (fun c => List.length (split LF c)) cells)))))
  /\ (List.length cells < 4 \/ List.length widths < List.length cells ->
      print_table_row cells widths = None).
Proof.
  unfold print_table_row.
  set (cws := combine cells widths).
  set (cl := map (fun cw => format_cell (fst cw) (snd cw)) cws).
  assert (L : List.length cws
              = Nat.min (List.length cells) (List.length widths))
    by apply length_combine.
  assert (P : forall m,
             pad_cells widths m cl
             = Some (map (fun cw =>
                      format_cell (fst cw) (snd cw)
                      ++ repeat (spaces (snd cw))
                           (m - List.length (format_cell (fst cw) (snd cw))))
                      cws))
    by (intros m; apply pad_cells_filled).
  split.
  - intros [H4 Hw].
    assert (Hc : cl <> []).
    { unfold cl. destruct cws; [cbn in L; lia | discriminate]. }
    unfold max_lines_of. destruct cl as [|x cl'] eqn:Ecl; [congruence|].
    rewrite <- Ecl in *. rewrite P.
    assert (EM : list_max (map (@List.length string) cl)
                 = list_max (map (fun c => List.length (split LF c)) cells)).
    { unfold cl. rewrite map_map.
      rewrite <- (combine_cells cells widths Hw). fold cws. rewrite map_map.
      f_equal. apply map_ext. intros [c w]. apply format_cell_length. }
    rewrite EM.
    set (M := list_max (map (fun c => List.length (split LF c)) cells)).
    rewrite <- all_some_map. f_equal.
    apply map_ext_in. intros i Hi. apply in_seq in Hi as [_ Hi].
    cbn [Nat.add] in Hi. unfold row_at.
    replace (List.length cells) with
      (List.length
         (map (fun cw =>
                 format_cell (fst cw) (snd cw)
                 ++ repeat (spaces (snd cw))
                      (M - List.length (format_cell (fst cw) (snd cw))))
            cws))
      by (rewrite length_map, L; lia).
    rewrite (map_positions (fun lines => nth_error lines i)), map_map.
    assert (R : map (fun cw =>
                  nth_error
                    (format_cell (fst cw) (snd cw)
                     ++ repeat (spaces (snd cw))
                          (M - List.length (format_cell (fst cw) (snd cw))))
                    i) cws
                = map (fun cw =>
                         Some (nth i (format_cell (fst cw) (snd cw))
                                 (spaces (snd cw)))) cws).
    { apply map_ext_in. intros cw Hcw.
      apply (nth_filled i _ _ _ EmptyString).
      assert (List.length (format_cell (fst cw) (snd cw)) <= M); [|lia].
      unfold M. rewrite <- EM. apply list_max_ge.
      unfold cl. rewrite map_map. apply in_map_iff. now exists cw. }
    rewrite R, all_some_map, length_map, L.
    destruct (Nat.ltb_spec (Nat.min (List.length cells) (List.length widths)) 4);
      [lia | reflexivity].
  - intros H. unfold max_lines_of.
    destruct cl as [|x cl'] eqn:Ecl; [reflexivity|].
    rewrite <- Ecl in *. rewrite P.
    set (M := list_max (map (@List.length string) cl)).
    assert (HM : 1 <= M).
    { destruct cws as [|cw cws'] eqn:Ecws; [discriminate|].
      assert (Hx : List.length (format_cell (fst cw) (snd cw)) <= M).
      { apply list_max_ge. unfold cl. cbn [map]. now left. }
      pose proof (format_cell_nonempty (fst cw) (snd cw)).
      destruct (format_cell (fst cw) (snd cw)); [congruence|].
      cbn [Datatypes.length] in Hx. lia. }
    destruct M as [|M']; [lia|]. cbn [List.seq map].
    replace (row_at _ _ 0) with (@None (list string)); [reflexivity|].
    symmetry. unfold row_at.
    match goal with |- match all_some ?l with _ => _ end = _ =>
      destruct (all_some l) as [row|] eqn:E; [|reflexivity];
      pose proof (all_some_length l row E) as Hl;
      assert (Hin : List.length widths < List.length cells -> In None l)
    end.
    { intros Hlt. apply in_map_iff. exists (List.length cws).
      split.
      - rewrite (proj2 (nth_error_None _ _)); [reflexivity|].
        now rewrite length_map.
      - apply in_seq. lia. }
    rewrite length_map, length_seq in Hl.
    destruct (Nat.ltb_spec (List.length row) 4) as [|Hge]; [reflexivity|].
    destruct H as [H|H]; [lia|].
    apply Hin, all_some_none in H. congruence.
Qed.

Lemma print_table_row_witness :
  let cells := ["a"; "b"; "c"; "d"] in
  let widths := [2; 2; 3; 1] in
  4 <= List.length cells <= List.length widths
  /\ print_table_row cells widths = Some [["a "; "b "; "c  "; "d"]].
Proof.
  intros cells widths.
  assert (H : 4 <= List.length cells <= List.length widths) by (cbn; lia).
  split; [exact H|].
  rewrite (proj1 (print_table_row_aligned cells widths) H). reflexivity.
Defined.

End TableRowsResult.

(** ** The batch, line by line *)

Section Batch.

Import PyStr Re TraceSignal.

Lemma unlines_cons l ls : unlines (l :: ls) = l +++ nl +++ unlines ls.
Proof.
  unfold unlines. cbn [map]. now rewrite concat_empty_cons, append_assoc.
Qed.

Lemma unlines_app a b : unlines (a ++ b) = unlines a +++ unlines b.
Proof.
  induction a as [|l a IH]; [reflexivity|].
  cbn [Datatypes.app]. now rewrite !unlines_cons, IH, !append_assoc.
Qed.

(** The lines a block of joined commands takes in a script: an empty
    block still takes one, empty, line. *)
Lemma join_unlines ds :
  join nl ds +++ nl
  = unlines (match ds with [] => [EmptyString] | _ => ds end).
Proof.
  destruct ds as [|d ds]; [reflexivity|].
  revert d. induction ds as [|e ds IH]; intros d.
  - unfold join. cbn [String.concat]. now rewrite unlines_cons, append_nil_r.
  - rewrite unlines_cons, <- IH. unfold join. cbn [String.concat].
    now rewrite !append_assoc.
Qed.

Lemma word_one_line s : all_chars isword s = true -> all_chars (notchr LF) s = true.
Proof.
  apply all_chars_weaken. intros c H. unfold notchr.
  destruct (Ascii.eqb_spec c LF) as [->|]; [discriminate | reflexivity].
Qed.

Lemma other_modules_words file_lines target :
  Forall (fun m => all_chars (notchr LF) m = true)
    (get_other_modules file_lines target).
Proof.
  unfold get_other_modules. rewrite other_modules_loop.
  apply Forall_forall. intros m Hm. cbn [Datatypes.app] in Hm.
  apply filter_In in Hm as [Hm _]. unfold declared_modules in Hm.
  apply in_flat_map in Hm as (line & _ & Hm).
  destruct (declared_module line) as [m'|] eqn:D; [|contradiction].
  destruct Hm as [<-|[]]. apply declared_module_word in D.
  now apply word_one_line.
Qed.

Lemma filter_none {A} (f : A -> bool) l :
  Forall (fun x => f x = false) l -> filter f l = [].
Proof.
  induction 1 as [|x l Hx _ IH]; [reflexivity|].
  cbn [filter]. now rewrite Hx.
Qed.

Lemma filter_all {A} (f : A -> bool) l :
  Forall (fun x => f x = true) l -> filter f l = l.
Proof.
  induction 1 as [|x l Hx _ IH]; [reflexivity|].
  cbn [filter]. now rewrite Hx, IH.
Qed.

(** C5.  For a target and an ordered candidate list of wires, [run_proofs]
    makes exactly one backend invocation, and the script it submits
    reads, line by line: the commands that read and prepare the gold and
    the gate design and join them in one miter, and then, for every
    candidate in list order, one [sat] command that proves that
    candidate's wire against the target.  So the lines that are [sat]
    commands are the queries of the candidates, one each, in order, and
    the script builds the miter once, before the first query.  (Paths
    and names are taken without a newline, as the dump gives them.) *)
Theorem run_proofs_single_ordered_batch
  (yosys : Subprocess.backend) (gold_abs gate_abs : string)
  (gold_lines gate_lines : list string)
  (module_name gate_target_wire : string) (candidates : list wire)
  (bounded : bool) (h : Subprocess.log) :
  all_chars (notchr LF) gold_abs = true ->
  all_chars (notchr LF) gate_abs = true ->
  all_chars (notchr LF) module_name = true ->
  all_chars (notchr LF) gate_target_wire = true ->
  forallb (fun c => all_chars (notchr LF) (wire_name c)) candidates = true ->
  let query := fun c : wire =>
    if bounded then
      "sat -prove " +++ wire_name c +++ " " +++ gate_target_wire
      +++ " -set-init-zero -seq 2"
    else
      "sat -tempinduct -prove trigger 0 -prove " +++ wire_name c +++ " "
      +++ gate_target_wire +++ " -set-init-zero -seq 2 miter" in
  let deletes := fun file_lines : list string =>
    match get_other_modules file_lines module_name with
    | [] => [EmptyString]
    | others => map (fun m => "delete " +++ m) others
    end in
  let circuit :=
    ["read_verilog -formal " +++ gold_abs]
    ++ deletes gold_lines
    ++ ["prep -flatten -top " +++ module_name;
        "rename -top gold";
        "clk2fflogic";
        "design -stash gold";
        EmptyString;
        "read_verilog -formal " +++ gate_abs]
    ++ deletes gate_lines
    ++ ["prep -flatten -top " +++ module_name;
        "rename -top gate";
        "clk2fflogic";
        EmptyString;
        "design -copy-from gold -as gold gold";
        "miter -equiv -flatten -make_outputs gold gate miter";
        "hierarchy -top miter"] in
  exists batch,
    snd (run_proofs yosys gold_abs gate_abs gold_lines gate_lines module_name
           gate_target_wire candidates bounded h)
    = h ++ [ {| Subprocess.script := batch; Subprocess.timeout := 600 |} ]
    /\ split LF batch = circuit ++ map query candidates ++ [EmptyString]
    /\ filter (startswith "sat ") (split LF batch) = map query candidates
    /\ filter (String.eqb "miter -equiv -flatten -make_outputs gold gate miter")
         (split LF batch)
       = ["miter -equiv -flatten -make_outputs gold gate miter"].
Proof.
  intros Hgold Hgate Hmod Htarget Hcands query deletes circuit.
  exists (generate_miter_script gold_abs gate_abs gold_lines gate_lines
            module_name
          +++ String.concat EmptyString
                (map (sat_command bounded gate_target_wire) candidates)).
  split.
  { unfold run_proofs, Subprocess.bind, Subprocess.run, Subprocess.ret.
    rewrite add_sat_commands_concat. now destruct (yosys h _). }
  assert (Hq : String.concat EmptyString
                 (map (sat_command bounded gate_target_wire) candidates)
               = unlines (map query candidates)).
  { unfold unlines. rewrite map_map. f_equal. apply map_ext. intros c.
    unfold sat_command, query. destruct bounded; now rewrite !append_assoc. }
  assert (Hd : forall file_lines,
             delete_commands (get_other_modules file_lines module_name) +++ nl
             = unlines (deletes file_lines)).
  { intros file_lines. unfold delete_commands, deletes.
    rewrite join_unlines.
    now destruct (get_other_modules file_lines module_name). }
  assert (Hm : generate_miter_script gold_abs gate_abs gold_lines gate_lines
                 module_name
               = unlines circuit).
  { unfold generate_miter_script, circuit. cbv zeta.
    rewrite !unlines_app, !unlines_cons, <- !Hd, !append_assoc.
    reflexivity. }
  assert (Hdel : forall file_lines,
             Forall (fun l => all_chars (notchr LF) l = true
                              /\ startswith "sat " l = false
                              /\ String.eqb
                                   "miter -equiv -flatten -make_outputs gold gate miter"
                                   l = false)
               (deletes file_lines)).
  { intros file_lines. unfold deletes.
    pose proof (other_modules_words file_lines module_name) as W.
    destruct (get_other_modules file_lines module_name) as [|m ms];
      [repeat constructor|].
    apply Forall_forall. intros l Hl. apply in_map_iff in Hl as (x & <- & Hx).
    rewrite Forall_forall in W. split; [|split; reflexivity].
    rewrite all_chars_app, (W x Hx). reflexivity. }
  assert (Hqs : Forall (fun l => all_chars (notchr LF) l = true
                                 /\ startswith "sat " l = true
                                 /\ String.eqb
                                      "miter -equiv -flatten -make_outputs gold gate miter"
                                      l = false)
                  (map query candidates)).
  { apply Forall_forall. intros l Hl. apply in_map_iff in Hl as (c & <- & Hc).
    rewrite forallb_forall in Hcands. specialize (Hcands c Hc).
    unfold query. destruct bounded;
      (split; [|split; reflexivity]);
      rewrite !all_chars_app, Hcands, Htarget; reflexivity. }
  assert (Hs : split LF
                 (generate_miter_script gold_abs gate_abs gold_lines
                    gate_lines module_name
                  +++ String.concat EmptyString
                        (map (sat_command bounded gate_target_wire) candidates))
               = circuit ++ map query candidates ++ [EmptyString]).
  { rewrite Hq, Hm, <- unlines_app, split_unlines, <- app_assoc;
      [reflexivity|].
    apply Forall_app. split.
    - unfold circuit. repeat (apply Forall_app; split);
        try (eapply Forall_impl; [|apply Hdel]; cbn beta; tauto);
        repeat constructor;
        rewrite ?all_chars_app, ?Hgold, ?Hgate, ?Hmod; reflexivity.
    - eapply Forall_impl; [|exact Hqs]. cbn beta. tauto. }
  assert (Hc1 : filter (startswith "sat ") circuit = []).
  { apply filter_none. unfold circuit.
    repeat (apply Forall_app; split);
      try (eapply Forall_impl; [|apply Hdel]; cbn beta; tauto);
      repeat constructor. }
  assert (Hc2 : filter
                  (String.eqb
                     "miter -equiv -flatten -make_outputs gold gate miter")
                  circuit
                = ["miter -equiv -flatten -make_outputs gold gate miter"]).
  { unfold circuit. rewrite !filter_app.
    rewrite (filter_none _ (deletes gold_lines)),
      (filter_none _ (deletes gate_lines)).
    - reflexivity.
    - eapply Forall_impl; [|apply Hdel]. cbn beta. tauto.
    - eapply Forall_impl; [|apply Hdel]. cbn beta. tauto. }
  rewrite Hs. split; [reflexivity|]. split.
  - rewrite (filter_app _ circuit), (filter_app _ (map query candidates)), Hc1.
    rewrite (filter_all _ (map query candidates)).
    + cbn [Datatypes.app]. apply app_nil_r.
    + eapply Forall_impl; [|exact Hqs]. cbn beta. tauto.
  - rewrite (filter_app _ circuit), (filter_app _ (map query candidates)), Hc2.
    rewrite (filter_none _ (map query candidates)).
    + reflexivity.
    + eapply Forall_impl; [|exact Hqs]. cbn beta. tauto.
Qed.

End Batch.

Section BatchRun.

Import PyStr Re TraceSignal.

Lemma single_ordered_batch_witness :
  let yosys : Subprocess.backend := fun _ _ => inl Subprocess.TimeoutExpired in
  let a := mkWire "\gold.a" 8 None (Some "a") in
  let b := mkWire "\gold.b" 8 None (Some "b") in
  let gold_lines := ["module Top("; "endmodule"; "module Queue("] in
  forallb (fun c => all_chars (notchr LF) (wire_name c)) [b; a; b] = true
  /\ exists batch,
       snd (run_proofs yosys "/gold.sv" "/gate.sv" gold_lines [] "Top"
              "\gate.t" [b; a; b] true [])
       = [ {| Subprocess.script := batch; Subprocess.timeout := 600 |} ]
       /\ filter (startswith "sat ") (split LF batch)
          = ["sat -prove \gold.b \gate.t -set-init-zero -seq 2";
             "sat -prove \gold.a \gate.t -set-init-zero -seq 2";
             "sat -prove \gold.b \gate.t -set-init-zero -seq 2"].
Proof.
  intros yosys a b gold_lines.
  assert (Hc : forallb (fun c => all_chars (notchr LF) (wire_name c)) [b; a; b]
               = true) by reflexivity.
  split; [exact Hc|].
  destruct (run_proofs_single_ordered_batch yosys "/gold.sv" "/gate.sv"
              gold_lines [] "Top" "\gate.t" [b; a; b] true []
              eq_refl eq_refl eq_refl eq_refl Hc)
    as (batch & Hlog & _ & Hsat & _).
  exists batch. split; [exact Hlog | exact Hsat].
Defined.

End BatchRun.
